(** * ML4F transformer ([transformer_v2.py]): a shallow embedding

    The program is a PyTorch model.  A tensor is modelled by its shape
    together with an indexing function; every library call the program makes
    is modelled by the shape check the library performs (raising the
    exception the library raises) followed by the element-wise definition of
    the result.  Floating-point scalars are modelled by real numbers: the
    statements about values below are statements about the exact arithmetic
    that the floating-point kernels approximate.  Shapes and exceptions do
    not depend on the arithmetic.  Where rounding, overflow or NaN decide a
    statement (the range of the output), the layers concerned are modelled
    in IEEE 754 arithmetic as well ([IEEE], [Rounded]). *)

From Stdlib Require Import String.
From Stdlib Require Import List Arith ZArith Lia Bool.
From Stdlib Require Import QArith Qreals Reals Lra DecimalString.
Import ListNotations.

Local Open Scope nat_scope.

(** ** Exceptions and results *)

Inductive exception := IndexError | ValueError | RuntimeError.

(** [Raise e frames]: exception [e] was raised; [frames] names the calls it
    passed through, outermost first (as a traceback lists them). *)
Inductive result (A : Type) : Type :=
| Ok (a : A)
| Raise (e : exception) (frames : list string).
Arguments Ok {A} a.
Arguments Raise {A} e frames.

Definition bind {A B} (m : result A) (k : A -> result B) : result B :=
  match m with
  | Ok a => k a
  | Raise e fr => Raise e fr
  end.

Notation "'let*' x ':=' m 'in' k" := (bind m (fun x => k))
  (at level 10, x name, m at level 100, k at level 200, only parsing).

(** Runs [m] as the call named [name]. *)
Definition within {A} (name : string) (m : result A) : result A :=
  match m with
  | Ok a => Ok a
  | Raise e fr => Raise e (name :: fr)
  end.

Definition raise {A} (e : exception) (op : string) : result A :=
  Raise e [op].

(** ** Tensors *)

Record tensor (A : Type) : Type := mkTensor {
  shape : list nat;
  get : list nat -> A
}.
Arguments mkTensor {A} shape get.
Arguments shape {A} t.
Arguments get {A} t idx.

Definition numel (s : list nat) : nat := fold_right Nat.mul 1 s.

(** [x.size(d)] *)
Definition size {A} (x : tensor A) (d : nat) : result nat :=
  match nth_error (shape x) d with
  | Some n => Ok n
  | None => raise IndexError "size"
  end.

(** *** Basic slicing, [t[s0, s1, ...]] with unit step *)

Record slice := mkSlice { start : option Z; stop : option Z }.

(** Python's normalisation of a slice bound against a length [n]: a negative
    bound counts from the end, and the result is clamped to [0..n]. *)
Definition slice_bound (n : nat) (i : Z) : nat :=
  let i' := if (i <? 0)%Z then (i + Z.of_nat n)%Z else i in
  Z.to_nat (Z.min (Z.max i' 0) (Z.of_nat n)).

Definition slice_lo (n : nat) (sl : slice) : nat :=
  match start sl with Some s => slice_bound n s | None => 0 end.

Definition slice_hi (n : nat) (sl : slice) : nat :=
  match stop sl with Some s => slice_bound n s | None => n end.

Definition slice_len (n : nat) (sl : slice) : nat := slice_hi n sl - slice_lo n sl.

Fixpoint slice_shape (s : list nat) (sls : list slice) : list nat :=
  match s, sls with
  | n :: s', sl :: sls' => slice_len n sl :: slice_shape s' sls'
  | _, _ => s
  end.

Fixpoint slice_index (s : list nat) (sls : list slice) (idx : list nat) : list nat :=
  match s, sls, idx with
  | n :: s', sl :: sls', i :: idx' => (slice_lo n sl + i) :: slice_index s' sls' idx'
  | _, _, _ => idx
  end.

Definition getitem {A} (t : tensor A) (sls : list slice) : result (tensor A) :=
  if length (shape t) <? length sls then raise IndexError "getitem"
  else Ok (mkTensor (slice_shape (shape t) sls)
                    (fun idx => get t (slice_index (shape t) sls idx))).

Definition all_ : slice := mkSlice None None.
Definition upto (e : Z) : slice := mkSlice None (Some e).
Definition from (s : Z) : slice := mkSlice (Some s) None.

(** [Variable(t)], [torch.from_numpy(a)] and [t.contiguous()] return the
    tensor they are given: they change how it is stored or tracked, not its
    shape or its entries. *)
Definition torch_Variable {A} (t : tensor A) : tensor A := t.
Definition from_numpy {A} (a : tensor A) : tensor A := a.
Definition contiguous {A} (t : tensor A) : tensor A := t.

(** *** [t.transpose(1, 2)] *)

Definition swap12 {A} (l : list A) : option (list A) :=
  match l with
  | a :: b :: c :: rest => Some (a :: c :: b :: rest)
  | _ => None
  end.

Definition swap12_index (idx : list nat) : list nat :=
  match swap12 idx with Some idx' => idx' | None => idx end.

Definition transpose12 {A} (t : tensor A) : result (tensor A) :=
  match swap12 (shape t) with
  | Some s => Ok (mkTensor s (fun idx => get t (swap12_index idx)))
  | None => raise IndexError "transpose"
  end.

(** ** [create_mask] *)

(** [np.ones(shape)] *)
Definition np_ones (s : list nat) : tensor Z := mkTensor s (fun _ => 1%Z).

(** Row and column of an index: its last two components. *)
Definition row_col (idx : list nat) : nat * nat :=
  match rev idx with
  | j :: i :: _ => (i, j)
  | _ => (0, 0)
  end.

(** [np.triu(a, k)]: on the last two axes, the entries with [col - row >= k]
    are kept and the others are zeroed. *)
Definition np_triu (a : tensor Z) (k : Z) : tensor Z :=
  mkTensor (shape a)
    (fun idx => let '(i, j) := row_col idx in
                if (Z.of_nat i + k <=? Z.of_nat j)%Z then get a idx else 0%Z).

(** [a.astype('uint8')] *)
Definition astype_uint8 (a : tensor Z) : tensor Z :=
  mkTensor (shape a) (fun idx => (get a idx mod 256)%Z).

Definition create_mask (x y : nat) : result (tensor Z) :=
  let nopeak_mask := astype_uint8 (np_triu (np_ones [1; x + 1; y + 1]) 1) in
  let peak := from_numpy nopeak_mask in
  let* nopeak := getitem peak [all_; upto (-1); from 1] in
  let* peak_mask := transpose12 nopeak in
  let peak_mask := torch_Variable peak_mask in
  Ok peak_mask.

(** ** Tensor operations on real tensors *)

(** The sum of [f 0], ..., [f (n - 1)]. *)
Fixpoint sum_n (n : nat) (f : nat -> R) : R :=
  match n with
  | O => 0%R
  | S n' => (sum_n n' f + f n')%R
  end.

Definition set_last (idx : list nat) (c : nat) : list nat := removelast idx ++ [c].

Fixpoint set_nth (d : nat) (c : nat) (idx : list nat) : list nat :=
  match d, idx with
  | O, _ :: idx' => c :: idx'
  | S d', i :: idx' => i :: set_nth d' c idx'
  | _, [] => []
  end.

(** *** Broadcasting *)

Definition bcast_dim (a b : nat) : option nat :=
  if a =? b then Some a
  else if a =? 1 then Some b
  else if b =? 1 then Some a
  else None.

(** Shapes are aligned at their last dimension: both are taken reversed. *)
Fixpoint bcast_rev (r1 r2 : list nat) : option (list nat) :=
  match r1, r2 with
  | [], r => Some r
  | r, [] => Some r
  | a :: r1', b :: r2' =>
      match bcast_dim a b, bcast_rev r1' r2' with
      | Some d, Some r => Some (d :: r)
      | _, _ => None
      end
  end.

Definition broadcast_shapes (s1 s2 : list nat) : option (list nat) :=
  option_map (@rev nat) (bcast_rev (rev s1) (rev s2)).

Fixpoint bcast_index_rev (rs ridx : list nat) : list nat :=
  match rs, ridx with
  | d :: rs', i :: ridx' => (if d =? 1 then 0 else i) :: bcast_index_rev rs' ridx'
  | _, _ => []
  end.

(** The index into an operand of shape [s] that an index [idx] of the
    broadcast result reads. *)
Definition bcast_index (s idx : list nat) : list nat :=
  rev (bcast_index_rev (rev s) (rev idx)).

(** [x + y] *)
Definition add (x y : tensor R) : result (tensor R) :=
  match broadcast_shapes (shape x) (shape y) with
  | Some s =>
      Ok (mkTensor s (fun idx =>
            (get x (bcast_index (shape x) idx) + get y (bcast_index (shape y) idx))%R))
  | None => raise RuntimeError "add"
  end.

(** [mask == c] *)
Definition eq_scalar (m : tensor Z) (c : Z) : tensor bool :=
  mkTensor (shape m) (fun idx => (get m idx =? c)%Z).

(** [x.masked_fill(m, v)] (out of place: [x] and [m] are broadcast together) *)
Definition masked_fill (x : tensor R) (m : tensor bool) (v : R) : result (tensor R) :=
  match broadcast_shapes (shape x) (shape m) with
  | Some s =>
      Ok (mkTensor s (fun idx =>
            if get m (bcast_index (shape m) idx) then v
            else get x (bcast_index (shape x) idx)))
  | None => raise RuntimeError "masked_fill"
  end.

(** *** [view]: the same elements, in row-major order, under another shape *)

Fixpoint ravel (s idx : list nat) : nat :=
  match s, idx with
  | _ :: s', i :: idx' => i * numel s' + ravel s' idx'
  | _, _ => 0
  end.

Fixpoint unravel (s : list nat) (off : nat) : list nat :=
  match s with
  | [] => []
  | _ :: s' => off / numel s' :: unravel s' (off mod numel s')
  end.

(** An argument of [view]: a size, or [-1] ([Infer]). *)
Inductive dim := D (n : nat) | Infer.

Definition known_numel (spec : list dim) : nat :=
  fold_right (fun a acc => match a with D n => n * acc | Infer => acc end) 1 spec.

Definition count_infer (spec : list dim) : nat :=
  List.length (filter (fun a => match a with Infer => true | D _ => false end) spec).

Definition fill_infer (m : nat) (spec : list dim) : list nat :=
  map (fun a => match a with D n => n | Infer => m end) spec.

Definition view_shape (n : nat) (spec : list dim) : option (list nat) :=
  match count_infer spec with
  | 0 => if known_numel spec =? n then Some (fill_infer 0 spec) else None
  | 1 => let k := known_numel spec in
         if k =? 0 then None
         else if n mod k =? 0 then Some (fill_infer (n / k) spec)
         else None
  | _ => None
  end.

(** In this program every [view] is applied to a contiguous tensor (a fresh
    result, or the result of [.contiguous()]). *)
Definition view {A} (t : tensor A) (spec : list dim) : result (tensor A) :=
  match view_shape (numel (shape t)) spec with
  | Some s => Ok (mkTensor s (fun idx => get t (unravel (shape t) (ravel s idx))))
  | None => raise RuntimeError "view"
  end.

(** *** [torch.matmul] on operands of two or more dimensions

    The batch dimensions are broadcast.  (Operands of fewer dimensions, which
    the library treats as vectors, do not occur in this program.) *)

Definition split_last2 (s : list nat) : option (list nat * nat * nat) :=
  match rev s with
  | m :: n :: rb => Some (rev rb, n, m)
  | _ => None
  end.

Definition batch_part (idx : list nat) : list nat := removelast (removelast idx).

Definition matmul (a b : tensor R) : result (tensor R) :=
  match split_last2 (shape a), split_last2 (shape b) with
  | Some (ba, n, m), Some (bb, m', p) =>
      if m =? m' then
        match broadcast_shapes ba bb with
        | Some bs =>
            Ok (mkTensor (bs ++ [n; p]) (fun idx =>
                  let '(i, j) := row_col idx in
                  let bi := batch_part idx in
                  sum_n m (fun c =>
                    (get a (bcast_index ba bi ++ [i; c]) *
                     get b (bcast_index bb bi ++ [c; j]))%R)))
        | None => raise RuntimeError "matmul"
        end
      else raise RuntimeError "matmul"
  | _, _ => raise RuntimeError "matmul"
  end.

(** *** [F.softmax(x, dim)] *)

Definition softmax (x : tensor R) (d : nat) : result (tensor R) :=
  match nth_error (shape x) d with
  | Some n =>
      Ok (mkTensor (shape x) (fun idx =>
            (exp (get x idx) / sum_n n (fun j => exp (get x (set_nth d j idx))))%R))
  | None => raise IndexError "softmax"
  end.

Definition map_tensor {A B} (f : A -> B) (x : tensor A) : tensor B :=
  mkTensor (shape x) (fun idx => f (get x idx)).

Definition torch_zeros (s : list nat) : tensor R := mkTensor s (fun _ => 0%R).

(** [t[idx] = v], for [idx] within the shape. *)
Definition setitem (t : tensor R) (idx : list nat) (v : R) : tensor R :=
  mkTensor (shape t)
    (fun i => if list_eq_dec Nat.eq_dec i idx then v else get t i).

(** [t.unsqueeze(0)] *)
Definition unsqueeze0 {A} (t : tensor A) : tensor A :=
  mkTensor (1 :: shape t) (fun idx => get t (tl idx)).

(** Python's [range(start, stop, step)] for a positive step. *)
Definition range (start stop step : nat) : list nat :=
  map (fun k => start + k * step) (seq 0 ((stop - start + step - 1) / step)).

(** ** Control *)

Fixpoint mapM {A B} (f : A -> result B) (l : list A) : result (list B) :=
  match l with
  | [] => Ok []
  | a :: l' =>
      let* b := f a in
      let* bs := mapM f l' in
      Ok (b :: bs)
  end.

(** [for a in l: s = body(a, s)] *)
Fixpoint for_each {A S} (l : list A) (body : A -> S -> result S) (s : S) : result S :=
  match l with
  | [] => Ok s
  | a :: l' =>
      let* s' := body a s in
      for_each l' body s'
  end.

(** [l[i]] on a Python list or an [nn.ModuleList] *)
Definition list_getitem {A} (l : list A) (i : nat) : result A :=
  match nth_error l i with
  | Some a => Ok a
  | None => raise IndexError "getitem"
  end.

Definition string_of_nat (n : nat) : string :=
  NilEmpty.string_of_uint (Nat.to_uint n).

(** ** The parameters and the randomness of a model

    PyTorch draws every learned parameter at random when a module is
    constructed, and training then updates them; dropout draws a fresh
    keep-mask in every call in training mode.  Neither is decided by the
    program text, so both are inputs of the model: [theta] is the state dict
    (the value of every parameter, by the name of the parameter and the index
    of the entry), and [omega] gives, for every dropout module, [None] in
    evaluation mode and in training mode the keep-mask it draws. *)
Record world := mkWorld {
  theta : string -> list nat -> R;
  omega : string -> option (list nat -> bool)
}.

(** The name of the member [a] of the module named [name]. *)
Definition sub (name a : string) : string :=
  if (name =? "")%string then a else (name ++ "." ++ a)%string.

(** ** Library modules *)

Module Linear.
Record t := mk {
  in_features : nat;
  out_features : nat;
  weight : nat -> nat -> R;       (* weight[j][c], of shape [out, in] *)
  bias : option (nat -> R)
}.

(** [nn.Linear(in_features, out_features, bias)] *)
Definition init (w : world) (name : string) (in_f out_f : nat) (has_bias : bool) : t :=
  {| in_features := in_f;
     out_features := out_f;
     weight := fun j c => theta w (sub name "weight") [j; c];
     bias := if has_bias then Some (fun j => theta w (sub name "bias") [j]) else None |}.

Definition forward (m : t) (x : tensor R) : result (tensor R) :=
  match rev (shape x) with
  | d :: rs =>
      if d =? in_features m then
        Ok (mkTensor (rev (out_features m :: rs)) (fun idx =>
              let j := last idx 0 in
              (sum_n (in_features m) (fun c => get x (set_last idx c) * weight m j c)
               + match bias m with Some b => b j | None => 0 end)%R))
      else raise RuntimeError "linear"
  | [] => raise RuntimeError "linear"
  end.
End Linear.

Module Dropout.
Record t := mk {
  p : Q;
  sample : option (list nat -> bool)
}.

(** [nn.Dropout(p)] *)
Definition init (w : world) (name : string) (p : Q) : result t :=
  if Qle_bool 0 p && Qle_bool p 1 then Ok {| p := p; sample := omega w name |}
  else raise ValueError "Dropout".

Definition forward (m : t) (x : tensor R) : tensor R :=
  match sample m with
  | None => x
  | Some keep =>
      mkTensor (shape x) (fun idx =>
        if keep idx then
          if Qeq_bool (p m) 1 then 0%R else (get x idx / (1 - Q2R (p m)))%R
        else 0%R)
  end.
End Dropout.

Module LayerNorm.
Record t := mk {
  normalized_shape : nat;
  eps : R;
  weight : nat -> R;
  bias : nat -> R
}.

(** [nn.LayerNorm(normalized_shape)] *)
Definition init (w : world) (name : string) (n : nat) : t :=
  {| normalized_shape := n;
     eps := 1e-5%R;
     weight := fun j => theta w (sub name "weight") [j];
     bias := fun j => theta w (sub name "bias") [j] |}.

Definition forward (m : t) (x : tensor R) : result (tensor R) :=
  match rev (shape x) with
  | d :: _ =>
      if d =? normalized_shape m then
        Ok (mkTensor (shape x) (fun idx =>
              let j := last idx 0 in
              let mean := (sum_n d (fun c => get x (set_last idx c)) / INR d)%R in
              let var := (sum_n d (fun c => (get x (set_last idx c) - mean) ^ 2) / INR d)%R in
              ((get x idx - mean) / sqrt (var + eps m) * weight m j + bias m j)%R))
      else raise RuntimeError "layer_norm"
  | [] => raise RuntimeError "layer_norm"
  end.
End LayerNorm.

Module Sequential.
Inductive layer :=
| Linear (l : Linear.t)
| ReLU
| Dropout (d : Dropout.t)
| Sigmoid.

Definition t := list layer.

Definition relu (v : R) : R := Rmax 0 v.
Definition sigmoid (v : R) : R := (1 / (1 + exp (- v)))%R.

Definition apply (l : layer) (x : tensor R) : result (tensor R) :=
  match l with
  | Linear m => Linear.forward m x
  | ReLU => Ok (map_tensor relu x)
  | Dropout m => Ok (Dropout.forward m x)
  | Sigmoid => Ok (map_tensor sigmoid x)
  end.

Fixpoint forward (m : t) (x : tensor R) : result (tensor R) :=
  match m with
  | [] => Ok x
  | l :: m' =>
      let* y := apply l x in
      forward m' y
  end.
End Sequential.

(** ** Floating-point scalars

    The program computes in IEEE 754 arithmetic: single precision by
    default, double precision after [.double()].  Where a statement below
    depends on rounding, overflow or NaN, the scalars are modelled by
    [IEEE.t]: NaN, an infinity, or a finite value, every operation rounding
    its exact result to the nearest value of the format, ties to even, with
    gradual underflow, and overflowing to an infinity.  (A zero carries no
    sign here; the sign of a zero matters to a division by zero only, which
    the layers modelled in this arithmetic never perform.) *)

Module IEEE.
Record format := mkFormat {
  prec : Z;       (* the number of bits of the significand *)
  emin : Z;       (* the exponent of the smallest positive value *)
  emax : Z        (* finite values are below 2^emax *)
}.

Definition binary32 : format := mkFormat 24 (-149) 128.
Definition binary64 : format := mkFormat 53 (-1074) 1024.

(** The formats for which the statements below are proved; both formats of
    the program are among them. *)
Definition valid (f : format) : Prop :=
  (2 <= prec f)%Z /\ (emin f <= - prec f)%Z /\ (2 <= emax f)%Z.

Definition bpow (e : Z) : R := powerRZ 2 e.

(** The exponent [e] with [2^e <= |r| < 2^(e+1)], for [r <> 0]. *)
Definition mag (r : R) : Z := Zfloor (ln (Rabs r) / ln 2).

(** The exponent of the unit in the last place of [r]. *)
Definition cexp (f : format) (r : R) : Z :=
  Z.max (mag r - (prec f - 1)) (emin f).

(** The nearest integer, a tie going to the even one. *)
Definition ZnearestE (x : R) : Z :=
  let n := Zfloor x in
  if Rlt_dec (x - IZR n) (1 / 2) then n
  else if Rlt_dec (1 / 2) (x - IZR n) then (n + 1)%Z
  else if Z.even n then n else (n + 1)%Z.

(** Rounding to nearest, with an unbounded exponent range above. *)
Definition round (f : format) (r : R) : R :=
  (IZR (ZnearestE (r * bpow (- cexp f r))) * bpow (cexp f r))%R.

(** The largest finite value. *)
Definition max_finite (f : format) : R :=
  ((bpow (prec f) - 1) * bpow (emax f - prec f))%R.

Inductive t := NaN | Inf (negative : bool) | Fin (r : R).

Definition negative (r : R) : bool := if Rlt_dec r 0 then true else false.

(** The value of the format for the exact result [r] of an operation. *)
Definition of_real (f : format) (r : R) : t :=
  let v := round f r in
  if Rlt_dec (max_finite f) (Rabs v) then Inf (negative v) else Fin v.

Definition neg (x : t) : t :=
  match x with
  | NaN => NaN
  | Inf s => Inf (negb s)
  | Fin r => Fin (- r)
  end.

(** The exponential function of the library, modelled by the correctly
    rounded exponential. *)
Definition exp (f : format) (x : t) : t :=
  match x with
  | NaN => NaN
  | Inf true => Fin 0
  | Inf false => Inf false
  | Fin r => of_real f (Rtrigo_def.exp r)
  end.

Definition add (f : format) (x y : t) : t :=
  match x, y with
  | NaN, _ | _, NaN => NaN
  | Inf s, Inf s' => if Bool.eqb s s' then Inf s else NaN
  | Inf s, Fin _ | Fin _, Inf s => Inf s
  | Fin a, Fin b => of_real f (a + b)
  end.

Definition mul (f : format) (x y : t) : t :=
  match x, y with
  | NaN, _ | _, NaN => NaN
  | Inf s, Inf s' => Inf (xorb s s')
  | Inf s, Fin b | Fin b, Inf s =>
      if Req_EM_T b 0 then NaN else Inf (xorb s (negative b))
  | Fin a, Fin b => of_real f (a * b)
  end.

Definition div (f : format) (x y : t) : t :=
  match x, y with
  | NaN, _ | _, NaN => NaN
  | Inf _, Inf _ => NaN
  | Inf s, Fin b => Inf (xorb s (negative b))
  | Fin _, Inf _ => Fin 0
  | Fin a, Fin b =>
      if Req_EM_T b 0
      then (if Req_EM_T a 0 then NaN else Inf (negative a))
      else of_real f (a / b)
  end.

(** [torch.relu]: the maximum with 0; NaN stays NaN. *)
Definition relu (x : t) : t :=
  match x with
  | NaN => NaN
  | Inf true => Fin 0
  | Inf false => Inf false
  | Fin r => Fin (Rmax 0 r)
  end.

(** [torch.sigmoid]: [1 / (1 + exp(-x))], each operation rounded. *)
Definition sigmoid (f : format) (x : t) : t :=
  div f (Fin 1) (add f (Fin 1) (exp f (neg x))).

(** Plus infinity, or a finite value that is not negative. *)
Definition nonnegative (x : t) : Prop :=
  x = Inf false \/ exists r, x = Fin r /\ (0 <= r)%R.

(** A finite value between [lo] and [hi], both included. *)
Definition in_range (lo hi : R) (x : t) : Prop :=
  exists r, x = Fin r /\ (lo <= r <= hi)%R.
End IEEE.

(** The layers of a [nn.Sequential] that act entry by entry, in floating
    point: what they make of the entry [x] at index [idx]. *)
Module Rounded.

(** [nn.Dropout]: the identity in evaluation mode; in training mode a kept
    entry is multiplied by [scale], the library's value of [1 / (1 - p)],
    and a dropped entry by 0 (with [p = 1] every entry is). *)
Definition dropout (f : IEEE.format) (scale : R) (m : Dropout.t) (idx : list nat)
    (x : IEEE.t) : IEEE.t :=
  match Dropout.sample m with
  | None => x
  | Some keep =>
      if keep idx && negb (Qeq_bool (Dropout.p m) 1)
      then IEEE.mul f x (IEEE.Fin scale)
      else IEEE.mul f x (IEEE.Fin 0)
  end.

(** A linear layer does not act entry by entry: [None]. *)
Definition apply (f : IEEE.format) (scale : R) (l : Sequential.layer) (idx : list nat)
    (x : IEEE.t) : option IEEE.t :=
  match l with
  | Sequential.Linear _ => None
  | Sequential.ReLU => Some (IEEE.relu x)
  | Sequential.Dropout m => Some (dropout f scale m idx x)
  | Sequential.Sigmoid => Some (IEEE.sigmoid f x)
  end.

Fixpoint forward (f : IEEE.format) (scale : R) (m : Sequential.t) (idx : list nat)
    (x : IEEE.t) : option IEEE.t :=
  match m with
  | [] => Some x
  | l :: m' =>
      match apply f scale l idx x with
      | Some y => forward f scale m' idx y
      | None => None
      end
  end.
End Rounded.

(** ** The program *)

Module PositionalEncoding.
Record t := mk { pe : tensor R }.

Definition init (window d_model : nat) : t :=
  let pe := torch_zeros [window; d_model] in
  let pe :=
    fold_left (fun pe pos =>
      let pe :=
        fold_left (fun pe i =>
          setitem pe [pos; i]
            (sin (INR pos / Rpower 10000 (INR (2 * i) / INR d_model))))
          (range 0 d_model 2) pe in
      fold_left (fun pe i =>
          setitem pe [pos; i]
            (cos (INR pos / Rpower 10000 (INR (2 * (i + 1)) / INR d_model))))
        (range 1 d_model 2) pe)
      (seq 0 window) pe in
  let pe := unsqueeze0 pe in
  {| pe := pe |}.

Definition forward (m : t) (x : tensor R) : result (tensor R) :=
  let* seq_len := size x 1 in
  let* rows := getitem (pe m) [all_; upto (Z.of_nat seq_len)] in
  let* x := add x (torch_Variable rows) in
  Ok x.
End PositionalEncoding.

(** [get_clones(module, N)]: [N] deep copies of [module].  A copy has the
    structure of [module] and parameters of its own, so [module] is given
    here as its constructor, by the name under which the parameters are
    found; the template itself is constructed first, as in the source. *)
Definition get_clones {M} (module : string -> result M) (name : string) (N : nat)
  : result (list M) :=
  let* _ := module name in
  mapM (fun i => module (sub name (string_of_nat i))) (seq 0 N).

Definition scaled_dot_product_attention (k q v : tensor R) (mask : option (tensor Z))
  : result (tensor R) :=
  match shape k with
  | [b; _; h; d] =>
      let* k := (let* k := transpose12 k in view (contiguous k) [D (b * h); Infer; D d]) in
      let* q := (let* q := transpose12 q in view (contiguous q) [D (b * h); Infer; D d]) in
      let* v := (let* v := transpose12 v in view (contiguous v) [D (b * h); Infer; D d]) in
      let* kt := transpose12 k in
      let* scores := matmul q kt in
      let* scores :=
        match mask with
        | Some mask => masked_fill scores (eq_scalar mask 0) (-1e9)%R
        | None => Ok scores
        end in
      let* scores := softmax scores 2 in
      let* scores := (let* o := matmul scores v in view o [D b; D h; Infer; D d]) in
      let* scores := transpose12 scores in
      view (contiguous scores) [D b; Infer; D (h * d)]
  | _ => raise ValueError "unpack"
  end.

Module MultiHeadAttention.
Record t := mk {
  h : nat;
  dropout : Dropout.t;
  mask : option (tensor Z);
  d_model : nat;
  pred_window : nat;
  context_window : nat;
  first : option bool;
  q_linear : Linear.t;
  v_linear : Linear.t;
  k_linear : Linear.t;
  unifyheads : Linear.t
}.

Definition init (w : world) (name : string)
    (heads d_model context_window pred_window : nat)
    (first : option bool) (dropout : Q) (mask : option (tensor Z)) : result t :=
  let* drop := Dropout.init w (sub name "dropout") dropout in
  Ok {| h := heads;
        dropout := drop;
        mask := mask;
        d_model := d_model;
        pred_window := pred_window;
        context_window := context_window;
        first := first;
        q_linear := Linear.init w (sub name "q_linear") d_model (heads * d_model) false;
        v_linear := Linear.init w (sub name "v_linear") d_model (heads * d_model) false;
        k_linear := Linear.init w (sub name "k_linear") d_model (heads * d_model) false;
        unifyheads := Linear.init w (sub name "unifyheads") (heads * d_model) d_model true |}.

Definition forward (m : t) (q k v : tensor R) : result (tensor R) :=
  let* b := size q 0 in
  let* k := (let* k := within "k_linear" (Linear.forward (k_linear m) k) in
             view k [D b; Infer; D (h m); D (d_model m)]) in
  let* q := (let* q := within "q_linear" (Linear.forward (q_linear m) q) in
             view q [D b; Infer; D (h m); D (d_model m)]) in
  let* v := (let* v := within "v_linear" (Linear.forward (v_linear m) v) in
             view v [D b; Infer; D (h m); D (d_model m)]) in
  let* output := within "scaled_dot_product_attention"
                   (scaled_dot_product_attention k q v (mask m)) in
  let* output := within "unifyheads" (Linear.forward (unifyheads m) output) in
  Ok output.
End MultiHeadAttention.

Module FeedForward.
Record t := mk { linear : Sequential.t }.

Definition init (w : world) (name : string) (d_model : nat) (dropout : Q) : result t :=
  let* drop := Dropout.init w (sub name "linear.2") dropout in
  Ok {| linear :=
          [ Sequential.Linear (Linear.init w (sub name "linear.0") d_model (10 * d_model) true);
            Sequential.ReLU;
            Sequential.Dropout drop;
            Sequential.Linear (Linear.init w (sub name "linear.3") (10 * d_model) d_model true) ] |}.

Definition forward (m : t) (x : tensor R) : result (tensor R) :=
  let* x := within "linear" (Sequential.forward (linear m) x) in
  Ok x.
End FeedForward.

Module EncoderLayer.
Record t := mk {
  d_model : nat;
  heads : nat;
  norm_1 : LayerNorm.t;
  norm_2 : LayerNorm.t;
  attn : MultiHeadAttention.t;
  ff : FeedForward.t;
  dropout_1 : Dropout.t;
  dropout_2 : Dropout.t
}.

Definition init (w : world) (name : string)
    (heads d_model context_window pred_window : nat) (dropout : Q) : result t :=
  let* attn := MultiHeadAttention.init w (sub name "attn") heads d_model
                 context_window pred_window None dropout None in
  let* ff := FeedForward.init w (sub name "ff") d_model 0.1 in
  let* dropout_1 := Dropout.init w (sub name "dropout_1") dropout in
  let* dropout_2 := Dropout.init w (sub name "dropout_2") dropout in
  Ok {| d_model := d_model;
        heads := heads;
        norm_1 := LayerNorm.init w (sub name "norm_1") d_model;
        norm_2 := LayerNorm.init w (sub name "norm_2") d_model;
        attn := attn;
        ff := ff;
        dropout_1 := dropout_1;
        dropout_2 := dropout_2 |}.

Definition forward (m : t) (x : tensor R) : result (tensor R) :=
  let* x2 := within "norm_1" (LayerNorm.forward (norm_1 m) x) in
  let* a := within "attn" (MultiHeadAttention.forward (attn m) x2 x2 x2) in
  let* x := add x (Dropout.forward (dropout_1 m) a) in
  let* x2 := within "norm_2" (LayerNorm.forward (norm_2 m) x) in
  let* f := within "ff" (FeedForward.forward (ff m) x2) in
  let* x := add x (Dropout.forward (dropout_2 m) f) in
  Ok x.
End EncoderLayer.

Module Encoder.
Record t := mk {
  N : nat;
  pe : PositionalEncoding.t;
  dynamiclayers : list EncoderLayer.t;
  norm : LayerNorm.t
}.

Definition init (w : world) (name : string)
    (N pe_window heads d_model context_window pred_window : nat) (dropout : Q)
  : result t :=
  let* layers :=
    get_clones (fun nm => EncoderLayer.init w nm heads d_model context_window
                            pred_window dropout)
               (sub name "dynamiclayers") N in
  Ok {| N := N;
        pe := PositionalEncoding.init pe_window d_model;
        dynamiclayers := layers;
        norm := LayerNorm.init w (sub name "norm") d_model |}.

Definition forward (m : t) (x : tensor R) : result (tensor R) :=
  let* x := within "pe" (PositionalEncoding.forward (pe m) x) in
  let* x :=
    for_each (seq 0 (N m)) (fun i x =>
      let* layer := list_getitem (dynamiclayers m) i in
      within (sub "dynamiclayers" (string_of_nat i)) (EncoderLayer.forward layer x)) x in
  within "norm" (LayerNorm.forward (norm m) x).
End Encoder.

Module DecoderLayer.
Record t := mk {
  d_model : nat;
  heads : nat;
  norm_1 : LayerNorm.t;
  norm_2 : LayerNorm.t;
  norm_3 : LayerNorm.t;
  attn_1 : MultiHeadAttention.t;
  attn_2 : MultiHeadAttention.t;
  ff : FeedForward.t;
  dropout_1 : Dropout.t;
  dropout_2 : Dropout.t;
  dropout_3 : Dropout.t
}.

Definition init (w : world) (name : string)
    (heads d_model context_window pred_window : nat)
    (first_mask : option (tensor Z)) (dropout : Q) : result t :=
  let* attn_1 := MultiHeadAttention.init w (sub name "attn_1") heads d_model
                   context_window pred_window (Some false) dropout first_mask in
  let* attn_2 := MultiHeadAttention.init w (sub name "attn_2") heads d_model
                   context_window pred_window (Some false) dropout None in
  let* ff := FeedForward.init w (sub name "ff") d_model 0.1 in
  let* dropout_1 := Dropout.init w (sub name "dropout_1") dropout in
  let* dropout_2 := Dropout.init w (sub name "dropout_2") dropout in
  let* dropout_3 := Dropout.init w (sub name "dropout_3") dropout in
  Ok {| d_model := d_model;
        heads := heads;
        norm_1 := LayerNorm.init w (sub name "norm_1") d_model;
        norm_2 := LayerNorm.init w (sub name "norm_2") d_model;
        norm_3 := LayerNorm.init w (sub name "norm_3") d_model;
        attn_1 := attn_1;
        attn_2 := attn_2;
        ff := ff;
        dropout_1 := dropout_1;
        dropout_2 := dropout_2;
        dropout_3 := dropout_3 |}.

Definition forward (m : t) (x enc_out : tensor R) : result (tensor R) :=
  let* x2 := within "norm_1" (LayerNorm.forward (norm_1 m) x) in
  let* a := within "attn_1" (MultiHeadAttention.forward (attn_1 m) x2 x2 x2) in
  let* x := add x (Dropout.forward (dropout_1 m) a) in
  let* x2 := within "norm_2" (LayerNorm.forward (norm_2 m) x) in
  let* a := within "attn_2" (MultiHeadAttention.forward (attn_2 m) x2 enc_out enc_out) in
  let* x := add x (Dropout.forward (dropout_2 m) a) in
  let* x2 := within "norm_3" (LayerNorm.forward (norm_3 m) x) in
  let* f := within "ff" (FeedForward.forward (ff m) x2) in
  let* x := add x (Dropout.forward (dropout_3 m) f) in
  Ok x.
End DecoderLayer.

Module Decoder.
Record t := mk {
  N : nat;
  pe : PositionalEncoding.t;
  decoderlayers : list DecoderLayer.t;
  norm : LayerNorm.t
}.

Definition init (w : world) (name : string)
    (N pe_window heads d_model context_window pred_window : nat)
    (first_mask : option (tensor Z)) (dropout : Q) : result t :=
  let* layers :=
    get_clones (fun nm => DecoderLayer.init w nm heads d_model context_window
                            pred_window first_mask dropout)
               (sub name "decoderlayers") N in
  Ok {| N := N;
        pe := PositionalEncoding.init pe_window d_model;
        decoderlayers := layers;
        norm := LayerNorm.init w (sub name "norm") d_model |}.

Definition forward (m : t) (x enc_out : tensor R) : result (tensor R) :=
  let* x := within "pe" (PositionalEncoding.forward (pe m) x) in
  let* x :=
    for_each (seq 0 (N m)) (fun i x =>
      let* layer := list_getitem (decoderlayers m) i in
      within (sub "decoderlayers" (string_of_nat i))
             (DecoderLayer.forward layer x enc_out)) x in
  within "norm" (LayerNorm.forward (norm m) x).
End Decoder.

Module Ml4fTransformer.
Record t := mk {
  d_model_d : nat;
  d_model_e : nat;
  context_window : nat;
  pred_window : nat;
  dynamicencode : Encoder.t;
  learn : Sequential.t;
  decoder : Decoder.t;
  map : Sequential.t
}.

(** The keyword arguments of the constructor; [None] is an argument that
    the caller leaves out.  ([first_mask] may itself be Python's [None].) *)
Record kwargs := mkKwargs {
  kw_experiment : option string;
  kw_d_model_e : option nat;
  kw_d_model_d : option nat;
  kw_N : option nat;
  kw_heads : option nat;
  kw_first_mask : option (option (tensor Z));
  kw_dropout : option Q;
  kw_context_window : option nat;
  kw_pred_window : option nat;
  kw_pe_window : option nat
}.

(** The default of [first_mask]: evaluated once, when the class is defined. *)
Definition default_first_mask : result (tensor Z) := create_mask 5 5.

Definition or_default {A} (a : option A) (d : A) : A :=
  match a with Some v => v | None => d end.

Definition init (w : world) (kw : kwargs) : result t :=
  let* default_mask := default_first_mask in
  let experiment := or_default (kw_experiment kw) "return"%string in
  let d_model_e := or_default (kw_d_model_e kw) 5 in
  let d_model_d := or_default (kw_d_model_d kw) 1 in
  let N := or_default (kw_N kw) 2 in
  let heads := or_default (kw_heads kw) 4 in
  let first_mask := or_default (kw_first_mask kw) (Some default_mask) in
  let dropout := or_default (kw_dropout kw) 0.1%Q in
  let context_window := or_default (kw_context_window kw) 15 in
  let pred_window := or_default (kw_pred_window kw) 5 in
  let pe_window := or_default (kw_pe_window kw) 15 in
  let* dynamicencode := Encoder.init w "dynamicencode" N pe_window heads d_model_e
                          context_window pred_window dropout in
  let* learn_drop := Dropout.init w "learn.2" dropout in
  let learn :=
    [ Sequential.Linear (Linear.init w "learn.0" (context_window * d_model_e)
                           (pred_window * d_model_d) true);
      Sequential.ReLU;
      Sequential.Dropout learn_drop ] in
  let* decoder := Decoder.init w "decoder" N pe_window heads d_model_d context_window
                    pred_window first_mask dropout in
  let* map_drop := Dropout.init w "map.2" dropout in
  let map :=
    if (experiment =? "return")%string then
      [ Sequential.Linear (Linear.init w "map.0" pred_window pred_window true);
        Sequential.ReLU;
        Sequential.Dropout map_drop ]
    else
      [ Sequential.Linear (Linear.init w "map.0" pred_window pred_window true);
        Sequential.ReLU;
        Sequential.Dropout map_drop;
        Sequential.Sigmoid ] in
  Ok {| d_model_d := d_model_d;
        d_model_e := d_model_e;
        context_window := context_window;
        pred_window := pred_window;
        dynamicencode := dynamicencode;
        learn := learn;
        decoder := decoder;
        map := map |}.

Definition forward (m : t) (x y : tensor R) : result (tensor R) :=
  let* b := size x 0 in
  let* enc_output := within "dynamicencode" (Encoder.forward (dynamicencode m) x) in
  let* enc_output := view enc_output [D b; Infer] in
  let* enc_map := within "learn" (Sequential.forward (learn m) enc_output) in
  let* enc_map := view enc_map [Infer; D (pred_window m); D (d_model_d m)] in
  let* dec_output := within "decoder" (Decoder.forward (decoder m) y enc_map) in
  let* dec_output := view dec_output [D b; D (pred_window m)] in
  let* final := within "map" (Sequential.forward (map m) dec_output) in
  Ok final.
End Ml4fTransformer.

(** The script under [if __name__ == '__main__'].  The inputs [x] and [y]
    stand for the two tensors drawn by [torch.randn]. *)
Definition main (w : world) (x y : tensor R) : result (tensor R) :=
  let* mask := create_mask 5 5 in
  let* model :=
    Ml4fTransformer.init w
      (Ml4fTransformer.mkKwargs (Some "return"%string) (Some 5) (Some 1) (Some 4) (Some 4)
         (Some (Some mask)) (Some 0.1%Q) (Some 15) (Some 5) (Some 15)) in
  Ml4fTransformer.forward model x y.

(** ** Reference definitions

    Definitions written from the specification, for comparison with the
    program. *)

(** The entry of the positional-encoding table at position [pos] and feature
    index [i], for model dimension [D]. *)
Definition pe_entry (D pos i : nat) : R :=
  if Nat.even i
  then sin (INR pos / Rpower 10000 (INR (2 * i) / INR D))
  else cos (INR pos / Rpower 10000 (INR (2 * (i + 1)) / INR D)).

(** Single-head dot-product attention without the [1/sqrt(d)] factor.  [Q] has
    one row per query, [K] and [V] one row per key, rows of width [d]; an
    entry of the mask that is 0 forbids the query (row) to attend to the key
    (column). *)
Definition masked_score (mask : option (nat -> nat -> Z)) (Q K : nat -> nat -> R)
    (d i j : nat) : R :=
  let score := sum_n d (fun c => (Q i c * K j c)%R) in
  match mask with
  | Some M => if (M i j =? 0)%Z then (-1e9)%R else score
  | None => score
  end.

(** The mask entry for query [i] and key [j] of a mask of shape [[1; n; m]]. *)
Definition mask_entry (M : tensor Z) (i j : nat) : Z := get M [0; i; j].

(** The projection of row [i] of [x] (batch element [bi]) by the weights of
    head [hi] of a linear map without bias: entry [c] of the projected row. *)
Definition project (l : Linear.t) (dm : nat) (x : tensor R) (bi hi : nat) (i c : nat) : R :=
  sum_n dm (fun e => (get x [bi; i; e] * Linear.weight l (hi * dm + c) e)%R).

Definition reference_attention (mask : option (nat -> nat -> Z))
    (Q K V : nat -> nat -> R) (keys d : nat) (i t : nat) : R :=
  sum_n keys (fun j =>
    (exp (masked_score mask Q K d i j)
     / sum_n keys (fun j' => exp (masked_score mask Q K d i j'))
     * V j t)%R).

(** What a call is observed to do without looking at the entries: the shape
    of the tensor it returns, or the exception it raises. *)
Definition outcome (r : result (tensor R)) : result (list nat) :=
  match r with
  | Ok t => Ok (shape t)
  | Raise e frames => Raise e frames
  end.

(** A dropout rate that [nn.Dropout] accepts. *)
Definition valid_rate (p : Q) : Prop := Qle_bool 0 p && Qle_bool p 1 = true.

(** The operation of the attention function that raises when a square mask
    of another size than the sequence length [S] is used. *)
Definition mismatch_site (S : nat) : string :=
  if S =? 1 then "matmul"%string else "masked_fill"%string.

(** A world for examples: every parameter is 0 and every dropout module is in
    evaluation mode. *)
Definition zero_world : world := mkWorld (fun _ _ => 0%R) (fun _ => None).

(** A world in which the bias of the final linear layer is [c] at every
    output, every other parameter is 0, and every dropout module is in
    evaluation mode. *)
Definition bias_world (c : R) : world :=
  mkWorld (fun name _ => if (name =? "map.0.bias")%string then c else 0%R)
          (fun _ => None).

(** A world in training mode in which every dropout module draws a mask that
    drops every entry, the bias of [attn.unifyheads] is 1 and every other
    parameter is 0. *)
Definition dropping_world : world :=
  mkWorld (fun name _ => if (name =? "attn.unifyheads.bias")%string then 1%R else 0%R)
          (fun _ => Some (fun _ => false)).

(** A constructor call that passes every argument. *)
Definition explicit (experiment : string) (d_model_e d_model_d N heads : nat)
    (first_mask : option (tensor Z)) (dropout : Q)
    (context_window pred_window pe_window : nat) : Ml4fTransformer.kwargs :=
  Ml4fTransformer.mkKwargs (Some experiment) (Some d_model_e) (Some d_model_d) (Some N)
    (Some heads) (Some first_mask) (Some dropout) (Some context_window)
    (Some pred_window) (Some pe_window).

(** A constructor call that passes every argument except [first_mask]. *)
Definition without_mask (experiment : string) (d_model_e d_model_d N heads : nat)
    (dropout : Q) (context_window pred_window pe_window : nat) : Ml4fTransformer.kwargs :=
  Ml4fTransformer.mkKwargs (Some experiment) (Some d_model_e) (Some d_model_d) (Some N)
    (Some heads) None (Some dropout) (Some context_window)
    (Some pred_window) (Some pe_window).

(** * Properties *)

(** ** Examples *)

Example create_mask_2_3 :
  match create_mask 2 3 with
  | Ok m =>
      (shape m,
       List.map (fun i => List.map (fun j => get m [0; i; j]) (seq 0 2)) (seq 0 3))
  | Raise _ _ => ([], [])
  end = ([1; 3; 2], [[1; 0]; [1; 1]; [1; 1]]%Z).
Proof. reflexivity. Qed.

Example slice_stop_clamped : slice_bound 15 20 = 15.
Proof. reflexivity. Qed.

Example slice_stop_negative : slice_bound 6 (-1) = 5.
Proof. reflexivity. Qed.

Example range_even : range 0 5 2 = [0; 2; 4].
Proof. reflexivity. Qed.

Example range_odd : range 1 5 2 = [1; 3].
Proof. reflexivity. Qed.

Example view_heads : view_shape (numel [4; 4; 15; 5]) [D (4 * 4); Infer; D 5] = Some [16; 15; 5].
Proof. reflexivity. Qed.

Example view_empty_batch : view_shape (numel [0; 4; 15; 5]) [D (0 * 4); Infer; D 5] = None.
Proof. reflexivity. Qed.

Example view_final : view_shape (numel [4; 5; 1]) [D 4; D 5] = Some [4; 5].
Proof. reflexivity. Qed.

Example view_final_wide : view_shape (numel [4; 5; 2]) [D 4; D 5] = None.
Proof. reflexivity. Qed.

Example unravel_merged : unravel [4; 5; 4; 2] (ravel [4; 5; 8] [3; 2; 7]) = [3; 2; 3; 1].
Proof. reflexivity. Qed.

Example broadcast_batch : broadcast_shapes [4; 5; 1] [1; 5; 1] = Some [4; 5; 1].
Proof. reflexivity. Qed.

Example broadcast_single_row : broadcast_shapes [1; 2; 1] [1; 1; 1] = Some [1; 2; 1].
Proof. reflexivity. Qed.

Example broadcast_short_table : broadcast_shapes [4; 20; 1] [1; 15; 1] = None.
Proof. reflexivity. Qed.

Example broadcast_default_mask : broadcast_shapes [16; 7; 7] [1; 5; 5] = None.
Proof. reflexivity. Qed.

Example broadcast_default_mask_1 : broadcast_shapes [16; 1; 1] [1; 5; 5] = Some [16; 5; 5].
Proof. reflexivity. Qed.

Example clone_name :
  sub "decoder" (sub "decoderlayers" (string_of_nat 3)) = "decoder.decoderlayers.3"%string.
Proof. reflexivity. Qed.

(** The outcome of whole calls, by evaluation. *)

Example positional_encoding_window_1 :
  outcome (PositionalEncoding.forward (PositionalEncoding.init 1 1) (torch_zeros [1; 2; 1]))
  = Ok [1; 2; 1].
Proof. vm_compute. reflexivity. Qed.

Example positional_encoding_window_15 :
  outcome (PositionalEncoding.forward (PositionalEncoding.init 15 5) (torch_zeros [4; 16; 5]))
  = Raise RuntimeError ["add"%string].
Proof. vm_compute. reflexivity. Qed.

Example attention_outcome :
  outcome (scaled_dot_product_attention (torch_zeros [2; 7; 4; 3]) (torch_zeros [2; 5; 4; 3])
             (torch_zeros [2; 7; 4; 3]) None)
  = Ok [2; 5; 12].
Proof. vm_compute. reflexivity. Qed.

Example attention_empty_batch :
  outcome (scaled_dot_product_attention (torch_zeros [0; 7; 4; 3]) (torch_zeros [0; 5; 4; 3])
             (torch_zeros [0; 7; 4; 3]) None)
  = Raise RuntimeError ["view"%string].
Proof. vm_compute. reflexivity. Qed.

Example scenario_outcome :
  outcome (let* m := Ml4fTransformer.init zero_world
                       (without_mask "return" 5 1 4 4 0.1 15 5 15) in
           Ml4fTransformer.forward m (torch_zeros [4; 15; 5]) (torch_zeros [4; 5; 1]))
  = Ok [4; 5].
Proof. vm_compute. reflexivity. Qed.

Example wide_decoder_outcome :
  outcome (let* m := Ml4fTransformer.init zero_world
                       (without_mask "return" 5 2 4 4 0.1 15 5 15) in
           Ml4fTransformer.forward m (torch_zeros [4; 15; 5]) (torch_zeros [4; 5; 2]))
  = Raise RuntimeError ["view"%string].
Proof. vm_compute. reflexivity. Qed.

Example default_mask_outcome_7 :
  outcome (let* m := Ml4fTransformer.init zero_world
                       (without_mask "return" 5 1 2 4 0.1 15 7 15) in
           Ml4fTransformer.forward m (torch_zeros [4; 15; 5]) (torch_zeros [4; 7; 1]))
  = Raise RuntimeError
      ["decoder"; "decoderlayers.0"; "attn_1"; "scaled_dot_product_attention";
       "masked_fill"]%string.
Proof. vm_compute. reflexivity. Qed.

Example default_mask_outcome_1 :
  outcome (let* m := Ml4fTransformer.init zero_world
                       (without_mask "return" 5 1 2 4 0.1 15 1 15) in
           Ml4fTransformer.forward m (torch_zeros [4; 15; 5]) (torch_zeros [4; 1; 1]))
  = Raise RuntimeError
      ["decoder"; "decoderlayers.0"; "attn_1"; "scaled_dot_product_attention";
       "matmul"]%string.
Proof. vm_compute. reflexivity. Qed.

Example default_mask_outcome_no_layer :
  outcome (let* m := Ml4fTransformer.init zero_world
                       (without_mask "return" 5 1 0 4 0.1 15 3 15) in
           Ml4fTransformer.forward m (torch_zeros [4; 15; 5]) (torch_zeros [4; 3; 1]))
  = Ok [4; 3].
Proof. vm_compute. reflexivity. Qed.

Example default_mask_outcome_20 :
  outcome (let* m := Ml4fTransformer.init zero_world
                       (without_mask "return" 5 1 2 4 0.1 15 20 15) in
           Ml4fTransformer.forward m (torch_zeros [4; 15; 5]) (torch_zeros [4; 20; 1]))
  = Raise RuntimeError ["decoder"; "pe"; "add"]%string.
Proof. vm_compute. reflexivity. Qed.

Example invalid_rate_outcome :
  outcome (let* m := Ml4fTransformer.init zero_world
                       (without_mask "return" 5 1 2 4 1.5 15 5 15) in
           Ml4fTransformer.forward m (torch_zeros [4; 15; 5]) (torch_zeros [4; 5; 1]))
  = Raise ValueError ["Dropout"%string].
Proof. vm_compute. reflexivity. Qed.

(** ** Slicing and the mask *)

Lemma slice_bound_nonneg (n : nat) (i : Z) :
  (0 <= i)%Z -> slice_bound n i = Nat.min (Z.to_nat i) n.
Proof.
  intros Hi. unfold slice_bound.
  destruct (i <? 0)%Z eqn:E; [apply Z.ltb_lt in E; lia|]. lia.
Qed.

Lemma slice_bound_neg (n : nat) (i : Z) :
  (i < 0)%Z -> slice_bound n i = n - Z.to_nat (- i).
Proof.
  intros Hi. unfold slice_bound.
  destruct (i <? 0)%Z eqn:E; [|apply Z.ltb_ge in E; lia]. lia.
Qed.

Lemma create_mask_spec (x y : nat) :
  exists m, create_mask x y = Ok m /\ shape m = [1; y; x] /\
    forall b i j, get m [b; i; j] = if j <=? i then 1%Z else 0%Z.
Proof.
  unfold create_mask, getitem, transpose12, from_numpy, torch_Variable. cbn.
  eexists; split; [reflexivity|].
  unfold slice_len, slice_hi, slice_lo. cbn.
  rewrite (slice_bound_neg (x + 1) (-1)%Z), (slice_bound_nonneg (y + 1) 1%Z) by lia.
  split.
  - repeat (f_equal; try lia).
  - intros b i j.
    destruct (j <=? i) eqn:E;
      [apply Nat.leb_le in E | apply Nat.leb_gt in E];
      match goal with |- context [(?a <=? ?b)%Z] =>
        destruct (a <=? b)%Z eqn:E2;
        [apply Z.leb_le in E2 | apply Z.leb_gt in E2] end;
      try reflexivity; lia.
Qed.

(** ** Positional encoding *)

Lemma fold_setitem_shape {A} (f : tensor R -> A -> tensor R) (l : list A) (t : tensor R) :
  (forall t a, shape (f t a) = shape t) ->
  shape (fold_left f l t) = shape t.
Proof.
  intros Hf. revert t. induction l as [|a l IH]; intros t; cbn; [reflexivity|].
  rewrite IH. apply Hf.
Qed.

Lemma fold_setitem_get (pos : nat) (f : nat -> R) (l : list nat) (t : tensor R) (p j : nat) :
  get (fold_left (fun pe i => setitem pe [pos; i] (f i)) l t) [p; j] =
  if (p =? pos) && existsb (Nat.eqb j) l then f j else get t [p; j].
Proof.
  revert t. induction l as [|i l IH]; intros t; cbn [fold_left existsb].
  - rewrite andb_false_r. reflexivity.
  - rewrite IH. cbn [setitem get].
    destruct (list_eq_dec Nat.eq_dec [p; j] [pos; i]) as [E|E].
    + injection E as -> ->. rewrite !Nat.eqb_refl. cbn.
      destruct (existsb (Nat.eqb i) l); reflexivity.
    + destruct (p =? pos) eqn:Ep; cbn; [|reflexivity].
      apply Nat.eqb_eq in Ep. subst p.
      destruct (j =? i) eqn:Ej; cbn.
      * apply Nat.eqb_eq in Ej. subst j. contradiction E. reflexivity.
      * reflexivity.
Qed.

Lemma range_step2_mem (start D j : nat) :
  start <= 1 ->
  existsb (Nat.eqb j) (range start D 2) = (j <? D) && Bool.eqb (Nat.even j) (start =? 0).
Proof.
  intros Hs. unfold range.
  destruct (existsb (Nat.eqb j) _) eqn:E.
  - apply existsb_exists in E. destruct E as (x & Hin & Hx).
    apply Nat.eqb_eq in Hx. subst x.
    apply in_map_iff in Hin. destruct Hin as (k & <- & Hk).
    apply in_seq in Hk. destruct Hk as [_ Hk]. cbn [Nat.add] in Hk.
    assert (H2 : 2 * k + 2 <= D - start + 2 - 1).
    { assert (H := Nat.Div0.mul_div_le (D - start + 2 - 1) 2). lia. }
    symmetry. apply andb_true_iff. split.
    + apply Nat.ltb_lt. lia.
    + destruct start as [|[|?]]; [| |lia]; cbn [Nat.eqb Nat.add].
      * replace (k * 2) with (2 * k) by lia. rewrite Nat.even_mul. reflexivity.
      * replace (1 + k * 2) with (S (2 * k)) by lia.
        rewrite Nat.even_succ, Nat.odd_mul.
        replace (Nat.odd 2) with false by reflexivity.
        rewrite ?andb_false_r, ?andb_false_l. reflexivity.
  - symmetry. apply not_true_iff_false. intros H.
    apply andb_true_iff in H. destruct H as [Hlt Hev].
    apply Nat.ltb_lt in Hlt.
    apply not_true_iff_false in E. apply E. clear E.
    apply existsb_exists. exists j. split; [|apply Nat.eqb_refl].
    apply in_map_iff.
    destruct start as [|[|?]]; [| |lia]; cbn [Nat.eqb] in Hev; apply eqb_prop in Hev.
    + apply Nat.even_spec in Hev. destruct Hev as [k ->].
      exists k. split; [lia|]. apply in_seq. split; [lia|]. cbn [Nat.add].
      apply (Nat.div_le_lower_bound _ 2 (S k)); lia.
    + assert (Ho : Nat.odd j = true) by (unfold Nat.odd; rewrite Hev; reflexivity).
      apply Nat.odd_spec in Ho. destruct Ho as [k ->].
      exists k. split; [lia|]. apply in_seq. split; [lia|]. cbn [Nat.add].
      apply (Nat.div_le_lower_bound _ 2 (S k)); lia.
Qed.

Lemma pe_row_get (D pos : nat) (t : tensor R) (p j : nat) :
  get (fold_left (fun pe i =>
         setitem pe [pos; i] (cos (INR pos / Rpower 10000 (INR (2 * (i + 1)) / INR D))))
         (range 1 D 2)
         (fold_left (fun pe i =>
            setitem pe [pos; i] (sin (INR pos / Rpower 10000 (INR (2 * i) / INR D))))
            (range 0 D 2) t)) [p; j] =
  if (p =? pos) && (j <? D) then pe_entry D pos j else get t [p; j].
Proof.
  rewrite (fold_setitem_get pos
             (fun i => cos (INR pos / Rpower 10000 (INR (2 * (i + 1)) / INR D)))).
  rewrite (fold_setitem_get pos
             (fun i => sin (INR pos / Rpower 10000 (INR (2 * i) / INR D)))).
  rewrite !range_step2_mem by lia. unfold pe_entry. cbn [Nat.eqb].
  destruct (p =? pos), (j <? D), (Nat.even j); reflexivity.
Qed.

Lemma existsb_seq (p n : nat) : existsb (Nat.eqb p) (seq 0 n) = (p <? n).
Proof.
  destruct (p <? n) eqn:E.
  - apply Nat.ltb_lt in E. apply existsb_exists. exists p.
    split; [apply in_seq; lia | apply Nat.eqb_refl].
  - apply Nat.ltb_ge in E. apply not_true_iff_false. intros H.
    apply existsb_exists in H. destruct H as (x & Hin & Hx).
    apply Nat.eqb_eq in Hx. subst x. apply in_seq in Hin. lia.
Qed.

Lemma pe_rows_get (D : nat) (l : list nat) (t : tensor R) (p j : nat) :
  get (fold_left (fun pe pos =>
         let pe :=
           fold_left (fun pe i =>
             setitem pe [pos; i] (sin (INR pos / Rpower 10000 (INR (2 * i) / INR D))))
             (range 0 D 2) pe in
         fold_left (fun pe i =>
             setitem pe [pos; i] (cos (INR pos / Rpower 10000 (INR (2 * (i + 1)) / INR D))))
           (range 1 D 2) pe) l t) [p; j] =
  if existsb (Nat.eqb p) l && (j <? D) then pe_entry D p j else get t [p; j].
Proof.
  revert t. induction l as [|pos l IH]; intros t; cbn [fold_left existsb]; [reflexivity|].
  rewrite IH. cbv zeta. rewrite pe_row_get.
  destruct (p =? pos) eqn:E; cbn [orb andb].
  - apply Nat.eqb_eq in E. subst pos.
    destruct (existsb (Nat.eqb p) l), (j <? D); reflexivity.
  - reflexivity.
Qed.

Lemma pe_table_shape (W D : nat) :
  shape (PositionalEncoding.pe (PositionalEncoding.init W D)) = [1; W; D].
Proof.
  unfold PositionalEncoding.init. cbn [PositionalEncoding.pe unsqueeze0 shape].
  f_equal. rewrite fold_setitem_shape; [reflexivity|].
  intros t pos. cbv zeta.
  rewrite !fold_setitem_shape; reflexivity.
Qed.

Lemma pe_table_get (W D : nat) (b p j : nat) :
  get (PositionalEncoding.pe (PositionalEncoding.init W D)) [b; p; j] =
  if (p <? W) && (j <? D) then pe_entry D p j else 0%R.
Proof.
  unfold PositionalEncoding.init. cbn [PositionalEncoding.pe unsqueeze0 get tl].
  rewrite pe_rows_get, existsb_seq. reflexivity.
Qed.

(** ** Broadcasting *)

Lemma bcast_dim_same (a : nat) : bcast_dim a a = Some a.
Proof. unfold bcast_dim. rewrite Nat.eqb_refl. reflexivity. Qed.

Lemma bcast_dim_1_r (a : nat) : bcast_dim a 1 = Some a.
Proof.
  unfold bcast_dim. destruct (a =? 1) eqn:E; [|reflexivity].
  apply Nat.eqb_eq in E. subst a. reflexivity.
Qed.

Lemma bcast_dim_1_l (a : nat) : bcast_dim 1 a = Some a.
Proof.
  unfold bcast_dim. destruct (1 =? a) eqn:E; [|reflexivity].
  apply Nat.eqb_eq in E. subst a. reflexivity.
Qed.

Lemma bcast_dim_None (a b : nat) :
  a <> b -> a <> 1 -> b <> 1 -> bcast_dim a b = None.
Proof.
  intros Hab Ha Hb. unfold bcast_dim.
  apply Nat.eqb_neq in Hab, Ha, Hb. rewrite Hab, Ha, Hb. reflexivity.
Qed.

(** An index component below a dimension is the component that broadcasting
    reads. *)
Lemma bcast_component (d i : nat) : i < d -> (if d =? 1 then 0 else i) = i.
Proof.
  intros Hi. destruct (d =? 1) eqn:E; [|reflexivity].
  apply Nat.eqb_eq in E. lia.
Qed.

Lemma pe_forward_slice (W D : nat) (x : tensor R) (b L : nat) :
  shape x = [b; L; D] ->
  PositionalEncoding.forward (PositionalEncoding.init W D) x =
  add x (mkTensor [1; Nat.min L W; D]
           (fun idx => get (PositionalEncoding.pe (PositionalEncoding.init W D))
                         (slice_index [1; W; D] [all_; upto (Z.of_nat L)] idx))).
Proof.
  intros Hx. unfold PositionalEncoding.forward, size, getitem, torch_Variable.
  rewrite Hx, pe_table_shape. cbn [nth_error bind List.length Nat.ltb Nat.leb].
  cbn [slice_shape]. unfold slice_len, slice_hi, slice_lo. cbn [all_ upto start stop].
  rewrite slice_bound_nonneg by lia. rewrite Nat2Z.id, !Nat.sub_0_r.
  destruct (add x _); reflexivity.
Qed.

Lemma pe_forward_ok (W D : nat) (x : tensor R) (b L : nat) :
  shape x = [b; L; D] -> L <= W ->
  exists out,
    PositionalEncoding.forward (PositionalEncoding.init W D) x = Ok out /\
    shape out = [b; L; D] /\
    forall bi l i, bi < b -> l < L -> i < D ->
      get out [bi; l; i] =
      (get x [bi; l; i] +
       get (PositionalEncoding.pe (PositionalEncoding.init W D)) [0%nat; l; i])%R.
Proof.
  intros Hx HL. rewrite (pe_forward_slice W D x b L Hx).
  unfold add. rewrite Hx. cbn [shape]. rewrite Nat.min_l by exact HL.
  unfold broadcast_shapes. cbn [rev app bcast_rev].
  rewrite !bcast_dim_same, bcast_dim_1_r. cbn [option_map rev app].
  eexists. split; [reflexivity|]. split; [reflexivity|].
  intros bi l i Hbi Hl Hi. cbn [get].
  unfold bcast_index. cbn [rev app bcast_index_rev].
  rewrite !bcast_component by assumption.
  cbn [Nat.eqb slice_index]. unfold slice_lo. cbn [all_ upto start].
  reflexivity.
Qed.

Lemma pe_forward_too_long (W D : nat) (x : tensor R) (b L : nat) :
  shape x = [b; L; D] -> W < L -> 2 <= W ->
  PositionalEncoding.forward (PositionalEncoding.init W D) x = Raise RuntimeError ["add"%string].
Proof.
  intros Hx HL HW. rewrite (pe_forward_slice W D x b L Hx).
  unfold add. rewrite Hx. cbn [shape]. rewrite Nat.min_r by lia.
  unfold broadcast_shapes. cbn [rev app bcast_rev].
  rewrite bcast_dim_same, (bcast_dim_None L W) by lia.
  reflexivity.
Qed.

Lemma pe_forward_single_row (D : nat) (x : tensor R) (b L : nat) :
  shape x = [b; L; D] ->
  exists out,
    PositionalEncoding.forward (PositionalEncoding.init 1 D) x = Ok out /\
    shape out = [b; L; D] /\
    forall bi l i, bi < b -> l < L -> i < D ->
      get out [bi; l; i] =
      (get x [bi; l; i] +
       get (PositionalEncoding.pe (PositionalEncoding.init 1 D)) [0%nat; 0%nat; i])%R.
Proof.
  intros Hx. rewrite (pe_forward_slice 1 D x b L Hx).
  unfold add. rewrite Hx. cbn [shape].
  unfold broadcast_shapes. cbn [rev app bcast_rev].
  assert (Hd : bcast_dim L (Nat.min L 1) = Some L).
  { destruct L as [|L]; [reflexivity|].
    rewrite Nat.min_r by lia. apply bcast_dim_1_r. }
  rewrite bcast_dim_same, Hd, bcast_dim_1_r. cbn [option_map rev app].
  eexists. split; [reflexivity|]. split; [reflexivity|].
  intros bi l i Hbi Hl Hi. cbn [get].
  unfold bcast_index. cbn [rev app bcast_index_rev].
  rewrite !bcast_component by assumption.
  rewrite Nat.min_r by lia.
  cbn [Nat.eqb slice_index]. unfold slice_lo. cbn [all_ upto start].
  reflexivity.
Qed.

(** ** Row-major offsets *)

Lemma ravel_lt (s idx : list nat) :
  Forall2 lt idx s -> ravel s idx < numel s.
Proof.
  intros H. induction H as [|i d idx s Hi _ IH]; cbn; [lia|].
  fold (numel s). nia.
Qed.

Lemma unravel_ravel (s idx : list nat) :
  Forall2 lt idx s -> unravel s (ravel s idx) = idx.
Proof.
  intros H. induction H as [|i d idx s Hi Hr IH]; cbn [ravel unravel]; [reflexivity|].
  assert (Hlt := ravel_lt _ _ Hr).
  assert (Hn : numel s <> 0) by lia.
  rewrite Nat.div_add_l, Nat.div_small, Nat.add_0_r by assumption.
  rewrite Nat.add_comm, Nat.Div0.mod_add, Nat.mod_small by assumption.
  rewrite IH. reflexivity.
Qed.

Lemma sum_n_ext (n : nat) (f g : nat -> R) :
  (forall c, c < n -> f c = g c) -> sum_n n f = sum_n n g.
Proof.
  intros H. induction n as [|n IH]; cbn; [reflexivity|].
  rewrite IH, H by (intros; try apply H; lia). reflexivity.
Qed.

(** ** Shapes and entries of the tensor operations *)

Lemma view_infer {A} (t : tensor A) (spec : list dim) (m : nat) :
  count_infer spec = 1 -> known_numel spec <> 0 ->
  numel (shape t) = m * known_numel spec ->
  view t spec =
  Ok (mkTensor (fill_infer m spec)
        (fun idx => get t (unravel (shape t) (ravel (fill_infer m spec) idx)))).
Proof.
  intros Hc Hk Hn. unfold view, view_shape. rewrite Hc.
  apply Nat.eqb_neq in Hk. rewrite Hk. apply Nat.eqb_neq in Hk.
  rewrite Hn, Nat.Div0.mod_mul, Nat.div_mul by assumption.
  reflexivity.
Qed.

Lemma view_exact {A} (t : tensor A) (spec : list dim) :
  count_infer spec = 0 -> known_numel spec = numel (shape t) ->
  view t spec =
  Ok (mkTensor (fill_infer 0 spec)
        (fun idx => get t (unravel (shape t) (ravel (fill_infer 0 spec) idx)))).
Proof.
  intros Hc Hk. unfold view, view_shape. rewrite Hc, Hk, Nat.eqb_refl.
  reflexivity.
Qed.

Lemma view_mismatch {A} (t : tensor A) (spec : list dim) :
  count_infer spec = 0 -> known_numel spec <> numel (shape t) ->
  view t spec = Raise RuntimeError ["view"%string].
Proof.
  intros Hc Hk. unfold view, view_shape. rewrite Hc.
  apply Nat.eqb_neq in Hk. rewrite Hk. reflexivity.
Qed.

Lemma transpose12_4d {A} (t : tensor A) (a b c d : nat) :
  shape t = [a; b; c; d] ->
  exists t', transpose12 t = Ok t' /\ shape t' = [a; c; b; d] /\
    forall i j k l, get t' [i; j; k; l] = get t [i; k; j; l].
Proof.
  intros Hs. unfold transpose12. rewrite Hs. cbn.
  eexists. split; [reflexivity|]. split; reflexivity.
Qed.

Lemma transpose12_3d {A} (t : tensor A) (a b c : nat) :
  shape t = [a; b; c] ->
  exists t', transpose12 t = Ok t' /\ shape t' = [a; c; b] /\
    forall i j k, get t' [i; j; k] = get t [i; k; j].
Proof.
  intros Hs. unfold transpose12. rewrite Hs. cbn.
  eexists. split; [reflexivity|]. split; reflexivity.
Qed.

(** [view(b * h, -1, d)] of a [[b; h; S; d]] tensor merges the first two
    dimensions. *)
Lemma view_merge_heads {A} (t : tensor A) (b h S d : nat) :
  shape t = [b; h; S; d] -> 0 < b -> 0 < h -> 0 < d ->
  exists t', view t [D (b * h); Infer; D d] = Ok t' /\ shape t' = [b * h; S; d] /\
    forall bi hi i c, bi < b -> hi < h -> i < S -> c < d ->
      get t' [bi * h + hi; i; c] = get t [bi; hi; i; c].
Proof.
  intros Hs Hb Hh Hd.
  rewrite (view_infer t [D (b * h); Infer; D d] S);
    [ | reflexivity | cbn; nia | rewrite Hs; cbn; ring ].
  eexists. split; [reflexivity|]. split; [reflexivity|].
  intros bi hi i c Hbi Hhi Hi Hc. cbn [get fill_infer map]. rewrite Hs.
  replace (ravel [b * h; S; d] [bi * h + hi; i; c])
    with (ravel [b; h; S; d] [bi; hi; i; c]) by (cbn; ring).
  rewrite unravel_ravel by (repeat constructor; assumption).
  reflexivity.
Qed.

(** [view(b, h, -1, d)] of a [[b * h; S; d]] tensor splits the first
    dimension. *)
Lemma view_split_heads {A} (t : tensor A) (b h S d : nat) :
  shape t = [b * h; S; d] -> 0 < b -> 0 < h -> 0 < d ->
  exists t', view t [D b; D h; Infer; D d] = Ok t' /\ shape t' = [b; h; S; d] /\
    forall bi hi i c, bi < b -> hi < h -> i < S -> c < d ->
      get t' [bi; hi; i; c] = get t [bi * h + hi; i; c].
Proof.
  intros Hs Hb Hh Hd.
  rewrite (view_infer t [D b; D h; Infer; D d] S);
    [ | reflexivity | cbn; nia | rewrite Hs; cbn; ring ].
  eexists. split; [reflexivity|]. split; [reflexivity|].
  intros bi hi i c Hbi Hhi Hi Hc. cbn [get fill_infer map]. rewrite Hs.
  replace (ravel [b; h; S; d] [bi; hi; i; c])
    with (ravel [b * h; S; d] [bi * h + hi; i; c]) by (cbn; ring).
  rewrite unravel_ravel by (repeat constructor; solve [assumption | nia]).
  reflexivity.
Qed.

(** [view(b, -1, h * d)] of a [[b; S; h; d]] tensor merges the last two
    dimensions. *)
Lemma view_merge_width {A} (t : tensor A) (b S h d : nat) :
  shape t = [b; S; h; d] -> 0 < b -> 0 < h -> 0 < d ->
  exists t', view t [D b; Infer; D (h * d)] = Ok t' /\ shape t' = [b; S; h * d] /\
    forall bi i hi c, bi < b -> i < S -> hi < h -> c < d ->
      get t' [bi; i; hi * d + c] = get t [bi; i; hi; c].
Proof.
  intros Hs Hb Hh Hd.
  rewrite (view_infer t [D b; Infer; D (h * d)] S);
    [ | reflexivity | cbn; nia | rewrite Hs; cbn; ring ].
  eexists. split; [reflexivity|]. split; [reflexivity|].
  intros bi i hi c Hbi Hi Hhi Hc. cbn [get fill_infer map]. rewrite Hs.
  replace (ravel [b; S; h * d] [bi; i; hi * d + c])
    with (ravel [b; S; h; d] [bi; i; hi; c]) by (cbn; ring).
  rewrite unravel_ravel by (repeat constructor; assumption).
  reflexivity.
Qed.

(** [view(b, -1, h, d)] of a [[b; S; h * d]] tensor splits the last
    dimension. *)
Lemma view_split_width {A} (t : tensor A) (b S h d : nat) :
  shape t = [b; S; h * d] -> 0 < b -> 0 < h -> 0 < d ->
  exists t', view t [D b; Infer; D h; D d] = Ok t' /\ shape t' = [b; S; h; d] /\
    forall bi i hi c, bi < b -> i < S -> hi < h -> c < d ->
      get t' [bi; i; hi; c] = get t [bi; i; hi * d + c].
Proof.
  intros Hs Hb Hh Hd.
  rewrite (view_infer t [D b; Infer; D h; D d] S);
    [ | reflexivity | cbn; nia | rewrite Hs; cbn; ring ].
  eexists. split; [reflexivity|]. split; [reflexivity|].
  intros bi i hi c Hbi Hi Hhi Hc. cbn [get fill_infer map]. rewrite Hs.
  replace (ravel [b; S; h; d] [bi; i; hi; c])
    with (ravel [b; S; h * d] [bi; i; hi * d + c]) by (cbn; ring).
  rewrite unravel_ravel by (repeat constructor; solve [assumption | nia]).
  reflexivity.
Qed.

Lemma bcast_rev_same (r : list nat) : bcast_rev r r = Some r.
Proof.
  induction r as [|a r IH]; cbn; [reflexivity|].
  rewrite bcast_dim_same, IH. reflexivity.
Qed.

Lemma broadcast_shapes_same (s : list nat) : broadcast_shapes s s = Some s.
Proof.
  unfold broadcast_shapes. rewrite bcast_rev_same. cbn. rewrite rev_involutive.
  reflexivity.
Qed.

Lemma add_same_shape (x y : tensor R) (s : list nat) :
  shape x = s -> shape y = s ->
  exists t', add x y = Ok t' /\ shape t' = s.
Proof.
  intros Hx Hy. unfold add. rewrite Hx, Hy, broadcast_shapes_same.
  eexists. split; reflexivity.
Qed.

Lemma matmul_3d (a b : tensor R) (B n m p : nat) :
  shape a = [B; n; m] -> shape b = [B; m; p] ->
  exists t', matmul a b = Ok t' /\ shape t' = [B; n; p] /\
    forall bi i j, bi < B ->
      get t' [bi; i; j] = sum_n m (fun c => (get a [bi; i; c] * get b [bi; c; j])%R).
Proof.
  intros Ha Hb. unfold matmul, split_last2. rewrite Ha, Hb. cbn [rev app].
  rewrite Nat.eqb_refl, broadcast_shapes_same. cbn [app].
  eexists. split; [reflexivity|]. split; [reflexivity|].
  intros bi i j Hbi. cbn [get row_col rev app batch_part removelast].
  unfold bcast_index. cbn [rev app bcast_index_rev].
  rewrite bcast_component by assumption. reflexivity.
Qed.

Lemma matmul_mismatch (a b : tensor R) (B n m B' m' p : nat) :
  shape a = [B; n; m] -> shape b = [B'; m'; p] -> m <> m' ->
  matmul a b = Raise RuntimeError ["matmul"%string].
Proof.
  intros Ha Hb Hm. unfold matmul, split_last2. rewrite Ha, Hb. cbn [rev app].
  apply Nat.eqb_neq in Hm. rewrite Hm. reflexivity.
Qed.

Lemma softmax_3d (x : tensor R) (B n m : nat) :
  shape x = [B; n; m] ->
  exists t', softmax x 2 = Ok t' /\ shape t' = [B; n; m] /\
    forall bi i j,
      get t' [bi; i; j] =
      (exp (get x [bi; i; j]) / sum_n m (fun j' => exp (get x [bi; i; j'])))%R.
Proof.
  intros Hx. unfold softmax. rewrite Hx. cbn [nth_error].
  eexists. split; [reflexivity|]. split; [reflexivity|].
  intros bi i j. reflexivity.
Qed.

(** A mask of shape [[1; n; m]] on scores of shape [[B; n; m]]. *)
Lemma masked_fill_3d (x : tensor R) (mask : tensor bool) (v : R) (B n m : nat) :
  shape x = [B; n; m] -> shape mask = [1; n; m] ->
  exists t', masked_fill x mask v = Ok t' /\ shape t' = [B; n; m] /\
    forall bi i j, bi < B -> i < n -> j < m ->
      get t' [bi; i; j] = if get mask [0; i; j] then v else get x [bi; i; j].
Proof.
  intros Hx Hm. unfold masked_fill. rewrite Hx, Hm.
  unfold broadcast_shapes. cbn [rev app bcast_rev].
  rewrite !bcast_dim_same, bcast_dim_1_r. cbn [option_map rev app].
  eexists. split; [reflexivity|]. split; [reflexivity|].
  intros bi i j Hbi Hi Hj. cbn [get].
  unfold bcast_index. cbn [rev app bcast_index_rev Nat.eqb].
  rewrite !bcast_component by assumption. reflexivity.
Qed.

Lemma linear_forward_shape (m : Linear.t) (x : tensor R) (s : list nat) (d : nat) :
  shape x = s ++ [d] -> Linear.in_features m = d ->
  exists t', Linear.forward m x = Ok t' /\ shape t' = s ++ [Linear.out_features m] /\
    forall idx j,
      get t' (idx ++ [j]) =
      (sum_n d (fun c => get x (idx ++ [c]) * Linear.weight m j c)
       + match Linear.bias m with Some b => b j | None => 0 end)%R.
Proof.
  intros Hx Hd. unfold Linear.forward. rewrite Hx, rev_app_distr. cbn [rev app].
  rewrite Hd, Nat.eqb_refl.
  eexists. split; [reflexivity|]. split.
  - cbn [shape rev]. rewrite rev_involutive. reflexivity.
  - intros idx j. cbn [get]. rewrite last_last. unfold set_last.
    rewrite removelast_last. reflexivity.
Qed.

Lemma linear_forward_mismatch (m : Linear.t) (x : tensor R) (s : list nat) (d : nat) :
  shape x = s ++ [d] -> Linear.in_features m <> d ->
  Linear.forward m x = Raise RuntimeError ["linear"%string].
Proof.
  intros Hx Hd. unfold Linear.forward. rewrite Hx, rev_app_distr. cbn [rev app].
  destruct (d =? Linear.in_features m) eqn:E; [|reflexivity].
  apply Nat.eqb_eq in E. congruence.
Qed.

Lemma layer_norm_forward_shape (m : LayerNorm.t) (x : tensor R) (s : list nat) (d : nat) :
  shape x = s ++ [d] -> LayerNorm.normalized_shape m = d ->
  exists t', LayerNorm.forward m x = Ok t' /\ shape t' = s ++ [d].
Proof.
  intros Hx Hd. unfold LayerNorm.forward. rewrite Hx, rev_app_distr. cbn [rev app].
  rewrite Hd, Nat.eqb_refl.
  eexists. split; reflexivity.
Qed.

Lemma dropout_forward_shape (m : Dropout.t) (x : tensor R) :
  shape (Dropout.forward m x) = shape x.
Proof. unfold Dropout.forward. destruct (Dropout.sample m); reflexivity. Qed.

(** ** Attention *)

(** Runs a step whose success, shape and entries a lemma gives. *)
Ltac run L t :=
  let E := fresh "E" t in
  let S := fresh "S" t in
  let G := fresh "G" t in
  first [ destruct L as (t & E & S & G) | destruct L as (t & E & S) ];
  rewrite E; clear E; cbn [bind within].

Lemma scaled_dot_product_attention_spec
    (k q v : tensor R) (mask : option (tensor Z)) (b Sq Sk h d : nat) :
  shape q = [b; Sq; h; d] -> shape k = [b; Sk; h; d] -> shape v = [b; Sk; h; d] ->
  0 < b -> 0 < h -> 0 < d ->
  (forall M, mask = Some M -> shape M = [1; Sq; Sk]) ->
  exists out,
    scaled_dot_product_attention k q v mask = Ok out /\
    shape out = [b; Sq; h * d] /\
    forall bi i hi t, bi < b -> i < Sq -> hi < h -> t < d ->
      get out [bi; i; hi * d + t] =
      reference_attention
        (option_map mask_entry mask)
        (fun i c => get q [bi; i; hi; c])
        (fun j c => get k [bi; j; hi; c])
        (fun j c => get v [bi; j; hi; c])
        Sk d i t.
Proof.
  intros Hq Hk Hv Hb Hh Hd Hmask.
  unfold scaled_dot_product_attention, contiguous. rewrite Hk.
  run (transpose12_4d k b Sk h d Hk) k1.
  run (view_merge_heads k1 b h Sk d Sk1 Hb Hh Hd) k2.
  run (transpose12_4d q b Sq h d Hq) q1.
  run (view_merge_heads q1 b h Sq d Sq1 Hb Hh Hd) q2.
  run (transpose12_4d v b Sk h d Hv) v1.
  run (view_merge_heads v1 b h Sk d Sv1 Hb Hh Hd) v2.
  run (transpose12_3d k2 (b * h) Sk d Sk2) kt.
  run (matmul_3d q2 kt (b * h) Sq d Sk Sq2 Skt) sc.
  assert (Hfill : exists sc',
    match mask with
    | Some mask => masked_fill sc (eq_scalar mask 0) (-1e9)%R
    | None => Ok sc
    end = Ok sc' /\ shape sc' = [b * h; Sq; Sk] /\
    forall bi i hi j, bi < b -> i < Sq -> hi < h -> j < Sk ->
      get sc' [bi * h + hi; i; j] =
      masked_score (option_map mask_entry mask)
        (fun i c => get q [bi; i; hi; c]) (fun j c => get k [bi; j; hi; c]) d i j).
  { assert (Hraw : forall bi i hi j, bi < b -> i < Sq -> hi < h -> j < Sk ->
      get sc [bi * h + hi; i; j] =
      sum_n d (fun c => (get q [bi; i; hi; c] * get k [bi; j; hi; c])%R)).
    { intros bi i hi j Hbi Hi Hhi Hj. rewrite Gsc by nia.
      apply sum_n_ext. intros c Hc.
      rewrite Gq2, Gq1, Gkt, Gk2, Gk1 by assumption. reflexivity. }
    destruct mask as [M|].
    - destruct (masked_fill_3d sc (eq_scalar M 0) (-1e9)%R (b * h) Sq Sk Ssc)
        as (sc' & E & S' & G'); [exact (Hmask M eq_refl)|].
      exists sc'. split; [exact E|]. split; [exact S'|].
      intros bi i hi j Hbi Hi Hhi Hj. rewrite G' by (assumption || nia).
      unfold masked_score, mask_entry. cbn [option_map eq_scalar get].
      rewrite Hraw by assumption. reflexivity.
    - exists sc. split; [reflexivity|]. split; [exact Ssc|].
      intros bi i hi j Hbi Hi Hhi Hj. unfold masked_score. cbn [option_map].
      apply Hraw; assumption. }
  destruct Hfill as (sc' & E & Ssc' & Gsc'). rewrite E. clear E. cbn [bind].
  run (softmax_3d sc' (b * h) Sq Sk Ssc') sm.
  run (matmul_3d sm v2 (b * h) Sq Sk d Ssm Sv2) o.
  run (view_split_heads o b h Sq d So Hb Hh Hd) o2.
  run (transpose12_4d o2 b h Sq d So2) o3.
  destruct (view_merge_width o3 b Sq h d So3 Hb Hh Hd) as (out & E & Sout & Gout).
  exists out. split; [exact E|]. split; [exact Sout|].
  intros bi i hi t Hbi Hi Hhi Ht.
  rewrite Gout, Go3, Go2, Go by (assumption || nia).
  unfold reference_attention. apply sum_n_ext. intros j Hj.
  rewrite Gsm, Gv2, Gv1, Gsc' by assumption.
  f_equal. f_equal. apply sum_n_ext. intros j' Hj'.
  rewrite Gsc' by assumption. reflexivity.
Qed.

Lemma bind_Ok_inv {A B} (m : result A) (k : A -> result B) (b : B) :
  bind m k = Ok b -> exists a, m = Ok a /\ k a = Ok b.
Proof.
  destruct m as [a|e fr]; cbn; intros H; [|discriminate].
  exists a. split; [reflexivity | exact H].
Qed.

Lemma mha_init_inv (w : world) (name : string) (heads dm cw pw : nat)
    (first : option bool) (p : Q) (mask : option (tensor Z)) (m : MultiHeadAttention.t) :
  MultiHeadAttention.init w name heads dm cw pw first p mask = Ok m ->
  MultiHeadAttention.h m = heads /\
  MultiHeadAttention.d_model m = dm /\
  MultiHeadAttention.mask m = mask /\
  MultiHeadAttention.q_linear m = Linear.init w (sub name "q_linear") dm (heads * dm) false /\
  MultiHeadAttention.k_linear m = Linear.init w (sub name "k_linear") dm (heads * dm) false /\
  MultiHeadAttention.v_linear m = Linear.init w (sub name "v_linear") dm (heads * dm) false /\
  MultiHeadAttention.unifyheads m = Linear.init w (sub name "unifyheads") (heads * dm) dm true.
Proof.
  unfold MultiHeadAttention.init. intros H.
  apply bind_Ok_inv in H. destruct H as (drop & _ & H).
  injection H as <-. cbn. repeat split; reflexivity.
Qed.


Lemma masked_score_ext (mask : option (nat -> nat -> Z)) (Q Q' K K' : nat -> nat -> R)
    (d i j : nat) :
  (forall c, c < d -> Q i c = Q' i c) ->
  (forall c, c < d -> K j c = K' j c) ->
  masked_score mask Q K d i j = masked_score mask Q' K' d i j.
Proof.
  intros HQ HK. unfold masked_score.
  rewrite (sum_n_ext d (fun c => (Q i c * K j c)%R) (fun c => (Q' i c * K' j c)%R));
    [reflexivity|].
  intros c Hc. rewrite HQ, HK by assumption. reflexivity.
Qed.

Lemma reference_attention_ext (mask : option (nat -> nat -> Z))
    (Q Q' K K' V V' : nat -> nat -> R) (keys d i t : nat) :
  (forall c, c < d -> Q i c = Q' i c) ->
  (forall j c, j < keys -> c < d -> K j c = K' j c) ->
  (forall j, j < keys -> V j t = V' j t) ->
  reference_attention mask Q K V keys d i t = reference_attention mask Q' K' V' keys d i t.
Proof.
  intros HQ HK HV. unfold reference_attention.
  apply sum_n_ext. intros j Hj. rewrite HV by assumption.
  rewrite (masked_score_ext mask Q Q' K K' d i j) by (intros; auto).
  f_equal. f_equal. apply sum_n_ext. intros j' Hj'.
  rewrite (masked_score_ext mask Q Q' K K' d i j') by (intros; auto).
  reflexivity.
Qed.

Lemma mha_forward_spec (w : world) (name : string) (heads dm cw pw : nat)
    (first : option bool) (p : Q) (mask : option (tensor Z)) (m : MultiHeadAttention.t)
    (q k v : tensor R) (b Sq Sk : nat) :
  MultiHeadAttention.init w name heads dm cw pw first p mask = Ok m ->
  shape q = [b; Sq; dm] -> shape k = [b; Sk; dm] -> shape v = [b; Sk; dm] ->
  0 < b -> 0 < heads -> 0 < dm ->
  (forall M, mask = Some M -> shape M = [1; Sq; Sk]) ->
  exists out,
    MultiHeadAttention.forward m q k v = Ok out /\
    shape out = [b; Sq; dm] /\
    forall bi i j, bi < b -> i < Sq -> j < dm ->
      get out [bi; i; j] =
      (sum_n (heads * dm) (fun c =>
         reference_attention
           (option_map mask_entry mask)
           (project (MultiHeadAttention.q_linear m) dm q bi (c / dm))
           (project (MultiHeadAttention.k_linear m) dm k bi (c / dm))
           (project (MultiHeadAttention.v_linear m) dm v bi (c / dm))
           Sk dm i (c mod dm)
         * Linear.weight (MultiHeadAttention.unifyheads m) j c)
       + theta w (sub (sub name "unifyheads") "bias") [j])%R.
Proof.
  intros Hinit Hq Hk Hv Hb Hh Hd Hmask.
  destruct (mha_init_inv _ _ _ _ _ _ _ _ _ _ Hinit)
    as (Eh & Ed & Em & Eq & Ek & Ev & Eu).
  unfold MultiHeadAttention.forward, size. rewrite Hq. cbn [nth_error bind].
  rewrite Eh, Ed, Em.
  run (linear_forward_shape (MultiHeadAttention.k_linear m) k [b; Sk] dm Hk
         ltac:(rewrite Ek; reflexivity)) kl.
  rewrite Ek in Skl at 1. cbn [Linear.init Linear.out_features app] in Skl.
  run (view_split_width kl b Sk heads dm Skl Hb Hh Hd) k4.
  run (linear_forward_shape (MultiHeadAttention.q_linear m) q [b; Sq] dm Hq
         ltac:(rewrite Eq; reflexivity)) ql.
  rewrite Eq in Sql at 1. cbn [Linear.init Linear.out_features app] in Sql.
  run (view_split_width ql b Sq heads dm Sql Hb Hh Hd) q4.
  run (linear_forward_shape (MultiHeadAttention.v_linear m) v [b; Sk] dm Hv
         ltac:(rewrite Ev; reflexivity)) vl.
  rewrite Ev in Svl at 1. cbn [Linear.init Linear.out_features app] in Svl.
  run (view_split_width vl b Sk heads dm Svl Hb Hh Hd) v4.
  run (scaled_dot_product_attention_spec k4 q4 v4 mask b Sq Sk heads dm
         Sq4 Sk4 Sv4 Hb Hh Hd Hmask) sd.
  destruct (linear_forward_shape (MultiHeadAttention.unifyheads m) sd [b; Sq] (heads * dm)
              Ssd ltac:(rewrite Eu; reflexivity)) as (out & E & Sout & Gout).
  rewrite E. cbn [bind within].
  exists out. split; [reflexivity|]. split.
  - rewrite Sout, Eu. reflexivity.
  - intros bi i j Hbi Hi Hj.
    change [bi; i; j] with ([bi; i] ++ [j]). rewrite Gout.
    f_equal.
    + apply sum_n_ext. intros c Hc. f_equal.
      assert (Hhi : c / dm < heads) by (apply Nat.Div0.div_lt_upper_bound; nia).
      assert (Ht : c mod dm < dm) by (apply Nat.mod_upper_bound; lia).
      cbn [app].
      assert (Hdm : c / dm * dm + c mod dm = c)
        by (rewrite Nat.mul_comm; symmetry; apply Nat.div_mod_eq).
      replace (get sd [bi; i; c]) with (get sd [bi; i; c / dm * dm + c mod dm])
        by (rewrite Hdm; reflexivity).
      rewrite Gsd by assumption.
      apply reference_attention_ext.
      * intros c' Hc'. rewrite Gq4 by assumption.
        change [bi; i; c / dm * dm + c'] with ([bi; i] ++ [c / dm * dm + c']).
        rewrite Gql.
        replace (Linear.bias _) with (@None (nat -> R)) by (rewrite Eq; reflexivity).
        rewrite Rplus_0_r. reflexivity.
      * intros j' c' Hj' Hc'. rewrite Gk4 by assumption.
        change [bi; j'; c / dm * dm + c'] with ([bi; j'] ++ [c / dm * dm + c']).
        rewrite Gkl.
        replace (Linear.bias _) with (@None (nat -> R)) by (rewrite Ek; reflexivity).
        rewrite Rplus_0_r. reflexivity.
      * intros j' Hj'. rewrite Gv4 by assumption.
        change [bi; j'; c / dm * dm + c mod dm]
          with ([bi; j'] ++ [c / dm * dm + c mod dm]).
        rewrite Gvl.
        replace (Linear.bias _) with (@None (nat -> R)) by (rewrite Ev; reflexivity).
        rewrite Rplus_0_r. reflexivity.
    + rewrite Eu. reflexivity.
Qed.

(** ** Construction *)

Lemma dropout_init_ok (w : world) (name : string) (p : Q) :
  valid_rate p ->
  Dropout.init w name p = Ok (Dropout.mk p (omega w name)).
Proof. unfold valid_rate, Dropout.init. intros ->. reflexivity. Qed.

Lemma dropout_init_inv (w : world) (name : string) (p : Q) (d : Dropout.t) :
  Dropout.init w name p = Ok d -> valid_rate p /\ d = Dropout.mk p (omega w name).
Proof.
  unfold valid_rate, Dropout.init.
  destruct (Qle_bool 0 p && Qle_bool p 1); [|discriminate].
  intros H. injection H as <-. split; reflexivity.
Qed.

Lemma mha_init_ok (w : world) (name : string) (heads dm cw pw : nat)
    (first : option bool) (p : Q) (mask : option (tensor Z)) :
  valid_rate p ->
  exists m, MultiHeadAttention.init w name heads dm cw pw first p mask = Ok m.
Proof.
  intros Hp. unfold MultiHeadAttention.init.
  rewrite dropout_init_ok by exact Hp. cbn [bind]. eexists. reflexivity.
Qed.

Lemma feed_forward_init_ok (w : world) (name : string) (dm : nat) (p : Q) :
  valid_rate p ->
  exists m, FeedForward.init w name dm p = Ok m.
Proof.
  intros Hp. unfold FeedForward.init.
  rewrite dropout_init_ok by exact Hp. cbn [bind]. eexists. reflexivity.
Qed.

Lemma feed_forward_forward_shape (w : world) (name : string) (dm : nat) (p : Q)
    (m : FeedForward.t) (x : tensor R) (s : list nat) :
  FeedForward.init w name dm p = Ok m ->
  shape x = s ++ [dm] ->
  exists out, FeedForward.forward m x = Ok out /\ shape out = s ++ [dm].
Proof.
  unfold FeedForward.init. intros Hinit Hx.
  apply bind_Ok_inv in Hinit. destruct Hinit as (drop & _ & Hm).
  injection Hm as <-.
  unfold FeedForward.forward.
  cbn [FeedForward.linear Sequential.forward Sequential.apply].
  match goal with |- context [Linear.forward ?l x] =>
    run (linear_forward_shape l x s dm Hx eq_refl) t1 end.
  match goal with |- context [Linear.forward ?l ?y] =>
    destruct (linear_forward_shape l y s _
                ltac:(rewrite dropout_forward_shape; exact St1) eq_refl)
      as (out & E & Sout & _) end.
  rewrite E. cbn [bind within]. exists out. split; [reflexivity | exact Sout].
Qed.

Lemma valid_rate_default : valid_rate 0.1.
Proof. reflexivity. Qed.

Lemma encoder_layer_init_ok (w : world) (name : string) (heads dm cw pw : nat) (p : Q) :
  valid_rate p ->
  exists m, EncoderLayer.init w name heads dm cw pw p = Ok m.
Proof.
  intros Hp. unfold EncoderLayer.init.
  destruct (mha_init_ok w (sub name "attn") heads dm cw pw None p None Hp) as (a & ->).
  destruct (feed_forward_init_ok w (sub name "ff") dm _ valid_rate_default) as (f & ->).
  rewrite !dropout_init_ok by exact Hp. cbn [bind]. eexists. reflexivity.
Qed.

Lemma layer_norm_init_shape (w : world) (name : string) (d : nat) (x : tensor R)
    (s : list nat) :
  shape x = s ++ [d] ->
  exists t', LayerNorm.forward (LayerNorm.init w name d) x = Ok t' /\ shape t' = s ++ [d].
Proof. intros Hx. apply layer_norm_forward_shape; [exact Hx | reflexivity]. Qed.

Lemma encoder_layer_forward_shape (w : world) (name : string) (heads dm cw pw : nat)
    (p : Q) (m : EncoderLayer.t) (x : tensor R) (b S : nat) :
  EncoderLayer.init w name heads dm cw pw p = Ok m ->
  shape x = [b; S; dm] -> 0 < b -> 0 < heads -> 0 < dm ->
  exists out, EncoderLayer.forward m x = Ok out /\ shape out = [b; S; dm].
Proof.
  unfold EncoderLayer.init. intros Hinit Hx Hb Hh Hd.
  apply bind_Ok_inv in Hinit. destruct Hinit as (a & Ha & Hinit).
  apply bind_Ok_inv in Hinit. destruct Hinit as (f & Hf & Hinit).
  apply bind_Ok_inv in Hinit. destruct Hinit as (d1 & _ & Hinit).
  apply bind_Ok_inv in Hinit. destruct Hinit as (d2 & _ & Hinit).
  injection Hinit as <-.
  unfold EncoderLayer.forward.
  cbn [EncoderLayer.norm_1 EncoderLayer.norm_2 EncoderLayer.attn EncoderLayer.ff
       EncoderLayer.dropout_1 EncoderLayer.dropout_2].
  run (layer_norm_init_shape w (sub name "norm_1") dm x [b; S] Hx) x2.
  cbn [app] in Sx2.
  destruct (mha_forward_spec w _ heads dm cw pw _ _ _ _ x2 x2 x2 b S S Ha Sx2 Sx2 Sx2
              Hb Hh Hd ltac:(discriminate)) as (att & E & Satt & _).
  rewrite E. clear E. cbn [bind within].
  run (add_same_shape x (Dropout.forward d1 att) [b; S; dm] Hx
         ltac:(rewrite dropout_forward_shape; exact Satt)) x'.
  run (layer_norm_init_shape w (sub name "norm_2") dm x' [b; S] Sx') x2'.
  run (feed_forward_forward_shape w _ dm _ f x2' [b; S] Hf Sx2') ffo.
  cbn [app] in Sffo.
  destruct (add_same_shape x' (Dropout.forward d2 ffo) [b; S; dm] Sx'
              ltac:(rewrite dropout_forward_shape; exact Sffo)) as (out & E & Sout).
  rewrite E. cbn [bind]. exists out. split; [reflexivity | exact Sout].
Qed.

Lemma mapM_ok {A B} (f : A -> result B) (l : list A) :
  (forall a, In a l -> exists b, f a = Ok b) ->
  exists bs, mapM f l = Ok bs.
Proof.
  induction l as [|a l IH]; intros H; cbn [mapM].
  - eexists. reflexivity.
  - destruct (H a (or_introl eq_refl)) as (b & ->).
    destruct IH as (bs & ->); [intros a' Ha'; apply H; right; exact Ha'|].
    cbn [bind]. eexists. reflexivity.
Qed.

Lemma mapM_nth {A B} (f : A -> result B) (l : list A) (bs : list B) (i : nat) (a : A) :
  mapM f l = Ok bs -> nth_error l i = Some a ->
  exists b, nth_error bs i = Some b /\ f a = Ok b.
Proof.
  revert bs i. induction l as [|a0 l IH]; intros bs i Hm Hn.
  - destruct i; discriminate.
  - cbn [mapM] in Hm.
    apply bind_Ok_inv in Hm. destruct Hm as (b0 & Hb0 & Hm).
    apply bind_Ok_inv in Hm. destruct Hm as (bs' & Hbs' & Hm).
    injection Hm as <-.
    destruct i as [|i]; cbn [nth_error] in *.
    + injection Hn as <-. exists b0. split; [reflexivity | exact Hb0].
    + exact (IH bs' i Hbs' Hn).
Qed.

Lemma get_clones_ok {M} (module : string -> result M) (name : string) (N : nat) :
  (forall nm, exists m, module nm = Ok m) ->
  exists ms, get_clones module name N = Ok ms.
Proof.
  intros H. unfold get_clones. destruct (H name) as (m0 & ->). cbn [bind].
  apply mapM_ok. intros i _. apply H.
Qed.

Lemma get_clones_nth {M} (module : string -> result M) (name : string) (N : nat)
    (ms : list M) (i : nat) :
  get_clones module name N = Ok ms -> i < N ->
  exists m, nth_error ms i = Some m /\ module (sub name (string_of_nat i)) = Ok m.
Proof.
  unfold get_clones. intros H Hi.
  apply bind_Ok_inv in H. destruct H as (_ & _ & H).
  apply (mapM_nth _ _ _ i i H).
  rewrite nth_error_nth' with (d := 0) by (rewrite length_seq; exact Hi).
  rewrite seq_nth by exact Hi. reflexivity.
Qed.

Lemma for_each_invariant {A S} (I : S -> Prop) (l : list A) (body : A -> S -> result S)
    (s : S) :
  I s ->
  (forall a s, In a l -> I s -> exists s', body a s = Ok s' /\ I s') ->
  exists s', for_each l body s = Ok s' /\ I s'.
Proof.
  revert s. induction l as [|a l IH]; intros s Hs Hbody; cbn [for_each].
  - exists s. split; [reflexivity | exact Hs].
  - destruct (Hbody a s (or_introl eq_refl) Hs) as (s1 & -> & Hs1). cbn [bind].
    apply IH; [exact Hs1|]. intros a' s' Ha'. apply Hbody. right. exact Ha'.
Qed.

Lemma encoder_init_ok (w : world) (name : string) (N W heads dm cw pw : nat) (p : Q) :
  valid_rate p ->
  exists m, Encoder.init w name N W heads dm cw pw p = Ok m.
Proof.
  intros Hp. unfold Encoder.init.
  destruct (get_clones_ok
              (fun nm => EncoderLayer.init w nm heads dm cw pw p)
              (sub name "dynamiclayers") N) as (ls & ->).
  { intros nm. apply encoder_layer_init_ok. exact Hp. }
  cbn [bind]. eexists. reflexivity.
Qed.

Lemma encoder_forward_shape (w : world) (name : string) (N W heads dm cw pw : nat) (p : Q)
    (m : Encoder.t) (x : tensor R) (b C : nat) :
  Encoder.init w name N W heads dm cw pw p = Ok m ->
  shape x = [b; C; dm] -> C <= W -> 0 < b -> 0 < heads -> 0 < dm ->
  exists out, Encoder.forward m x = Ok out /\ shape out = [b; C; dm].
Proof.
  unfold Encoder.init. intros Hinit Hx HC Hb Hh Hd.
  apply bind_Ok_inv in Hinit. destruct Hinit as (ls & Hls & Hinit).
  injection Hinit as <-.
  unfold Encoder.forward.
  cbn [Encoder.pe Encoder.N Encoder.dynamiclayers Encoder.norm].
  run (pe_forward_ok W dm x b C Hx HC) x1.
  match goal with |- context [for_each ?l ?body x1] =>
    destruct (for_each_invariant (fun t => shape t = [b; C; dm]) l body x1 Sx1)
      as (x2 & E & Sx2) end.
  { intros i t Hi Ht. apply in_seq in Hi.
    destruct (get_clones_nth _ _ _ _ i Hls ltac:(lia)) as (layer & Hn & Hl).
    unfold list_getitem. rewrite Hn. cbn [bind].
    destruct (encoder_layer_forward_shape w _ heads dm cw pw p layer t b C Hl Ht Hb Hh Hd)
      as (t' & -> & St').
    exists t'. split; [reflexivity | exact St']. }
  rewrite E. clear E. cbn [bind].
  destruct (layer_norm_init_shape w (sub name "norm") dm x2 [b; C] Sx2)
    as (out & E & Sout).
  rewrite E. exists out. split; [reflexivity | exact Sout].
Qed.

Lemma decoder_layer_init_ok (w : world) (name : string) (heads dm cw pw : nat)
    (first_mask : option (tensor Z)) (p : Q) :
  valid_rate p ->
  exists m, DecoderLayer.init w name heads dm cw pw first_mask p = Ok m.
Proof.
  intros Hp. unfold DecoderLayer.init.
  destruct (mha_init_ok w (sub name "attn_1") heads dm cw pw (Some false) p first_mask Hp)
    as (a1 & ->).
  destruct (mha_init_ok w (sub name "attn_2") heads dm cw pw (Some false) p None Hp)
    as (a2 & ->).
  destruct (feed_forward_init_ok w (sub name "ff") dm _ valid_rate_default) as (f & ->).
  rewrite !dropout_init_ok by exact Hp. cbn [bind]. eexists. reflexivity.
Qed.

Lemma decoder_layer_forward_shape (w : world) (name : string) (heads dm cw pw : nat)
    (first_mask : option (tensor Z)) (p : Q) (m : DecoderLayer.t)
    (x enc_out : tensor R) (b P S : nat) :
  DecoderLayer.init w name heads dm cw pw first_mask p = Ok m ->
  shape x = [b; P; dm] -> shape enc_out = [b; S; dm] ->
  0 < b -> 0 < heads -> 0 < dm ->
  (forall M, first_mask = Some M -> shape M = [1; P; P]) ->
  exists out, DecoderLayer.forward m x enc_out = Ok out /\ shape out = [b; P; dm].
Proof.
  unfold DecoderLayer.init. intros Hinit Hx He Hb Hh Hd Hmask.
  apply bind_Ok_inv in Hinit. destruct Hinit as (a1 & Ha1 & Hinit).
  apply bind_Ok_inv in Hinit. destruct Hinit as (a2 & Ha2 & Hinit).
  apply bind_Ok_inv in Hinit. destruct Hinit as (f & Hf & Hinit).
  apply bind_Ok_inv in Hinit. destruct Hinit as (d1 & _ & Hinit).
  apply bind_Ok_inv in Hinit. destruct Hinit as (d2 & _ & Hinit).
  apply bind_Ok_inv in Hinit. destruct Hinit as (d3 & _ & Hinit).
  injection Hinit as <-.
  unfold DecoderLayer.forward.
  cbn [DecoderLayer.norm_1 DecoderLayer.norm_2 DecoderLayer.norm_3
       DecoderLayer.attn_1 DecoderLayer.attn_2 DecoderLayer.ff
       DecoderLayer.dropout_1 DecoderLayer.dropout_2 DecoderLayer.dropout_3].
  run (layer_norm_init_shape w (sub name "norm_1") dm x [b; P] Hx) x2.
  cbn [app] in Sx2.
  destruct (mha_forward_spec w _ heads dm cw pw _ _ _ _ x2 x2 x2 b P P Ha1 Sx2 Sx2 Sx2
              Hb Hh Hd Hmask) as (att & E & Satt & _).
  rewrite E. clear E. cbn [bind within].
  run (add_same_shape x (Dropout.forward d1 att) [b; P; dm] Hx
         ltac:(rewrite dropout_forward_shape; exact Satt)) x'.
  run (layer_norm_init_shape w (sub name "norm_2") dm x' [b; P] Sx') x2'.
  cbn [app] in Sx2'.
  destruct (mha_forward_spec w _ heads dm cw pw _ _ _ _ x2' enc_out enc_out b P S
              Ha2 Sx2' He He Hb Hh Hd ltac:(discriminate)) as (att2 & E & Satt2 & _).
  rewrite E. clear E. cbn [bind within].
  run (add_same_shape x' (Dropout.forward d2 att2) [b; P; dm] Sx'
         ltac:(rewrite dropout_forward_shape; exact Satt2)) x''.
  run (layer_norm_init_shape w (sub name "norm_3") dm x'' [b; P] Sx'') x2''.
  run (feed_forward_forward_shape w _ dm _ f x2'' [b; P] Hf Sx2'') ffo.
  cbn [app] in Sffo.
  destruct (add_same_shape x'' (Dropout.forward d3 ffo) [b; P; dm] Sx''
              ltac:(rewrite dropout_forward_shape; exact Sffo)) as (out & E & Sout).
  rewrite E. cbn [bind]. exists out. split; [reflexivity | exact Sout].
Qed.

Lemma decoder_init_ok (w : world) (name : string) (N W heads dm cw pw : nat)
    (first_mask : option (tensor Z)) (p : Q) :
  valid_rate p ->
  exists m, Decoder.init w name N W heads dm cw pw first_mask p = Ok m.
Proof.
  intros Hp. unfold Decoder.init.
  destruct (get_clones_ok
              (fun nm => DecoderLayer.init w nm heads dm cw pw first_mask p)
              (sub name "decoderlayers") N) as (ls & ->).
  { intros nm. apply decoder_layer_init_ok. exact Hp. }
  cbn [bind]. eexists. reflexivity.
Qed.

Lemma decoder_forward_shape (w : world) (name : string) (N W heads dm cw pw : nat)
    (first_mask : option (tensor Z)) (p : Q)
    (m : Decoder.t) (x enc_out : tensor R) (b P S : nat) :
  Decoder.init w name N W heads dm cw pw first_mask p = Ok m ->
  shape x = [b; P; dm] -> shape enc_out = [b; S; dm] -> P <= W ->
  0 < b -> 0 < heads -> 0 < dm ->
  (0 < N -> forall M, first_mask = Some M -> shape M = [1; P; P]) ->
  exists out, Decoder.forward m x enc_out = Ok out /\ shape out = [b; P; dm].
Proof.
  unfold Decoder.init. intros Hinit Hx He HP Hb Hh Hd Hmask.
  apply bind_Ok_inv in Hinit. destruct Hinit as (ls & Hls & Hinit).
  injection Hinit as <-.
  unfold Decoder.forward.
  cbn [Decoder.pe Decoder.N Decoder.decoderlayers Decoder.norm].
  run (pe_forward_ok W dm x b P Hx HP) x1.
  match goal with |- context [for_each ?l ?body x1] =>
    destruct (for_each_invariant (fun t => shape t = [b; P; dm]) l body x1 Sx1)
      as (x2 & E & Sx2) end.
  { intros i t Hi Ht. apply in_seq in Hi.
    destruct (get_clones_nth _ _ _ _ i Hls ltac:(lia)) as (layer & Hn & Hl).
    unfold list_getitem. rewrite Hn. cbn [bind].
    destruct (decoder_layer_forward_shape w _ heads dm cw pw first_mask p layer t enc_out
                b P S Hl Ht He Hb Hh Hd (Hmask ltac:(lia))) as (t' & -> & St').
    exists t'. split; [reflexivity | exact St']. }
  rewrite E. clear E. cbn [bind].
  destruct (layer_norm_init_shape w (sub name "norm") dm x2 [b; P] Sx2)
    as (out & E & Sout).
  rewrite E. exists out. split; [reflexivity | exact Sout].
Qed.

(** ** The model *)

Section Model.
Import Ml4fTransformer.

Variable w : world.
Variable kw : kwargs.

(** The arguments of the constructor, after defaults. *)
Let experiment_ := or_default (kw_experiment kw) "return"%string.
Let d_e := or_default (kw_d_model_e kw) 5.
Let d_d := or_default (kw_d_model_d kw) 1.
Let N_ := or_default (kw_N kw) 2.
Let heads_ := or_default (kw_heads kw) 4.
Let p_ := or_default (kw_dropout kw) 0.1%Q.
Let C := or_default (kw_context_window kw) 15.
Let P := or_default (kw_pred_window kw) 5.
Let W := or_default (kw_pe_window kw) 15.

Lemma ml4f_init_inv (m : t) :
  init w kw = Ok m ->
  exists m5 enc dec ldrop mdrop,
    create_mask 5 5 = Ok m5 /\
    Encoder.init w "dynamicencode" N_ W heads_ d_e C P p_ = Ok enc /\
    Decoder.init w "decoder" N_ W heads_ d_d C P
      (or_default (kw_first_mask kw) (Some m5)) p_ = Ok dec /\
    valid_rate p_ /\
    d_model_d m = d_d /\ pred_window m = P /\
    dynamicencode m = enc /\ decoder m = dec /\
    learn m = [ Sequential.Linear (Linear.init w "learn.0" (C * d_e) (P * d_d) true);
                Sequential.ReLU;
                Sequential.Dropout ldrop ] /\
    map m =
      (if (experiment_ =? "return")%string then
         [ Sequential.Linear (Linear.init w "map.0" P P true);
           Sequential.ReLU;
           Sequential.Dropout mdrop ]
       else
         [ Sequential.Linear (Linear.init w "map.0" P P true);
           Sequential.ReLU;
           Sequential.Dropout mdrop;
           Sequential.Sigmoid ]) /\
    mdrop = Dropout.mk p_ (omega w "map.2").
Proof.
  unfold init, default_first_mask. intros H.
  apply bind_Ok_inv in H. destruct H as (m5 & Hm5 & H).
  apply bind_Ok_inv in H. destruct H as (enc & Henc & H).
  apply bind_Ok_inv in H. destruct H as (ldrop & Hld & H).
  apply bind_Ok_inv in H. destruct H as (dec & Hdec & H).
  apply bind_Ok_inv in H. destruct H as (mdrop & Hmd & H).
  injection H as <-.
  apply dropout_init_inv in Hmd. destruct Hmd as (Hp & Hmd).
  exists m5, enc, dec, ldrop, mdrop.
  repeat (split; [first [assumption | reflexivity]|]). exact Hmd.
Qed.

Lemma ml4f_init_ok :
  valid_rate p_ -> exists m, init w kw = Ok m.
Proof.
  intros Hp. unfold init, default_first_mask.
  destruct (create_mask_spec 5 5) as (m5 & -> & _). cbn [bind].
  destruct (encoder_init_ok w "dynamicencode" N_ W heads_ d_e C P p_ Hp) as (enc & Henc).
  fold N_ W heads_ d_e C P p_ d_d experiment_. rewrite Henc. cbn [bind].
  rewrite (dropout_init_ok w "learn.2" p_ Hp). cbn [bind].
  destruct (decoder_init_ok w "decoder" N_ W heads_ d_d C P
              (or_default (kw_first_mask kw) (Some m5)) p_ Hp) as (dec & Hdec).
  rewrite Hdec. cbn [bind].
  rewrite (dropout_init_ok w "map.2" p_ Hp). cbn [bind].
  eexists. reflexivity.
Qed.

(** Up to the decoder: the encoder runs, and the bridge maps its output
    to a tensor of the shape of the decoder's input. *)
Lemma ml4f_forward_bridge (m : t) (x y : tensor R) (b : nat) :
  init w kw = Ok m ->
  shape x = [b; C; d_e] ->
  C <= W -> 0 < b -> 0 < heads_ -> 0 < d_e -> 0 < d_d -> 0 < P ->
  exists enc_map,
    shape enc_map = [b; P; d_d] /\
    forward m x y =
    (let* dec_output := within "decoder" (Decoder.forward (decoder m) y enc_map) in
     let* dec_output := view dec_output [D b; D P] in
     let* final := within "map" (Sequential.forward (map m) dec_output) in
     Ok final).
Proof.
  intros Hinit Hx HC Hb Hh Hde Hdd HP.
  destruct (ml4f_init_inv m Hinit)
    as (m5 & enc & dec & ldrop & mdrop & Hm5 & Henc & Hdec & Hp & Edd & EP & Eenc & Edec
        & Elearn & Emap & Emd).
  unfold forward, size. rewrite Hx. cbn [nth_error bind].
  rewrite Eenc, Elearn, EP, Edd.
  run (encoder_forward_shape w _ N_ W heads_ d_e C P p_ enc x b C Henc Hx HC Hb Hh Hde) e1.
  rewrite (view_infer e1 [D b; Infer] (C * d_e));
    [ | reflexivity | cbn; lia | rewrite Se1; cbn; ring ].
  cbn [bind fill_infer List.map].
  cbn [Sequential.forward Sequential.apply].
  match goal with |- context [Linear.forward ?l ?t] =>
    destruct (linear_forward_shape l t [b] (C * d_e) eq_refl eq_refl)
      as (l1 & E & Sl1 & _) end.
  rewrite E. clear E. cbn [bind within].
  cbn [Linear.out_features Linear.init app] in Sl1.
  match goal with |- context [view ?t [Infer; D P; D d_d]] =>
    rewrite (view_infer t [Infer; D P; D d_d] b);
      [ | reflexivity | cbn; nia
        | rewrite dropout_forward_shape; cbn [map_tensor shape]; rewrite Sl1; cbn; ring ]
  end.
  cbn [bind fill_infer List.map].
  eexists. split; [|reflexivity]. reflexivity.
Qed.

(** Up to the final view: the decoder runs as well. *)
Lemma ml4f_forward_decoded (m : t) (x y : tensor R) (b : nat) :
  init w kw = Ok m ->
  shape x = [b; C; d_e] -> shape y = [b; P; d_d] ->
  C <= W -> P <= W -> 0 < b -> 0 < heads_ -> 0 < d_e -> 0 < d_d -> 0 < P ->
  (0 < N_ -> forall m5 M, create_mask 5 5 = Ok m5 ->
     or_default (kw_first_mask kw) (Some m5) = Some M -> shape M = [1; P; P]) ->
  exists dec,
    shape dec = [b; P; d_d] /\
    forward m x y =
    (let* dec_output := view dec [D b; D P] in
     let* final := within "map" (Sequential.forward (map m) dec_output) in
     Ok final).
Proof.
  intros Hinit Hx Hy HC HP Hb Hh Hde Hdd HP0 Hmask.
  destruct (ml4f_forward_bridge m x y b Hinit Hx HC Hb Hh Hde Hdd HP0)
    as (enc_map & Senc & ->).
  destruct (ml4f_init_inv m Hinit)
    as (m5 & enc & dec & ldrop & mdrop & Hm5 & Henc & Hdec & Hp & Edd & EP & Eenc & Edec
        & Elearn & Emap & Emd).
  rewrite Edec.
  destruct (decoder_forward_shape w _ N_ W heads_ d_d C P _ p_ dec y enc_map b P P
              Hdec Hy Senc HP Hb Hh Hdd
              (fun HN M HM => Hmask HN m5 M Hm5 HM)) as (d1 & E & Sd1).
  rewrite E. cbn [bind within]. exists d1. split; [exact Sd1 | reflexivity].
Qed.

Lemma sequential_map_shape (m : t) (t0 : tensor R) (s : list nat) :
  init w kw = Ok m -> shape t0 = s ++ [P] ->
  exists out, Sequential.forward (map m) t0 = Ok out /\ shape out = s ++ [P].
Proof.
  intros Hinit Ht0.
  destruct (ml4f_init_inv m Hinit)
    as (m5 & enc & dec & ldrop & mdrop & Hm5 & Henc & Hdec & Hp & Edd & EP & Eenc & Edec
        & Elearn & Emap & Emd).
  rewrite Emap.
  destruct (linear_forward_shape (Linear.init w "map.0" P P true) t0 s P Ht0 eq_refl)
    as (l1 & E & Sl1 & _).
  destruct (experiment_ =? "return")%string;
    cbn [Sequential.forward Sequential.apply]; rewrite E; cbn [bind];
    eexists; (split; [reflexivity|]); cbn [map_tensor shape];
    rewrite dropout_forward_shape; exact Sl1.
Qed.

Lemma ml4f_forward_shape (m : t) (x y : tensor R) (b : nat) :
  init w kw = Ok m ->
  shape x = [b; C; d_e] -> shape y = [b; P; d_d] -> d_d = 1 ->
  C <= W -> P <= W -> 0 < b -> 0 < heads_ -> 0 < d_e -> 0 < P ->
  (0 < N_ -> forall m5 M, create_mask 5 5 = Ok m5 ->
     or_default (kw_first_mask kw) (Some m5) = Some M -> shape M = [1; P; P]) ->
  exists out, forward m x y = Ok out /\ shape out = [b; P].
Proof.
  intros Hinit Hx Hy Hdd HC HP Hb Hh Hde HP0 Hmask.
  destruct (ml4f_forward_decoded m x y b Hinit Hx Hy HC HP Hb Hh Hde
              ltac:(lia) HP0 Hmask) as (dec & Sdec & ->).
  rewrite (view_exact dec [D b; D P]);
    [ | reflexivity | rewrite Sdec, Hdd; cbn; ring ].
  cbn [bind fill_infer List.map].
  match goal with |- context [Sequential.forward (map m) ?t0] =>
    destruct (sequential_map_shape m t0 [b] Hinit eq_refl) as (out & E & Sout) end.
  rewrite E. cbn [bind within]. exists out. split; [reflexivity | exact Sout].
Qed.

(** With a decoder width other than 1 the final [view(b, pred_window)]
    is given more elements than its shape holds. *)
Lemma ml4f_forward_wide_decoder (m : t) (x y : tensor R) (b : nat) :
  init w kw = Ok m ->
  shape x = [b; C; d_e] -> shape y = [b; P; d_d] -> 1 < d_d ->
  C <= W -> P <= W -> 0 < b -> 0 < heads_ -> 0 < d_e -> 0 < P ->
  (0 < N_ -> forall m5 M, create_mask 5 5 = Ok m5 ->
     or_default (kw_first_mask kw) (Some m5) = Some M -> shape M = [1; P; P]) ->
  forward m x y = Raise RuntimeError ["view"%string].
Proof.
  intros Hinit Hx Hy Hdd HC HP Hb Hh Hde HP0 Hmask.
  destruct (ml4f_forward_decoded m x y b Hinit Hx Hy HC HP Hb Hh Hde
              ltac:(lia) HP0 Hmask) as (dec & Sdec & ->).
  rewrite (view_mismatch dec [D b; D P]);
    [ reflexivity | reflexivity | rewrite Sdec; cbn; nia ].
Qed.
End Model.

(** ** A mask that does not fit the sequence *)


Lemma sdpa_mask_mismatch (k q v : tensor R) (M : tensor Z) (b S h d n : nat) :
  shape q = [b; S; h; d] -> shape k = [b; S; h; d] -> shape v = [b; S; h; d] ->
  0 < b -> 0 < h -> 0 < d ->
  shape M = [1; n; n] -> S <> n -> n <> 1 ->
  scaled_dot_product_attention k q v (Some M) =
  Raise RuntimeError [mismatch_site S].
Proof.
  intros Hq Hk Hv Hb Hh Hd HM HS Hn.
  unfold scaled_dot_product_attention, contiguous. rewrite Hk.
  run (transpose12_4d k b S h d Hk) k1.
  run (view_merge_heads k1 b h S d Sk1 Hb Hh Hd) k2.
  run (transpose12_4d q b S h d Hq) q1.
  run (view_merge_heads q1 b h S d Sq1 Hb Hh Hd) q2.
  run (transpose12_4d v b S h d Hv) v1.
  run (view_merge_heads v1 b h S d Sv1 Hb Hh Hd) v2.
  run (transpose12_3d k2 (b * h) S d Sk2) kt.
  run (matmul_3d q2 kt (b * h) S d S Sq2 Skt) sc.
  unfold masked_fill. rewrite Ssc. cbn [eq_scalar shape]. rewrite HM.
  unfold broadcast_shapes, mismatch_site. cbn [rev app bcast_rev].
  destruct (S =? 1) eqn:E1.
  - apply Nat.eqb_eq in E1. subst S.
    rewrite !bcast_dim_1_l, bcast_dim_1_r. cbn [option_map rev app bind].
    unfold softmax. cbn [shape nth_error bind].
    match goal with |- context [matmul ?a v2] =>
      rewrite (matmul_mismatch a v2 (b * h) n n (b * h) 1 d eq_refl Sv2 Hn) end.
    reflexivity.
  - apply Nat.eqb_neq in E1.
    rewrite (bcast_dim_None S n) by assumption. reflexivity.
Qed.

Lemma mha_forward_mask_mismatch (w : world) (name : string) (heads dm cw pw : nat)
    (first : option bool) (p : Q) (M : tensor Z) (m : MultiHeadAttention.t)
    (x : tensor R) (b S n : nat) :
  MultiHeadAttention.init w name heads dm cw pw first p (Some M) = Ok m ->
  shape x = [b; S; dm] -> 0 < b -> 0 < heads -> 0 < dm ->
  shape M = [1; n; n] -> S <> n -> n <> 1 ->
  MultiHeadAttention.forward m x x x =
  Raise RuntimeError
    ["scaled_dot_product_attention"%string; mismatch_site S].
Proof.
  intros Hinit Hx Hb Hh Hd HM HS Hn.
  destruct (mha_init_inv _ _ _ _ _ _ _ _ _ _ Hinit)
    as (Eh & Ed & Em & Eq & Ek & Ev & Eu).
  unfold MultiHeadAttention.forward, size. rewrite Hx. cbn [nth_error bind].
  rewrite Eh, Ed, Em.
  run (linear_forward_shape (MultiHeadAttention.k_linear m) x [b; S] dm Hx
         ltac:(rewrite Ek; reflexivity)) kl.
  rewrite Ek in Skl at 1. cbn [Linear.init Linear.out_features app] in Skl.
  run (view_split_width kl b S heads dm Skl Hb Hh Hd) k4.
  run (linear_forward_shape (MultiHeadAttention.q_linear m) x [b; S] dm Hx
         ltac:(rewrite Eq; reflexivity)) ql.
  rewrite Eq in Sql at 1. cbn [Linear.init Linear.out_features app] in Sql.
  run (view_split_width ql b S heads dm Sql Hb Hh Hd) q4.
  run (linear_forward_shape (MultiHeadAttention.v_linear m) x [b; S] dm Hx
         ltac:(rewrite Ev; reflexivity)) vl.
  rewrite Ev in Svl at 1. cbn [Linear.init Linear.out_features app] in Svl.
  run (view_split_width vl b S heads dm Svl Hb Hh Hd) v4.
  rewrite (sdpa_mask_mismatch k4 q4 v4 M b S heads dm n Sq4 Sk4 Sv4 Hb Hh Hd HM HS Hn).
  reflexivity.
Qed.

Lemma decoder_layer_forward_mask_mismatch (w : world) (name : string)
    (heads dm cw pw : nat) (M : tensor Z) (p : Q) (m : DecoderLayer.t)
    (x enc_out : tensor R) (b S n : nat) :
  DecoderLayer.init w name heads dm cw pw (Some M) p = Ok m ->
  shape x = [b; S; dm] -> 0 < b -> 0 < heads -> 0 < dm ->
  shape M = [1; n; n] -> S <> n -> n <> 1 ->
  DecoderLayer.forward m x enc_out =
  Raise RuntimeError
    ["attn_1"%string; "scaled_dot_product_attention"%string; mismatch_site S].
Proof.
  unfold DecoderLayer.init. intros Hinit Hx Hb Hh Hd HM HS Hn.
  apply bind_Ok_inv in Hinit. destruct Hinit as (a1 & Ha1 & Hinit).
  apply bind_Ok_inv in Hinit. destruct Hinit as (a2 & Ha2 & Hinit).
  apply bind_Ok_inv in Hinit. destruct Hinit as (f & Hf & Hinit).
  apply bind_Ok_inv in Hinit. destruct Hinit as (d1 & _ & Hinit).
  apply bind_Ok_inv in Hinit. destruct Hinit as (d2 & _ & Hinit).
  apply bind_Ok_inv in Hinit. destruct Hinit as (d3 & _ & Hinit).
  injection Hinit as <-.
  unfold DecoderLayer.forward.
  cbn [DecoderLayer.norm_1 DecoderLayer.attn_1].
  run (layer_norm_init_shape w (sub name "norm_1") dm x [b; S] Hx) x2.
  cbn [app] in Sx2.
  rewrite (mha_forward_mask_mismatch w _ heads dm cw pw _ p M a1 x2 b S n
             Ha1 Sx2 Hb Hh Hd HM HS Hn).
  reflexivity.
Qed.

Lemma decoder_forward_mask_mismatch (w : world) (name : string)
    (N W heads dm cw pw : nat) (M : tensor Z) (p : Q) (m : Decoder.t)
    (x enc_out : tensor R) (b S n : nat) :
  Decoder.init w name N W heads dm cw pw (Some M) p = Ok m ->
  shape x = [b; S; dm] -> S <= W -> 0 < N -> 0 < b -> 0 < heads -> 0 < dm ->
  shape M = [1; n; n] -> S <> n -> n <> 1 ->
  Decoder.forward m x enc_out =
  Raise RuntimeError
    ["decoderlayers.0"%string; "attn_1"%string; "scaled_dot_product_attention"%string;
     mismatch_site S].
Proof.
  unfold Decoder.init. intros Hinit Hx HS HN Hb Hh Hd HM HSn Hn.
  apply bind_Ok_inv in Hinit. destruct Hinit as (ls & Hls & Hinit).
  injection Hinit as <-.
  unfold Decoder.forward.
  cbn [Decoder.pe Decoder.N Decoder.decoderlayers Decoder.norm].
  run (pe_forward_ok W dm x b S Hx HS) x1.
  destruct N as [|N']; [lia|].
  cbn [seq for_each].
  destruct (get_clones_nth _ _ _ _ 0 Hls ltac:(lia)) as (layer & Hn0 & Hl).
  unfold list_getitem. rewrite Hn0. cbn [bind].
  rewrite (decoder_layer_forward_mask_mismatch w _ heads dm cw pw M p layer x1 enc_out
             b S n Hl Sx1 Hb Hh Hd HM HSn Hn).
  reflexivity.
Qed.

(** ** The final mapping block *)

Lemma within_Ok_inv {A} (name : string) (r : result A) (a : A) :
  within name r = Ok a -> r = Ok a.
Proof. destruct r; cbn; intros H; [exact H | discriminate]. Qed.

Lemma relu_nonneg (v : R) : (0 <= Sequential.relu v)%R.
Proof. unfold Sequential.relu. apply Rmax_l. Qed.

Lemma sigmoid_bounds (v : R) :
  (0 <= v)%R -> (1 / 2 <= Sequential.sigmoid v < 1)%R.
Proof.
  intros Hv. unfold Sequential.sigmoid.
  assert (He : (0 < exp (- v))%R) by apply exp_pos.
  assert (He1 : (exp (- v) <= 1)%R).
  { rewrite <- exp_0. destruct (Req_dec v 0) as [-> | Hne].
    - rewrite Ropp_0. apply Rle_refl.
    - left. apply exp_increasing. lra. }
  set (e := exp (- v)) in *.
  assert (Hy : (0 < / (1 + e))%R) by (apply Rinv_0_lt_compat; lra).
  assert (Hm : (/ (1 + e) * (1 + e) = 1)%R) by (apply Rinv_l; lra).
  unfold Rdiv. rewrite Rmult_1_l.
  set (y := (/ (1 + e))%R) in *.
  split; nra.
Qed.

Lemma rate_below_1 (p : Q) :
  valid_rate p -> Qeq_bool p 1 = false -> (Q2R p < 1)%R.
Proof.
  unfold valid_rate. intros Hv Hne.
  apply andb_true_iff in Hv. destruct Hv as [_ Hle].
  apply Qle_bool_iff in Hle. apply Qeq_bool_neq in Hne.
  destruct (Qle_lt_or_eq _ _ Hle) as [Hlt | Heq]; [|contradiction].
  apply Qlt_Rlt in Hlt. replace 1%R with (Q2R 1); [exact Hlt|].
  unfold Q2R. cbn. lra.
Qed.

Lemma dropout_nonneg (d : Dropout.t) (x : tensor R) :
  valid_rate (Dropout.p d) ->
  (forall idx, (0 <= get x idx)%R) ->
  forall idx, (0 <= get (Dropout.forward d x) idx)%R.
Proof.
  intros Hv Hx idx. unfold Dropout.forward.
  destruct (Dropout.sample d) as [keep|]; [|apply Hx].
  cbn [get]. destruct (keep idx); [|apply Rle_refl].
  destruct (Qeq_bool (Dropout.p d) 1) eqn:E; [apply Rle_refl|].
  assert (Hp := rate_below_1 _ Hv E).
  apply Rle_mult_inv_pos; [apply Hx | lra].
Qed.

(** What [forward] returns is what the final mapping block computes from
    the output [t1] of its linear layer. *)
Lemma ml4f_forward_output (w : world) (kw : Ml4fTransformer.kwargs) (m : Ml4fTransformer.t)
    (x y out : tensor R) :
  Ml4fTransformer.init w kw = Ok m ->
  Ml4fTransformer.forward m x y = Ok out ->
  exists (dec : tensor R) (t1 : tensor R) (mdrop : Dropout.t),
    mdrop = Dropout.mk (Ml4fTransformer.or_default (Ml4fTransformer.kw_dropout kw) 0.1%Q)
                       (omega w "map.2") /\
    valid_rate (Dropout.p mdrop) /\
    Linear.forward
      (Linear.init w "map.0"
         (Ml4fTransformer.or_default (Ml4fTransformer.kw_pred_window kw) 5)
         (Ml4fTransformer.or_default (Ml4fTransformer.kw_pred_window kw) 5) true)
      dec = Ok t1 /\
    Ml4fTransformer.map m =
      (if (Ml4fTransformer.or_default (Ml4fTransformer.kw_experiment kw) "return"
           =? "return")%string
       then [Sequential.Linear
               (Linear.init w "map.0"
                  (Ml4fTransformer.or_default (Ml4fTransformer.kw_pred_window kw) 5)
                  (Ml4fTransformer.or_default (Ml4fTransformer.kw_pred_window kw) 5) true);
             Sequential.ReLU; Sequential.Dropout mdrop]
       else [Sequential.Linear
               (Linear.init w "map.0"
                  (Ml4fTransformer.or_default (Ml4fTransformer.kw_pred_window kw) 5)
                  (Ml4fTransformer.or_default (Ml4fTransformer.kw_pred_window kw) 5) true);
             Sequential.ReLU; Sequential.Dropout mdrop; Sequential.Sigmoid]) /\
    out =
      (if (Ml4fTransformer.or_default (Ml4fTransformer.kw_experiment kw) "return"
           =? "return")%string
       then Dropout.forward mdrop (map_tensor Sequential.relu t1)
       else map_tensor Sequential.sigmoid
              (Dropout.forward mdrop (map_tensor Sequential.relu t1))).
Proof.
  intros Hinit H.
  destruct (ml4f_init_inv w kw m Hinit)
    as (m5 & enc & dec & ldrop & mdrop & Hm5 & Henc & Hdec & Hp & Edd & EP & Eenc & Edec
        & Elearn & Emap & Emd).
  unfold Ml4fTransformer.forward in H.
  apply bind_Ok_inv in H. destruct H as (b & _ & H).
  apply bind_Ok_inv in H. destruct H as (e1 & _ & H).
  apply bind_Ok_inv in H. destruct H as (e2 & _ & H).
  apply bind_Ok_inv in H. destruct H as (e3 & _ & H).
  apply bind_Ok_inv in H. destruct H as (e4 & _ & H).
  apply bind_Ok_inv in H. destruct H as (d1 & _ & H).
  apply bind_Ok_inv in H. destruct H as (d2 & _ & H).
  apply bind_Ok_inv in H. destruct H as (final & Hmap & H).
  injection H as <-.
  apply within_Ok_inv in Hmap. rewrite Emap in Hmap.
  destruct (Ml4fTransformer.or_default (Ml4fTransformer.kw_experiment kw) "return"
            =? "return")%string;
    cbn [Sequential.forward Sequential.apply] in Hmap;
    apply bind_Ok_inv in Hmap; destruct Hmap as (t1 & Ht1 & Hmap);
    cbn [bind] in Hmap; injection Hmap as <-;
    exists d2, t1, mdrop; (split; [exact Emd|]); (split; [rewrite Emd; exact Hp|]);
    (split; [exact Ht1|]); (split; [exact Emap|]); reflexivity.
Qed.

Lemma linear_forward_inv (l : Linear.t) (x t : tensor R) :
  Linear.forward l x = Ok t ->
  forall idx j,
    get t (idx ++ [j]) =
    (sum_n (Linear.in_features l) (fun c => get x (idx ++ [c]) * Linear.weight l j c)
     + match Linear.bias l with Some b => b j | None => 0 end)%R.
Proof.
  unfold Linear.forward. intros H idx j.
  destruct (rev (shape x)) as [|d rs]; [discriminate|].
  destruct (d =? Linear.in_features l); [|discriminate].
  injection H as <-. cbn [get]. rewrite last_last. unfold set_last.
  rewrite removelast_last. reflexivity.
Qed.

Lemma sum_n_zero (n : nat) (f : nat -> R) :
  (forall c, c < n -> f c = 0%R) -> sum_n n f = 0%R.
Proof.
  intros H. induction n as [|n IH]; cbn; [reflexivity|].
  rewrite IH, H by (intros; try apply H; lia). lra.
Qed.

Lemma mapM_In {A B} (f : A -> result B) (l : list A) (bs : list B) (b : B) :
  mapM f l = Ok bs -> In b bs -> exists a, In a l /\ f a = Ok b.
Proof.
  revert bs. induction l as [|a0 l IH]; intros bs Hm Hin; cbn [mapM] in Hm.
  - injection Hm as <-. destruct Hin.
  - apply bind_Ok_inv in Hm. destruct Hm as (b0 & Hb0 & Hm).
    apply bind_Ok_inv in Hm. destruct Hm as (bs' & Hbs' & Hm).
    injection Hm as <-. destruct Hin as [<- | Hin].
    + exists a0. split; [left; reflexivity | exact Hb0].
    + destruct (IH bs' Hbs' Hin) as (a & Ha & Hf).
      exists a. split; [right; exact Ha | exact Hf].
Qed.

Lemma decoder_layers_mask (w : world) (name : string) (N W heads dm cw pw : nat)
    (first_mask : option (tensor Z)) (p : Q) (m : Decoder.t) (layer : DecoderLayer.t) :
  Decoder.init w name N W heads dm cw pw first_mask p = Ok m ->
  In layer (Decoder.decoderlayers m) ->
  MultiHeadAttention.mask (DecoderLayer.attn_1 layer) = first_mask.
Proof.
  unfold Decoder.init, get_clones. intros Hinit Hin.
  apply bind_Ok_inv in Hinit. destruct Hinit as (ls & Hls & Hinit).
  injection Hinit as <-. cbn [Decoder.decoderlayers] in Hin.
  apply bind_Ok_inv in Hls. destruct Hls as (_ & _ & Hls).
  destruct (mapM_In _ _ _ layer Hls Hin) as (i & _ & Hl).
  unfold DecoderLayer.init in Hl.
  apply bind_Ok_inv in Hl. destruct Hl as (a1 & Ha1 & Hl).
  apply bind_Ok_inv in Hl. destruct Hl as (a2 & _ & Hl).
  apply bind_Ok_inv in Hl. destruct Hl as (f & _ & Hl).
  apply bind_Ok_inv in Hl. destruct Hl as (d1 & _ & Hl).
  apply bind_Ok_inv in Hl. destruct Hl as (d2 & _ & Hl).
  apply bind_Ok_inv in Hl. destruct Hl as (d3 & _ & Hl).
  injection Hl as <-. cbn [DecoderLayer.attn_1].
  destruct (mha_init_inv _ _ _ _ _ _ _ _ _ _ Ha1) as (_ & _ & Em & _).
  exact Em.
Qed.

Lemma decoder_forward_pe_too_long (w : world) (name : string)
    (N W heads dm cw pw : nat) (first_mask : option (tensor Z)) (p : Q) (m : Decoder.t)
    (x enc_out : tensor R) (b S : nat) :
  Decoder.init w name N W heads dm cw pw first_mask p = Ok m ->
  shape x = [b; S; dm] -> W < S -> 2 <= W ->
  Decoder.forward m x enc_out = Raise RuntimeError ["pe"%string; "add"%string].
Proof.
  unfold Decoder.init. intros Hinit Hx HS HW.
  apply bind_Ok_inv in Hinit. destruct Hinit as (ls & _ & Hinit).
  injection Hinit as <-.
  unfold Decoder.forward. cbn [Decoder.pe].
  rewrite (pe_forward_too_long W dm x b S Hx HS HW). reflexivity.
Qed.



Example main_outcome :
  outcome (main zero_world (torch_zeros [4; 15; 5]) (torch_zeros [4; 5; 1])) = Ok [4; 5].
Proof. vm_compute. reflexivity. Qed.

(** ** The final block in floating point *)


Lemma bpow_pos (e : Z) : (0 < IEEE.bpow e)%R.
Proof. unfold IEEE.bpow. apply powerRZ_lt. lra. Qed.

Lemma bpow_add (a b : Z) : IEEE.bpow (a + b) = (IEEE.bpow a * IEEE.bpow b)%R.
Proof. unfold IEEE.bpow. apply powerRZ_add. lra. Qed.

Lemma bpow_neg_inv (e : Z) : (IEEE.bpow (- e) * IEEE.bpow e = 1)%R.
Proof.
  rewrite <- bpow_add. replace (- e + e)%Z with 0%Z by lia. reflexivity.
Qed.

Lemma bpow_IZR (n : Z) : (0 <= n)%Z -> IEEE.bpow n = IZR (2 ^ n).
Proof.
  intros Hn. unfold IEEE.bpow. destruct n as [|p|p]; [reflexivity | | lia].
  cbn [powerRZ]. rewrite pow_IZR. rewrite positive_nat_Z. reflexivity.
Qed.

Lemma bpow_le (a b : Z) : (a <= b)%Z -> (IEEE.bpow a <= IEEE.bpow b)%R.
Proof.
  intros H. replace b with (a + (b - a))%Z by lia. rewrite bpow_add.
  rewrite (bpow_IZR (b - a)) by lia.
  assert (H1 : (1 <= IZR (2 ^ (b - a)))%R).
  { apply IZR_le. assert (0 < 2 ^ (b - a))%Z by (apply Z.pow_pos_nonneg; lia). lia. }
  assert (H2 := bpow_pos a). nra.
Qed.

Lemma bpow_lt (a b : Z) : (a < b)%Z -> (IEEE.bpow a < IEEE.bpow b)%R.
Proof.
  intros H. replace b with (a + (b - a))%Z by lia. rewrite bpow_add.
  rewrite (bpow_IZR (b - a)) by lia.
  assert (H1 : (2 <= IZR (2 ^ (b - a)))%R).
  { apply IZR_le. replace (b - a)%Z with (1 + (b - a - 1))%Z by lia.
    rewrite Z.pow_add_r by lia.
    assert (0 < 2 ^ (b - a - 1))%Z by (apply Z.pow_pos_nonneg; lia). lia. }
  assert (H2 := bpow_pos a). nra.
Qed.

Lemma bpow_lt_inv (a b : Z) : (IEEE.bpow a < IEEE.bpow b)%R -> (a < b)%Z.
Proof.
  intros H. destruct (Z_lt_le_dec a b) as [Hl|Hl]; [exact Hl|].
  apply bpow_le in Hl. lra.
Qed.

Lemma bpow_exp (e : Z) : IEEE.bpow e = Rtrigo_def.exp (IZR e * ln 2).
Proof.
  unfold IEEE.bpow. rewrite powerRZ_Rpower by lra. reflexivity.
Qed.

Lemma ln2_pos : (0 < ln 2)%R.
Proof. assert (H := ln_lt_2). lra. Qed.

(** [mag r] is the binade of [r]. *)
Lemma mag_bounds (r : R) :
  (0 < r)%R -> (IEEE.bpow (IEEE.mag r) <= r < IEEE.bpow (IEEE.mag r + 1))%R.
Proof.
  intros Hr. unfold IEEE.mag. rewrite Rabs_pos_eq by lra.
  set (L := (ln r / ln 2)%R).
  assert (HL := Zfloor_bound L). assert (H2 := ln2_pos).
  assert (Er : r = Rtrigo_def.exp (L * ln 2)).
  { unfold L. replace (ln r / ln 2 * ln 2)%R with (ln r) by (field; lra).
    symmetry. apply exp_ln. exact Hr. }
  rewrite !bpow_exp, plus_IZR.
  assert (Hlo : (Rtrigo_def.exp (IZR (Zfloor L) * ln 2) <= Rtrigo_def.exp (L * ln 2))%R).
  { destruct HL as [[HL|HL] _].
    - left. apply exp_increasing. nra.
    - right. rewrite HL. reflexivity. }
  assert (Hhi : (Rtrigo_def.exp (L * ln 2) < Rtrigo_def.exp ((IZR (Zfloor L) + 1) * ln 2))%R).
  { apply exp_increasing. nra. }
  rewrite <- Er in Hlo, Hhi. split; assumption.
Qed.

Lemma mag_unique (r : R) (e : Z) :
  (IEEE.bpow e <= r < IEEE.bpow (e + 1))%R -> IEEE.mag r = e.
Proof.
  intros [Hl Hu]. assert (Hr : (0 < r)%R) by (assert (H := bpow_pos e); lra).
  destruct (mag_bounds r Hr) as [Ml Mu].
  assert (H1 : (IEEE.mag r < e + 1)%Z) by (apply bpow_lt_inv; lra).
  assert (H2 : (e < IEEE.mag r + 1)%Z) by (apply bpow_lt_inv; lra).
  lia.
Qed.

Lemma ZnearestE_ge (x : R) (a : Z) : (IZR a <= x)%R -> (a <= IEEE.ZnearestE x)%Z.
Proof.
  intros H. assert (Hf := Zfloor_lub a x H). unfold IEEE.ZnearestE.
  destruct (Rlt_dec _ _); [exact Hf|].
  destruct (Rlt_dec _ _); [lia|].
  destruct (Z.even _); lia.
Qed.

Lemma ZnearestE_le (x : R) (b : Z) : (x <= IZR b)%R -> (IEEE.ZnearestE x <= b)%Z.
Proof.
  intros H. assert (Hb := Zfloor_bound x).
  assert (Hf : (Zfloor x <= b)%Z).
  { apply Z.lt_succ_r. apply lt_IZR. rewrite succ_IZR. lra. }
  unfold IEEE.ZnearestE.
  destruct (Rlt_dec (x - IZR (Zfloor x)) (1 / 2)) as [H1|H1]; [exact Hf|].
  assert (Hlt : (Zfloor x < b)%Z) by (apply lt_IZR; lra).
  destruct (Rlt_dec _ _); [lia|].
  destruct (Z.even _); lia.
Qed.

Lemma ZnearestE_IZR (n : Z) : IEEE.ZnearestE (IZR n) = n.
Proof.
  apply Z.le_antisymm; [apply ZnearestE_le | apply ZnearestE_ge]; lra.
Qed.

(** A real at most half a unit above an even integer rounds to it. *)
Lemma ZnearestE_even_below (n : Z) (d : R) :
  Z.even n = true -> (0 <= d <= 1 / 2)%R -> IEEE.ZnearestE (IZR n + d) = n.
Proof.
  intros He Hd. unfold IEEE.ZnearestE.
  assert (Ef : Zfloor (IZR n + d) = n) by (apply Zfloor_eq; lra).
  rewrite Ef.
  destruct (Rlt_dec _ _); [reflexivity|].
  destruct (Rlt_dec _ _) as [H|H]; [lra|].
  rewrite He. reflexivity.
Qed.

Section Rounding.
Variable f : IEEE.format.
Hypothesis Hprec : (1 <= IEEE.prec f)%Z.

Lemma round_0 : IEEE.round f 0 = 0%R.
Proof.
  unfold IEEE.round. rewrite Rmult_0_l.
  change 0%R with (IZR 0) at 1. rewrite ZnearestE_IZR. apply Rmult_0_l.
Qed.

Lemma round_nonneg (r : R) : (0 <= r)%R -> (0 <= IEEE.round f r)%R.
Proof.
  intros Hr. unfold IEEE.round.
  assert (Hb := bpow_pos (IEEE.cexp f r)). assert (Hb' := bpow_pos (- IEEE.cexp f r)).
  assert (Hn : (0 <= IEEE.ZnearestE (r * IEEE.bpow (- IEEE.cexp f r)))%Z).
  { apply ZnearestE_ge. apply Rmult_le_pos; lra. }
  apply IZR_le in Hn. nra.
Qed.

(** Rounding does not cross a power of two from below. *)
Lemma round_le_bpow (r : R) (k : Z) :
  (IEEE.emin f <= k)%Z -> (0 <= r <= IEEE.bpow k)%R -> (IEEE.round f r <= IEEE.bpow k)%R.
Proof.
  intros Hk [Hr0 Hr].
  destruct Hr0 as [Hr0|<-]; [|rewrite round_0; left; apply bpow_pos].
  assert (Hc : (IEEE.cexp f r <= k)%Z).
  { unfold IEEE.cexp.
    assert (Hm : (IEEE.mag r <= k)%Z).
    { destruct (mag_bounds r Hr0) as [Ml _].
      destruct Hr as [Hr|Hr].
      - assert (IEEE.mag r < k)%Z by (apply bpow_lt_inv; lra). lia.
      - destruct (Z_le_gt_dec (IEEE.mag r) k) as [H|H]; [exact H|].
        assert (IEEE.bpow k < IEEE.bpow (IEEE.mag r))%R by (apply bpow_lt; lia). lra. }
    lia. }
  unfold IEEE.round. set (c := IEEE.cexp f r) in *.
  assert (Hn : (IEEE.ZnearestE (r * IEEE.bpow (- c)) <= 2 ^ (k - c))%Z).
  { apply ZnearestE_le. rewrite <- bpow_IZR by lia.
    replace (k - c)%Z with (k + - c)%Z by lia. rewrite bpow_add.
    apply Rmult_le_compat_r; [left; apply bpow_pos | exact Hr]. }
  apply IZR_le in Hn. rewrite <- bpow_IZR in Hn by lia.
  replace (IEEE.bpow k) with (IEEE.bpow (k - c) * IEEE.bpow c)%R
    by (rewrite <- bpow_add; f_equal; lia).
  apply Rmult_le_compat_r; [left; apply bpow_pos | exact Hn].
Qed.

(** Rounding does not cross a power of two from above. *)
Lemma round_ge_bpow (r : R) (k : Z) :
  (IEEE.emin f <= k)%Z -> (IEEE.bpow k <= r)%R -> (IEEE.bpow k <= IEEE.round f r)%R.
Proof.
  intros Hk Hr.
  assert (Hr0 : (0 < r)%R) by (assert (H := bpow_pos k); lra).
  destruct (mag_bounds r Hr0) as [Ml Mu].
  assert (Hm : (k <= IEEE.mag r)%Z).
  { assert (k < IEEE.mag r + 1)%Z by (apply bpow_lt_inv; lra). lia. }
  unfold IEEE.round. set (c := IEEE.cexp f r).
  destruct (Z_le_gt_dec c k) as [Hc|Hc].
  - assert (Hn : (2 ^ (k - c) <= IEEE.ZnearestE (r * IEEE.bpow (- c)))%Z).
    { apply ZnearestE_ge. rewrite <- bpow_IZR by lia.
      replace (k - c)%Z with (k + - c)%Z by lia. rewrite bpow_add.
      apply Rmult_le_compat_r; [left; apply bpow_pos | exact Hr]. }
    apply IZR_le in Hn. rewrite <- bpow_IZR in Hn by lia.
    replace (IEEE.bpow k) with (IEEE.bpow (k - c) * IEEE.bpow c)%R
      by (rewrite <- bpow_add; f_equal; lia).
    apply Rmult_le_compat_r; [left; apply bpow_pos | exact Hn].
  - assert (Ec : c = (IEEE.mag r - (IEEE.prec f - 1))%Z) by (unfold c, IEEE.cexp in *; lia).
    assert (Hn : (2 ^ (IEEE.prec f - 1) <= IEEE.ZnearestE (r * IEEE.bpow (- c)))%Z).
    { apply ZnearestE_ge. rewrite <- bpow_IZR by lia.
      replace (IEEE.prec f - 1)%Z with (IEEE.mag r + - c)%Z by lia. rewrite bpow_add.
      apply Rmult_le_compat_r; [left; apply bpow_pos | exact Ml]. }
    apply IZR_le in Hn. rewrite <- bpow_IZR in Hn by lia.
    apply Rle_trans with (IEEE.bpow (IEEE.mag r)); [apply bpow_le; exact Hm|].
    replace (IEEE.bpow (IEEE.mag r)) with (IEEE.bpow (IEEE.prec f - 1) * IEEE.bpow c)%R
      by (rewrite <- bpow_add; f_equal; lia).
    apply Rmult_le_compat_r; [left; apply bpow_pos | exact Hn].
Qed.
End Rounding.

Lemma bpow_0 : IEEE.bpow 0 = 1%R.
Proof. reflexivity. Qed.

Lemma bpow_1 : IEEE.bpow 1 = 2%R.
Proof. rewrite bpow_IZR by lia. reflexivity. Qed.

Lemma bpow_2 : IEEE.bpow 2 = 4%R.
Proof. rewrite bpow_IZR by lia. reflexivity. Qed.

Lemma bpow_m1 : IEEE.bpow (-1) = (1 / 2)%R.
Proof.
  assert (H := bpow_neg_inv 1). rewrite bpow_1 in H.
  change (- (1))%Z with (-1)%Z in H. lra.
Qed.

(** Rounding keeps a value between two powers of two that bracket it. *)
Lemma round_between (f : IEEE.format) (r : R) (k1 k2 : Z) :
  IEEE.valid f -> (- IEEE.prec f <= k1)%Z -> (- IEEE.prec f <= k2)%Z ->
  (IEEE.bpow k1 <= r <= IEEE.bpow k2)%R ->
  (IEEE.bpow k1 <= IEEE.round f r <= IEEE.bpow k2)%R.
Proof.
  intros (Hp & He & _) H1 H2 [Hl Hu]. split.
  - apply round_ge_bpow; [lia | lia | exact Hl].
  - apply round_le_bpow; [lia | lia |]. assert (H := bpow_pos k1). lra.
Qed.

Lemma round_below (f : IEEE.format) (r : R) (k : Z) :
  IEEE.valid f -> (- IEEE.prec f <= k)%Z ->
  (0 <= r <= IEEE.bpow k)%R -> (0 <= IEEE.round f r <= IEEE.bpow k)%R.
Proof.
  intros (Hp & He & _) H1 Hr. split.
  - apply round_nonneg; lra.
  - apply round_le_bpow; [lia | lia | exact Hr].
Qed.

Lemma round_1 (f : IEEE.format) : IEEE.valid f -> IEEE.round f 1 = 1%R.
Proof.
  intros Hf. assert (Hp : (- IEEE.prec f <= 0)%Z) by (destruct Hf; lia).
  assert (H := round_between f 1 0 0 Hf Hp Hp). rewrite bpow_0 in H.
  assert (H' := H ltac:(lra)). lra.
Qed.

Lemma max_finite_ge_2 (f : IEEE.format) : IEEE.valid f -> (2 <= IEEE.max_finite f)%R.
Proof.
  intros (Hp & _ & He). unfold IEEE.max_finite.
  assert (H1 : (IEEE.bpow 2 <= IEEE.bpow (IEEE.prec f))%R) by (apply bpow_le; exact Hp).
  assert (H2 : (IEEE.bpow (IEEE.emax f) = IEEE.bpow (IEEE.prec f)
                                          * IEEE.bpow (IEEE.emax f - IEEE.prec f))%R).
  { rewrite <- bpow_add. f_equal. lia. }
  assert (H3 : (IEEE.bpow 2 <= IEEE.bpow (IEEE.emax f))%R) by (apply bpow_le; exact He).
  assert (H4 := bpow_pos (IEEE.emax f - IEEE.prec f)).
  rewrite bpow_2 in H1, H3. nra.
Qed.

(** A real between 0 and 2 is rounded to a finite value. *)
Lemma of_real_small (f : IEEE.format) (r : R) :
  IEEE.valid f -> (0 <= IEEE.round f r <= 2)%R ->
  IEEE.of_real f r = IEEE.Fin (IEEE.round f r).
Proof.
  intros Hf Hv. unfold IEEE.of_real. cbv zeta.
  destruct (Rlt_dec _ _) as [H|H]; [|reflexivity].
  rewrite Rabs_pos_eq in H by lra.
  assert (Hm := max_finite_ge_2 f Hf). lra.
Qed.

Lemma of_real_nonneg (f : IEEE.format) (r : R) :
  IEEE.valid f -> (0 <= r)%R -> IEEE.nonnegative (IEEE.of_real f r).
Proof.
  intros (Hp & _) Hr. unfold IEEE.of_real. cbv zeta.
  assert (Hv : (0 <= IEEE.round f r)%R) by (apply round_nonneg; exact Hr).
  destruct (Rlt_dec _ _) as [H|H].
  - left. unfold IEEE.negative. destruct (Rlt_dec _ _) as [H0|H0]; [lra | reflexivity].
  - right. eexists. split; [reflexivity | exact Hv].
Qed.

Lemma of_real_1 (f : IEEE.format) : IEEE.valid f -> IEEE.of_real f 1 = IEEE.Fin 1.
Proof.
  intros Hf. rewrite of_real_small; rewrite ?round_1 by exact Hf; [reflexivity | exact Hf | lra].
Qed.

(** The reciprocal of [1 + y] with [0 <= y <= 1], as computed. *)
Lemma recip_range (f : IEEE.format) (y : R) :
  IEEE.valid f -> (0 <= y <= 1)%R ->
  IEEE.in_range (1 / 2) 1 (IEEE.div f (IEEE.Fin 1) (IEEE.add f (IEEE.Fin 1) (IEEE.Fin y))).
Proof.
  intros Hf Hy. assert (Hf' := Hf). destruct Hf' as (Hp & He & Hx).
  cbn [IEEE.add].
  assert (Hz : (1 <= IEEE.round f (1 + y) <= 2)%R).
  { assert (H := round_between f (1 + y) 0 1 Hf ltac:(lia) ltac:(lia)).
    rewrite bpow_0, bpow_1 in H. apply H. lra. }
  rewrite of_real_small by (try exact Hf; lra).
  set (z := IEEE.round f (1 + y)) in *.
  cbn [IEEE.div]. destruct (Req_EM_T z 0) as [E|_]; [lra|].
  assert (Hq : (1 / 2 <= 1 / z <= 1)%R).
  { split.
    - apply Rmult_le_reg_r with z; [lra|]. field_simplify; lra.
    - apply Rmult_le_reg_r with z; [lra|]. field_simplify; lra. }
  assert (Hr : (1 / 2 <= IEEE.round f (1 / z) <= 1)%R).
  { assert (H := round_between f (1 / z) (-1) 0 Hf ltac:(lia) ltac:(lia)).
    rewrite bpow_0, bpow_m1 in H. apply H. exact Hq. }
  rewrite of_real_small by (try exact Hf; lra).
  eexists. split; [reflexivity | exact Hr].
Qed.

Lemma exp_rounded_range (f : IEEE.format) (r : R) :
  IEEE.valid f -> (0 <= r)%R ->
  exists y, IEEE.exp f (IEEE.Fin (- r)) = IEEE.Fin y /\ (0 <= y <= 1)%R.
Proof.
  intros Hf Hr. assert (Hf' := Hf). destruct Hf' as (Hp & He & Hx).
  cbn [IEEE.exp].
  assert (He1 : (0 < Rtrigo_def.exp (- r) <= 1)%R).
  { split; [apply exp_pos|]. rewrite <- exp_0.
    destruct Hr as [Hr|<-]; [left; apply exp_increasing; lra | right; f_equal; lra]. }
  assert (Hy : (0 <= IEEE.round f (Rtrigo_def.exp (- r)) <= 1)%R).
  { assert (H := round_below f (Rtrigo_def.exp (- r)) 0 Hf ltac:(lia)).
    rewrite bpow_0 in H. apply H. lra. }
  rewrite of_real_small by (try exact Hf; lra).
  eexists. split; [reflexivity | exact Hy].
Qed.

(** The sigmoid of a nonnegative value is a number between 1/2 and 1, both
    included; the sigmoid of NaN is NaN. *)
Lemma sigmoid_rounded_range (f : IEEE.format) (x : IEEE.t) :
  IEEE.valid f -> IEEE.nonnegative x -> IEEE.in_range (1 / 2) 1 (IEEE.sigmoid f x).
Proof.
  intros Hf [->|(r & -> & Hr)]; unfold IEEE.sigmoid; cbn [IEEE.neg negb].
  - cbn [IEEE.exp]. apply recip_range; [exact Hf | lra].
  - destruct (exp_rounded_range f r Hf Hr) as (y & -> & Hy).
    apply recip_range; assumption.
Qed.

(** A value whose exponential is at most half a unit in the last place of 1
    has the sigmoid 1 exactly. *)
Lemma sigmoid_saturates (f : IEEE.format) (r : R) :
  IEEE.valid f -> (0 <= r)%R ->
  (Rtrigo_def.exp (- r) <= IEEE.bpow (- IEEE.prec f))%R ->
  IEEE.sigmoid f (IEEE.Fin r) = IEEE.Fin 1.
Proof.
  intros Hf Hr Hexp. assert (Hf' := Hf). destruct Hf' as (Hp & He & Hx).
  unfold IEEE.sigmoid. cbn [IEEE.neg IEEE.exp].
  assert (He0 := exp_pos (- r)).
  assert (Hy : (0 <= IEEE.round f (Rtrigo_def.exp (- r)) <= IEEE.bpow (- IEEE.prec f))%R).
  { apply round_below; [exact Hf | lia | lra]. }
  assert (Hb : (IEEE.bpow (- IEEE.prec f) <= 1 / 2)%R).
  { rewrite <- bpow_m1. apply bpow_le. lia. }
  rewrite of_real_small by (try exact Hf; lra).
  set (y := IEEE.round f (Rtrigo_def.exp (- r))) in *.
  cbn [IEEE.add].
  assert (E1 : IEEE.round f (1 + y) = 1%R).
  { unfold IEEE.round.
    assert (Em : IEEE.mag (1 + y) = 0%Z).
    { apply mag_unique. rewrite bpow_0. replace (0 + 1)%Z with 1%Z by lia.
      rewrite bpow_1. lra. }
    assert (Ec : IEEE.cexp f (1 + y) = (1 - IEEE.prec f)%Z).
    { unfold IEEE.cexp. rewrite Em. lia. }
    rewrite Ec.
    replace (- (1 - IEEE.prec f))%Z with (IEEE.prec f - 1)%Z by lia.
    replace ((1 + y) * IEEE.bpow (IEEE.prec f - 1))%R
      with (IZR (2 ^ (IEEE.prec f - 1)) + y * IEEE.bpow (IEEE.prec f - 1))%R
      by (rewrite <- bpow_IZR by lia; ring).
    rewrite ZnearestE_even_below.
    - rewrite <- bpow_IZR by lia. rewrite <- bpow_add.
      replace (IEEE.prec f - 1 + (1 - IEEE.prec f))%Z with 0%Z by lia. reflexivity.
    - replace (IEEE.prec f - 1)%Z with (1 + (IEEE.prec f - 2))%Z by lia.
      rewrite Z.pow_add_r by lia. rewrite Z.even_mul. reflexivity.
    - assert (Hbp := bpow_pos (IEEE.prec f - 1)). split; [nra|].
      apply Rle_trans with (IEEE.bpow (- IEEE.prec f) * IEEE.bpow (IEEE.prec f - 1))%R;
        [apply Rmult_le_compat_r; lra|].
      rewrite <- bpow_add.
      replace (- IEEE.prec f + (IEEE.prec f - 1))%Z with (-1)%Z by lia.
      rewrite bpow_m1. lra. }
  rewrite of_real_small by (try exact Hf; rewrite E1; lra).
  rewrite E1. cbn [IEEE.div]. destruct (Req_EM_T 1 0) as [E|_]; [lra|].
  replace (1 / 1)%R with 1%R by field. apply of_real_1. exact Hf.
Qed.

Lemma exp_nat_mult (n : nat) (x : R) :
  Rtrigo_def.exp (INR n * x) = (Rtrigo_def.exp x ^ n)%R.
Proof.
  induction n as [|n IH]; [rewrite Rmult_0_l; apply exp_0|].
  rewrite S_INR, Rmult_plus_distr_r, Rmult_1_l, exp_plus, IH. cbn [pow]. ring.
Qed.

Lemma exp_double (t a : R) :
  (0 <= a)%R -> (a <= Rtrigo_def.exp t)%R -> (a * a <= Rtrigo_def.exp (2 * t))%R.
Proof.
  intros Ha H. replace (2 * t)%R with (t + t)%R by ring. rewrite exp_plus. nra.
Qed.

(** A lower bound of [e], from [exp(1/1024) > 1 + 1/1024] squared ten
    times. *)
Lemma exp_1_lower : (27 / 10 <= Rtrigo_def.exp 1)%R.
Proof.
  assert (h0 : (1025 / 1024 <= Rtrigo_def.exp (1 / 1024))%R).
  { assert (H := exp_ineq1 (1 / 1024) ltac:(lra)). lra. }
  assert (h1 : (10019540 / 10000000 <= Rtrigo_def.exp (2 * (1 / 1024)))%R).
  { apply Rle_trans with ((1025 / 1024) * (1025 / 1024))%R; [lra|].
    apply exp_double; [lra | exact h0]. }
  assert (h2 : (10039118 / 10000000 <= Rtrigo_def.exp (2 * (2 * (1 / 1024))))%R).
  { apply Rle_trans with ((10019540 / 10000000) * (10019540 / 10000000))%R; [lra|].
    apply exp_double; [lra | exact h1]. }
  assert (h3 : (10078389 / 10000000 <= Rtrigo_def.exp (2 * (2 * (2 * (1 / 1024)))))%R).
  { apply Rle_trans with ((10039118 / 10000000) * (10039118 / 10000000))%R; [lra|].
    apply exp_double; [lra | exact h2]. }
  assert (h4 : (10157392 / 10000000 <= Rtrigo_def.exp (2 * (2 * (2 * (2 * (1 / 1024))))))%R).
  { apply Rle_trans with ((10078389 / 10000000) * (10078389 / 10000000))%R; [lra|].
    apply exp_double; [lra | exact h3]. }
  assert (h5 : (10317261 / 10000000 <= Rtrigo_def.exp (2 * (2 * (2 * (2 * (2 * (1 / 1024)))))))%R).
  { apply Rle_trans with ((10157392 / 10000000) * (10157392 / 10000000))%R; [lra|].
    apply exp_double; [lra | exact h4]. }
  assert (h6 : (10644587 / 10000000 <= Rtrigo_def.exp (2 * (2 * (2 * (2 * (2 * (2 * (1 / 1024))))))))%R).
  { apply Rle_trans with ((10317261 / 10000000) * (10317261 / 10000000))%R; [lra|].
    apply exp_double; [lra | exact h5]. }
  assert (h7 : (11330723 / 10000000 <= Rtrigo_def.exp (2 * (2 * (2 * (2 * (2 * (2 * (2 * (1 / 1024)))))))))%R).
  { apply Rle_trans with ((10644587 / 10000000) * (10644587 / 10000000))%R; [lra|].
    apply exp_double; [lra | exact h6]. }
  assert (h8 : (12838528 / 10000000 <= Rtrigo_def.exp (2 * (2 * (2 * (2 * (2 * (2 * (2 * (2 * (1 / 1024))))))))))%R).
  { apply Rle_trans with ((11330723 / 10000000) * (11330723 / 10000000))%R; [lra|].
    apply exp_double; [lra | exact h7]. }
  assert (h9 : (16482780 / 10000000 <= Rtrigo_def.exp (2 * (2 * (2 * (2 * (2 * (2 * (2 * (2 * (2 * (1 / 1024)))))))))))%R).
  { apply Rle_trans with ((12838528 / 10000000) * (12838528 / 10000000))%R; [lra|].
    apply exp_double; [lra | exact h8]. }
  assert (h10 : (27 / 10 <= Rtrigo_def.exp (2 * (2 * (2 * (2 * (2 * (2 * (2 * (2 * (2 * (2 * (1 / 1024))))))))))))%R).
  { apply Rle_trans with ((16482780 / 10000000) * (16482780 / 10000000))%R; [lra|].
    apply exp_double; [lra | exact h9]. }
  replace 1%R with (2 * (2 * (2 * (2 * (2 * (2 * (2 * (2 * (2 * (2 * (1 / 1024)))))))))))%R by field.
  exact h10.
Qed.

(** [exp n >= 2^k] from [(27/10)^n >= 2^k]. *)
Lemma exp_nat_lower (n : nat) (k : Z) :
  (2 ^ k * 10 ^ Z.of_nat n <= 27 ^ Z.of_nat n)%Z ->
  (IZR (2 ^ k) <= Rtrigo_def.exp (INR n))%R.
Proof.
  intros H. replace (INR n) with (INR n * 1)%R by ring. rewrite exp_nat_mult.
  apply Rle_trans with ((27 / 10) ^ n)%R.
  - unfold Rdiv. rewrite Rpow_mult_distr, pow_inv, !pow_IZR.
    apply Rmult_le_reg_r with (IZR (10 ^ Z.of_nat n)).
    + apply IZR_lt. apply Z.pow_pos_nonneg; lia.
    + rewrite Rmult_assoc, Rinv_l, Rmult_1_r by (apply not_0_IZR, Z.pow_nonzero; lia).
      rewrite <- mult_IZR. apply IZR_le. exact H.
  - apply pow_incr. split; [lra | exact exp_1_lower].
Qed.

Lemma exp_neg_upper (n : nat) (k : Z) :
  (0 <= k)%Z -> (2 ^ k * 10 ^ Z.of_nat n <= 27 ^ Z.of_nat n)%Z ->
  (Rtrigo_def.exp (- INR n) <= IEEE.bpow (- k))%R.
Proof.
  intros Hk H. rewrite exp_Ropp. unfold IEEE.bpow. rewrite powerRZ_neg'.
  apply Rinv_le_contravar; [apply powerRZ_lt; lra|].
  change (powerRZ 2 k) with (IEEE.bpow k). rewrite bpow_IZR by exact Hk.
  apply exp_nat_lower. exact H.
Qed.

(** [exp(-17) <= 2^-24] *)
Lemma exp_17 : (Rtrigo_def.exp (Ropp 17) <= IEEE.bpow (- (24)))%R.
Proof.
  replace 17%R with (INR 17) by (rewrite INR_IZR_INZ; reflexivity).
  apply exp_neg_upper; [lia | vm_compute; discriminate].
Qed.

(** [exp(-37) <= 2^-53] *)
Lemma exp_37 : (Rtrigo_def.exp (Ropp 37) <= IEEE.bpow (- (53)))%R.
Proof.
  replace 37%R with (INR 37) by (rewrite INR_IZR_INZ; reflexivity).
  apply exp_neg_upper; [lia | vm_compute; discriminate].
Qed.

Lemma binary32_valid : IEEE.valid IEEE.binary32.
Proof. unfold IEEE.valid. cbn. lia. Qed.

Lemma binary64_valid : IEEE.valid IEEE.binary64.
Proof. unfold IEEE.valid. cbn. lia. Qed.

Lemma sigmoid32_17 : IEEE.sigmoid IEEE.binary32 (IEEE.Fin 17) = IEEE.Fin 1.
Proof.
  apply sigmoid_saturates; [exact binary32_valid | lra | exact exp_17].
Qed.

Lemma sigmoid64_37 : IEEE.sigmoid IEEE.binary64 (IEEE.Fin 37) = IEEE.Fin 1.
Proof.
  apply sigmoid_saturates; [exact binary64_valid | lra | exact exp_37].
Qed.

Lemma sigmoid_rounded_nan (f : IEEE.format) : IEEE.sigmoid f IEEE.NaN = IEEE.NaN.
Proof. reflexivity. Qed.

Lemma relu_rounded (x : IEEE.t) :
  IEEE.relu x = IEEE.NaN \/ IEEE.nonnegative (IEEE.relu x).
Proof.
  destruct x as [|[|]|r]; cbn [IEEE.relu].
  - left. reflexivity.
  - right. right. exists 0%R. split; [reflexivity | lra].
  - right. left. reflexivity.
  - right. right. eexists. split; [reflexivity | apply Rmax_l].
Qed.

Lemma mul_rounded_nonneg (f : IEEE.format) (x : IEEE.t) (s : R) :
  IEEE.valid f -> (0 <= s)%R ->
  x = IEEE.NaN \/ IEEE.nonnegative x ->
  IEEE.mul f x (IEEE.Fin s) = IEEE.NaN \/ IEEE.nonnegative (IEEE.mul f x (IEEE.Fin s)).
Proof.
  intros Hf Hs [->|[->|(r & -> & Hr)]]; cbn [IEEE.mul].
  - left. reflexivity.
  - destruct (Req_EM_T s 0); [left; reflexivity|].
    right. left. unfold IEEE.negative.
    destruct (Rlt_dec s 0); [lra | reflexivity].
  - right. apply of_real_nonneg; [exact Hf|]. apply Rmult_le_pos; assumption.
Qed.

Lemma dropout_rounded (f : IEEE.format) (scale : R) (d : Dropout.t) (idx : list nat)
    (x : IEEE.t) :
  IEEE.valid f -> (0 <= scale)%R ->
  x = IEEE.NaN \/ IEEE.nonnegative x ->
  Rounded.dropout f scale d idx x = IEEE.NaN \/
  IEEE.nonnegative (Rounded.dropout f scale d idx x).
Proof.
  intros Hf Hs Hx. unfold Rounded.dropout.
  destruct (Dropout.sample d) as [keep|]; [|exact Hx].
  destruct (keep idx && negb (Qeq_bool (Dropout.p d) 1)).
  - apply mul_rounded_nonneg; assumption.
  - apply mul_rounded_nonneg; [exact Hf | lra | exact Hx].
Qed.

Lemma dropout_rounded_nan (f : IEEE.format) (scale : R) (d : Dropout.t) (idx : list nat) :
  Rounded.dropout f scale d idx IEEE.NaN = IEEE.NaN.
Proof.
  unfold Rounded.dropout. destruct (Dropout.sample d) as [keep|]; [|reflexivity].
  destruct (keep idx && negb (Qeq_bool (Dropout.p d) 1)); reflexivity.
Qed.

(** What the layers after the linear layer of the final block make of an
    entry [pre] of its result, whatever it is. *)
Lemma map_rounded (w : world) (kw : Ml4fTransformer.kwargs) (m : Ml4fTransformer.t) :
  Ml4fTransformer.init w kw = Ok m ->
  forall (f : IEEE.format) (scale : R) (idx : list nat) (pre : IEEE.t),
    IEEE.valid f -> (0 <= scale)%R ->
    exists o,
      Rounded.forward f scale (tl (Ml4fTransformer.map m)) idx pre = Some o /\
      (Ml4fTransformer.or_default (Ml4fTransformer.kw_experiment kw) "return"%string
       = "return"%string ->
       o = IEEE.NaN \/ IEEE.nonnegative o) /\
      (Ml4fTransformer.or_default (Ml4fTransformer.kw_experiment kw) "return"%string
       <> "return"%string ->
       o = IEEE.NaN \/ IEEE.in_range (1 / 2) 1 o) /\
      (pre = IEEE.NaN -> o = IEEE.NaN).
Proof.
  intros Hinit f scale idx pre Hf Hs.
  destruct (ml4f_init_inv w kw m Hinit)
    as (m5 & enc & dec & ldrop & mdrop & _ & _ & _ & _ & _ & _ & _ & _ & _ & Emap & _).
  rewrite Emap.
  assert (Hd := dropout_rounded f scale mdrop idx (IEEE.relu pre) Hf Hs (relu_rounded pre)).
  destruct (Ml4fTransformer.or_default (Ml4fTransformer.kw_experiment kw) "return"
            =? "return")%string eqn:Ev;
    cbn [tl Rounded.forward Rounded.apply]; eexists; (split; [reflexivity|]);
    (split; [|split]).
  - intros _. exact Hd.
  - intros Hv. apply String.eqb_eq in Ev. contradiction.
  - intros ->. apply dropout_rounded_nan.
  - intros Hv. apply String.eqb_neq in Ev. contradiction.
  - intros _. destruct Hd as [->|Hd]; [left; reflexivity|].
    right. apply sigmoid_rounded_range; assumption.
  - intros ->. cbn [IEEE.relu]. rewrite dropout_rounded_nan. reflexivity.
Qed.

(** With every weight of the final linear layer at 0 and its bias at [c],
    the entries of its result are [c]; when the sigmoid of [c] rounds to 1,
    so does the output. *)
Lemma map_saturated (c : R) (f : IEEE.format) :
  (0 <= c)%R -> IEEE.sigmoid f (IEEE.Fin c) = IEEE.Fin 1 ->
  exists m out l d,
    Ml4fTransformer.init (bias_world c) (without_mask "volatility" 5 1 4 4 0.1 15 5 15)
      = Ok m /\
    Ml4fTransformer.forward m (torch_zeros [4; 15; 5]) (torch_zeros [4; 5; 1]) = Ok out /\
    Ml4fTransformer.map m =
      [Sequential.Linear l; Sequential.ReLU; Sequential.Dropout d; Sequential.Sigmoid] /\
    (forall j k, Linear.weight l j k = 0%R) /\
    (exists b, Linear.bias l = Some b /\ forall j, b j = c) /\
    forall scale idx,
      Rounded.forward f scale (tl (Ml4fTransformer.map m)) idx (IEEE.Fin c)
      = Some (IEEE.Fin 1).
Proof.
  intros Hc Hsig.
  set (kw := without_mask "volatility" 5 1 4 4 0.1 15 5 15).
  destruct (ml4f_init_ok (bias_world c) kw eq_refl) as (m & Hm).
  destruct (ml4f_forward_shape (bias_world c) kw m (torch_zeros [4; 15; 5])
              (torch_zeros [4; 5; 1]) 4 Hm eq_refl eq_refl eq_refl
              ltac:(cbn; lia) ltac:(cbn; lia) ltac:(lia) ltac:(cbn; lia) ltac:(cbn; lia)
              ltac:(cbn; lia)
              ltac:(intros _ m5 M H5 HM; cbn in HM; injection HM as <-;
                    destruct (create_mask_spec 5 5) as (m5' & E5 & S5 & _);
                    replace m5 with m5' by congruence; exact S5))
    as (out & E & _).
  destruct (ml4f_init_inv (bias_world c) kw m Hm)
    as (m5 & enc & dec & ldrop & mdrop & _ & _ & _ & _ & _ & _ & _ & _ & _ & Emap & Emd).
  assert (Ev : (Ml4fTransformer.or_default (Ml4fTransformer.kw_experiment kw) "return"
                =? "return")%string = false) by reflexivity.
  rewrite Ev in Emap.
  exists m, out. eexists. exists mdrop.
  split; [exact Hm|]. split; [exact E|]. split; [exact Emap|].
  split; [intros j k; reflexivity|].
  split; [eexists; split; [reflexivity | intros j; reflexivity]|].
  intros scale idx. rewrite Emap, Emd.
  cbn [tl Rounded.forward Rounded.apply IEEE.relu].
  rewrite Rmax_right by exact Hc.
  unfold Rounded.dropout. cbn [Dropout.sample]. cbn [omega bias_world].
  rewrite Hsig. reflexivity.
Qed.

(** * The claims *)

(** C3: the mask [create_mask P P] has shape [[1; P; P]] and, at every row
    [i], its nonzero entries are exactly those at the key columns [0..i] and
    its zero entries exactly those at the columns [i+1..P-1]; for [P = 5] it
    is the lower-triangular pattern with the diagonal. *)
Theorem create_mask_causal (P : nat) :
  exists m,
    create_mask P P = Ok m /\ shape m = [1; P; P] /\
    (forall i j, i < P -> j < P -> (get m [0; i; j] <> 0%Z <-> j <= i)) /\
    (forall i j, i < P -> j < P -> (get m [0; i; j] = 0%Z <-> i < j)) /\
    (P = 5 ->
     List.map (fun i => List.map (fun j => get m [0; i; j]) (seq 0 5)) (seq 0 5) =
     [ [1; 0; 0; 0; 0]; [1; 1; 0; 0; 0]; [1; 1; 1; 0; 0];
       [1; 1; 1; 1; 0]; [1; 1; 1; 1; 1] ]%Z).
Proof.
  destruct (create_mask_spec P P) as (m & E & S & G).
  exists m. split; [exact E|]. split; [exact S|].
  split; [|split].
  - intros i j _ _. rewrite G. destruct (j <=? i) eqn:Eji.
    + apply Nat.leb_le in Eji. split; [intros _; exact Eji | intros _; discriminate].
    + apply Nat.leb_gt in Eji. split; [intros H; contradiction H; reflexivity | lia].
  - intros i j _ _. rewrite G. destruct (j <=? i) eqn:Eji.
    + apply Nat.leb_le in Eji. split; [discriminate | lia].
    + apply Nat.leb_gt in Eji. split; [intros _; exact Eji | reflexivity].
  - intros _. cbn [List.map seq]. rewrite !G. reflexivity.
Qed.

Lemma create_mask_causal_witness :
  exists m,
    create_mask 5 5 = Ok m /\
    get m [0; 2; 1] <> 0%Z /\ get m [0; 2; 2] <> 0%Z /\ get m [0; 2; 3] = 0%Z.
Proof.
  destruct (create_mask_causal 5) as (m & E & _ & Hnz & Hz & _).
  exists m. split; [exact E|].
  split; [apply Hnz; lia|]. split; [apply Hnz; lia | apply Hz; lia].
Defined.

(** C4 (as amended): [create_mask pred_dim context_dim] returns a tensor of
    shape [[1; context_dim; pred_dim]] whose entries are 0 or 1. *)
Theorem create_mask_shape (pred_dim context_dim : nat) :
  exists m,
    create_mask pred_dim context_dim = Ok m /\
    shape m = [1; context_dim; pred_dim] /\
    forall idx, get m idx = 0%Z \/ get m idx = 1%Z.
Proof.
  destruct (create_mask_spec pred_dim context_dim) as (m & E & S & _).
  exists m. split; [exact E|]. split; [exact S|].
  intros idx. revert E. unfold create_mask, getitem, transpose12, from_numpy, torch_Variable. cbn.
  intros E. injection E as <-. cbn [get].
  destruct (row_col _) as [i j].
  destruct (Z.of_nat i + 1 <=? Z.of_nat j)%Z; [right | left]; reflexivity.
Qed.

(** C4, counterexample: for [pred_dim = 2] and [context_dim = 3] the shape is
    [[1; 3; 2]], not [[1; 2; 2]]. *)
Lemma create_mask_shape_counterexample :
  exists m, create_mask 2 3 = Ok m /\ shape m = [1; 3; 2] /\ shape m <> [1; 2; 2].
Proof.
  destruct (create_mask_spec 2 3) as (m & E & S & _).
  exists m. split; [exact E|]. split; [exact S|]. rewrite S. discriminate.
Qed.

(** C6: the constructor of [PositionalEncoding] builds a table of shape
    [[1; W; D]] whose entry at position [pos] and feature index [i] is
    [sin (pos / 10000^(2i/D))] for even [i] and [cos (pos / 10000^(2(i+1)/D))]
    for odd [i]; [forward] on an input of length [L <= W] returns the input
    plus the first [L] rows of the table, at every batch element, so that an
    all-zero input yields the first [L] rows of the table. *)
Theorem positional_encoding_table_forward (W D : nat) :
  let m := PositionalEncoding.init W D in
  shape (PositionalEncoding.pe m) = [1; W; D] /\
  (forall pos i, pos < W -> i < D ->
     get (PositionalEncoding.pe m) [0; pos; i] =
     if Nat.even i
     then sin (INR pos / Rpower 10000 (INR (2 * i) / INR D))
     else cos (INR pos / Rpower 10000 (INR (2 * (i + 1)) / INR D))) /\
  (forall (x : tensor R) (b L : nat),
     shape x = [b; L; D] -> L <= W ->
     exists out,
       PositionalEncoding.forward m x = Ok out /\
       shape out = [b; L; D] /\
       (forall bi l i, bi < b -> l < L -> i < D ->
          get out [bi; l; i] = Rplus (get x [bi; l; i]) (get (PositionalEncoding.pe m) [0; l; i])) /\
       ((forall bi l i, bi < b -> l < L -> i < D -> get x [bi; l; i] = 0%R) ->
        forall bi l i, bi < b -> l < L -> i < D ->
          get out [bi; l; i] = get (PositionalEncoding.pe m) [0; l; i])).
Proof.
  cbv zeta. split; [apply pe_table_shape|]. split.
  - intros pos i Hpos Hi. rewrite pe_table_get.
    apply Nat.ltb_lt in Hpos, Hi. rewrite Hpos, Hi. reflexivity.
  - intros x b L Hx HL.
    destruct (pe_forward_ok W D x b L Hx HL) as (out & E & S & G).
    exists out. split; [exact E|]. split; [exact S|]. split; [exact G|].
    intros Hzero bi l i Hbi Hl Hi.
    rewrite G, Hzero by assumption. apply Rplus_0_l.
Qed.

Lemma positional_encoding_table_forward_witness :
  get (PositionalEncoding.pe (PositionalEncoding.init 15 5)) [0; 3; 2] =
    sin (INR 3 / Rpower 10000 (INR (2 * 2) / INR 5)) /\
  exists out,
    PositionalEncoding.forward (PositionalEncoding.init 15 5) (torch_zeros [1; 4; 5]) = Ok out /\
    get out [0; 3; 1] = get (PositionalEncoding.pe (PositionalEncoding.init 15 5)) [0; 3; 1].
Proof.
  destruct (positional_encoding_table_forward 15 5) as (_ & Htab & Hfwd).
  split.
  - apply (Htab 3 2); lia.
  - destruct (Hfwd (torch_zeros [1; 4; 5]) 1 4 eq_refl ltac:(lia))
      as (out & E & _ & _ & Hz).
    exists out. split; [exact E|].
    apply Hz; try lia. intros; reflexivity.
Defined.

(** C8 (as amended): when the length [L] of the input exceeds the window
    [W], the slice of the table is clamped to [W] rows without an error; for
    [W >= 2] the addition then raises a shape mismatch ([RuntimeError]), and
    for [W = 1] the call succeeds, the single row of the table being added
    at every position. *)
Theorem positional_encoding_too_long (W D : nat) (x : tensor R) (b L : nat) :
  shape x = [b; L; D] -> W < L ->
  (2 <= W ->
   PositionalEncoding.forward (PositionalEncoding.init W D) x =
   Raise RuntimeError ["add"%string]) /\
  (W = 1 ->
   exists out,
     PositionalEncoding.forward (PositionalEncoding.init W D) x = Ok out /\
     shape out = [b; L; D] /\
     forall bi l i, bi < b -> l < L -> i < D ->
       get out [bi; l; i] =
       Rplus (get x [bi; l; i]) (get (PositionalEncoding.pe (PositionalEncoding.init W D)) [0; 0; i])).
Proof.
  intros Hx HL. split.
  - intros HW. exact (pe_forward_too_long W D x b L Hx HL HW).
  - intros ->. exact (pe_forward_single_row D x b L Hx).
Qed.

Lemma positional_encoding_too_long_witness :
  PositionalEncoding.forward (PositionalEncoding.init 15 5) (torch_zeros [4; 16; 5]) =
  Raise RuntimeError ["add"%string].
Proof.
  apply (positional_encoding_too_long 15 5 (torch_zeros [4; 16; 5]) 4 16 eq_refl);
    lia.
Defined.

(** C8, counterexample: with a window of 1 and an input of length 2 the call
    returns a tensor: no error is raised. *)
Lemma positional_encoding_too_long_counterexample :
  exists out,
    PositionalEncoding.forward (PositionalEncoding.init 1 1) (torch_zeros [1; 2; 1]) = Ok out /\
    shape out = [1; 2; 1].
Proof.
  destruct (pe_forward_single_row 1 (torch_zeros [1; 2; 1]) 1 2 eq_refl)
    as (out & E & S & _).
  exists out. split; [exact E | exact S].
Qed.

(** C2: on query, key and value tensors of shapes [[b; Sq; h; d]],
    [[b; Sk; h; d]] and [[b; Sk; h; d]], [scaled_dot_product_attention]
    returns a tensor of shape [[b; Sq; h * d]] whose entry for batch element
    [bi], query [i], head [hi] and feature [t] is the reference attention of
    that head: scores [Q K^T] without scaling, [-1e9] where the mask is 0,
    softmax over the keys, times [V].  For one batch element and one head
    the output is the reference single-head attention of the inputs. *)
Theorem scaled_dot_product_attention_reference
    (k q v : tensor R) (mask : option (tensor Z)) (b Sq Sk h d : nat) :
  shape q = [b; Sq; h; d] -> shape k = [b; Sk; h; d] -> shape v = [b; Sk; h; d] ->
  0 < b -> 0 < h -> 0 < d ->
  (forall M, mask = Some M -> shape M = [1; Sq; Sk]) ->
  exists out,
    scaled_dot_product_attention k q v mask = Ok out /\
    shape out = [b; Sq; h * d] /\
    (forall bi i hi t, bi < b -> i < Sq -> hi < h -> t < d ->
       get out [bi; i; hi * d + t] =
       reference_attention (option_map mask_entry mask)
         (fun i c => get q [bi; i; hi; c])
         (fun j c => get k [bi; j; hi; c])
         (fun j c => get v [bi; j; hi; c])
         Sk d i t) /\
    (b = 1 -> h = 1 ->
     forall i t, i < Sq -> t < d ->
       get out [0; i; t] =
       reference_attention (option_map mask_entry mask)
         (fun i c => get q [0; i; 0; c])
         (fun j c => get k [0; j; 0; c])
         (fun j c => get v [0; j; 0; c])
         Sk d i t).
Proof.
  intros Hq Hk Hv Hb Hh Hd Hmask.
  destruct (scaled_dot_product_attention_spec k q v mask b Sq Sk h d
              Hq Hk Hv Hb Hh Hd Hmask) as (out & E & S & G).
  exists out. split; [exact E|]. split; [exact S|]. split; [exact G|].
  intros -> -> i t Hi Ht. apply (G 0 i 0 t); lia.
Qed.

Lemma scaled_dot_product_attention_reference_witness :
  exists out,
    scaled_dot_product_attention (torch_zeros [1; 3; 1; 2]) (torch_zeros [1; 2; 1; 2])
      (torch_zeros [1; 3; 1; 2]) None = Ok out /\
    shape out = [1; 2; 2].
Proof.
  destruct (scaled_dot_product_attention_reference
              (torch_zeros [1; 3; 1; 2]) (torch_zeros [1; 2; 1; 2])
              (torch_zeros [1; 3; 1; 2]) None 1 2 3 1 2
              eq_refl eq_refl eq_refl ltac:(lia) ltac:(lia) ltac:(lia)
              ltac:(discriminate)) as (out & E & S & _).
  exists out. split; [exact E | exact S].
Defined.

(** C7 (as amended): in a forward pass of [MultiHeadAttention], [q], [k] and
    [v] are each projected by a linear map without bias to [heads * d_model]
    columns, the attention function is applied per head with the mask given
    at construction, and the heads are unified by a linear map with bias.
    The module applies no dropout itself: its output is the same whatever
    the dropout rate, the mode and the keep-mask drawn. *)
Theorem multi_head_attention_forward
    (w : world) (name : string) (heads d_model context_window pred_window : nat)
    (first : option bool) (dropout : Q) (mask : option (tensor Z))
    (m : MultiHeadAttention.t) (q k v : tensor R) (b Sq Sk : nat) :
  MultiHeadAttention.init w name heads d_model context_window pred_window
    first dropout mask = Ok m ->
  shape q = [b; Sq; d_model] -> shape k = [b; Sk; d_model] -> shape v = [b; Sk; d_model] ->
  0 < b -> 0 < heads -> 0 < d_model ->
  (forall M, mask = Some M -> shape M = [1; Sq; Sk]) ->
  exists out,
    MultiHeadAttention.forward m q k v = Ok out /\
    shape out = [b; Sq; d_model] /\
    (forall bi i j, bi < b -> i < Sq -> j < d_model ->
       get out [bi; i; j] =
       Rplus
         (sum_n (heads * d_model) (fun c =>
            Rmult
              (reference_attention (option_map mask_entry mask)
                 (project (MultiHeadAttention.q_linear m) d_model q bi (c / d_model))
                 (project (MultiHeadAttention.k_linear m) d_model k bi (c / d_model))
                 (project (MultiHeadAttention.v_linear m) d_model v bi (c / d_model))
                 Sk d_model i (c mod d_model))
              (theta w (sub (sub name "unifyheads") "weight") [j; c])))
         (theta w (sub (sub name "unifyheads") "bias") [j])) /\
    (forall (w' : world) (dropout' : Q) (m' : MultiHeadAttention.t),
       theta w' = theta w ->
       MultiHeadAttention.init w' name heads d_model context_window pred_window
         first dropout' mask = Ok m' ->
       MultiHeadAttention.forward m' q k v = Ok out).
Proof.
  intros Hinit Hq Hk Hv Hb Hh Hd Hmask.
  destruct (mha_forward_spec w name heads d_model context_window pred_window first
              dropout mask m q k v b Sq Sk Hinit Hq Hk Hv Hb Hh Hd Hmask)
    as (out & E & S & G).
  exists out. split; [exact E|]. split; [exact S|]. split.
  - intros bi i j Hbi Hi Hj. rewrite G by assumption.
    f_equal. apply sum_n_ext. intros c Hc. f_equal.
    destruct (mha_init_inv _ _ _ _ _ _ _ _ _ _ Hinit) as (_ & _ & _ & _ & _ & _ & ->).
    reflexivity.
  - intros w' dropout' m' Hth Hinit'.
    rewrite <- E.
    destruct (mha_init_inv _ _ _ _ _ _ _ _ _ _ Hinit)
      as (Eh & Ed & Em & Eq & Ek & Ev & Eu).
    destruct (mha_init_inv _ _ _ _ _ _ _ _ _ _ Hinit')
      as (Eh' & Ed' & Em' & Eq' & Ek' & Ev' & Eu').
    unfold MultiHeadAttention.forward.
    rewrite Eh, Ed, Em, Eq, Ek, Ev, Eu, Eh', Ed', Em', Eq', Ek', Ev', Eu'.
    unfold Linear.init. rewrite Hth. reflexivity.
Qed.

Lemma multi_head_attention_forward_witness :
  exists m out,
    MultiHeadAttention.init zero_world "attn" 4 5 15 5 None 0.1 None = Ok m /\
    MultiHeadAttention.forward m (torch_zeros [4; 15; 5]) (torch_zeros [4; 15; 5])
      (torch_zeros [4; 15; 5]) = Ok out /\
    shape out = [4; 15; 5].
Proof.
  destruct (mha_init_ok zero_world "attn" 4 5 15 5 None 0.1 None eq_refl) as (m & Hm).
  destruct (multi_head_attention_forward zero_world "attn" 4 5 15 5 None 0.1 None m
              (torch_zeros [4; 15; 5]) (torch_zeros [4; 15; 5]) (torch_zeros [4; 15; 5])
              4 15 15 Hm eq_refl eq_refl eq_refl
              ltac:(lia) ltac:(lia) ltac:(lia) ltac:(discriminate))
    as (out & E & S & _).
  exists m, out. split; [exact Hm|]. split; [exact E | exact S].
Defined.

(** C7, counterexample: a module in training mode whose dropout would drop
    every entry (so that any tensor that had passed through it would be 0
    everywhere) returns an output whose entry at [0, 0, 0] is 1. *)
Lemma multi_head_attention_forward_counterexample :
  exists m out,
    MultiHeadAttention.init dropping_world "attn" 1 1 1 1 None 0.1 None = Ok m /\
    MultiHeadAttention.forward m (torch_zeros [1; 1; 1]) (torch_zeros [1; 1; 1])
      (torch_zeros [1; 1; 1]) = Ok out /\
    (forall t, get (Dropout.forward (MultiHeadAttention.dropout m) t) [0; 0; 0] = 0%R) /\
    get out [0; 0; 0] = 1%R.
Proof.
  destruct (mha_init_ok dropping_world "attn" 1 1 1 1 None 0.1 None eq_refl) as (m & Hm).
  destruct (mha_forward_spec dropping_world "attn" 1 1 1 1 None 0.1 None m
              (torch_zeros [1; 1; 1]) (torch_zeros [1; 1; 1]) (torch_zeros [1; 1; 1])
              1 1 1 Hm eq_refl eq_refl eq_refl
              ltac:(lia) ltac:(lia) ltac:(lia) ltac:(discriminate))
    as (out & E & S & G).
  exists m, out. split; [exact Hm|]. split; [exact E|]. split.
  - intros t. revert Hm. unfold MultiHeadAttention.init, Dropout.init.
    cbn. intros Hm. injection Hm as <-. reflexivity.
  - rewrite G by lia.
    destruct (mha_init_inv _ _ _ _ _ _ _ _ _ _ Hm) as (_ & _ & _ & _ & _ & _ & ->).
    rewrite sum_n_zero.
    + cbn. lra.
    + intros c Hc. cbn. lra.
Qed.

(** C1 (as amended): for a model constructed with decoder width
    [d_model_d = 1], at least one head, positive [d_model_e] and
    [pred_window], a mask of shape [[1; pred_window; pred_window]] (or none)
    and a positional-encoding window that covers both sequence lengths,
    [forward] on inputs of shapes [[batch; context_window; d_model_e]] and
    [[batch; pred_window; 1]] with a positive batch returns a tensor of shape
    exactly [[batch; pred_window]], whatever [d_model_e], [heads] and [N]. *)
Theorem transformer_forward_shape
    (w : world) (experiment : string) (d_model_e N heads : nat)
    (first_mask : option (tensor Z)) (dropout : Q)
    (context_window pred_window pe_window : nat)
    (m : Ml4fTransformer.t) (x y : tensor R) (batch : nat) :
  Ml4fTransformer.init w
    (explicit experiment d_model_e 1 N heads first_mask dropout
       context_window pred_window pe_window) = Ok m ->
  shape x = [batch; context_window; d_model_e] ->
  shape y = [batch; pred_window; 1] ->
  0 < batch -> 0 < heads -> 0 < d_model_e -> 0 < pred_window ->
  context_window <= pe_window -> pred_window <= pe_window ->
  (forall M, first_mask = Some M -> shape M = [1; pred_window; pred_window]) ->
  exists out,
    Ml4fTransformer.forward m x y = Ok out /\ shape out = [batch; pred_window].
Proof.
  intros Hinit Hx Hy Hb Hh Hde HP HC HPW Hmask.
  apply (ml4f_forward_shape w _ m x y batch Hinit); cbn; try assumption; try reflexivity.
  intros _ m5 M _ HM. apply Hmask. exact HM.
Qed.

Lemma transformer_forward_shape_witness :
  exists mask m out,
    create_mask 5 5 = Ok mask /\
    Ml4fTransformer.init zero_world
      (explicit "return" 5 1 4 4 (Some mask) 0.1 15 5 15) = Ok m /\
    Ml4fTransformer.forward m (torch_zeros [4; 15; 5]) (torch_zeros [4; 5; 1]) = Ok out /\
    shape out = [4; 5].
Proof.
  destruct (create_mask_spec 5 5) as (mask & Emask & Smask & _).
  destruct (ml4f_init_ok zero_world
              (explicit "return" 5 1 4 4 (Some mask) 0.1 15 5 15) eq_refl) as (m & Hm).
  destruct (transformer_forward_shape zero_world "return" 5 4 4 (Some mask) 0.1 15 5 15 m
              (torch_zeros [4; 15; 5]) (torch_zeros [4; 5; 1]) 4 Hm eq_refl eq_refl
              ltac:(lia) ltac:(lia) ltac:(lia) ltac:(lia) ltac:(lia) ltac:(lia)
              ltac:(intros M HM; injection HM as <-; exact Smask))
    as (out & E & S).
  exists mask, m, out. repeat split; assumption.
Defined.

(** C1, counterexample: with [d_model_d = 2] (and the other arguments of the
    specification's scenario) the model is constructed, and [forward] on
    inputs of the documented shapes raises at the final
    [view(b, pred_window)]. *)
Lemma transformer_forward_shape_counterexample :
  exists mask m,
    create_mask 5 5 = Ok mask /\
    Ml4fTransformer.init zero_world
      (explicit "return" 5 2 4 4 (Some mask) 0.1 15 5 15) = Ok m /\
    Ml4fTransformer.forward m (torch_zeros [4; 15; 5]) (torch_zeros [4; 5; 2]) =
    Raise RuntimeError ["view"%string].
Proof.
  destruct (create_mask_spec 5 5) as (mask & Emask & Smask & _).
  destruct (ml4f_init_ok zero_world
              (explicit "return" 5 2 4 4 (Some mask) 0.1 15 5 15) eq_refl) as (m & Hm).
  exists mask, m. split; [exact Emask|]. split; [exact Hm|].
  apply (ml4f_forward_wide_decoder zero_world _ m _ _ 4 Hm); cbn;
    try reflexivity; try lia.
  intros _ m5 M _ HM. injection HM as <-. exact Smask.
Qed.

(** C10 (as amended): the default of [first_mask] is the tensor
    [create_mask 5 5], of shape [[1; 5; 5]], and every decoder layer of every
    model constructed without [first_mask] holds it (a deep copy, equal to
    it) as the mask of its masked self-attention.  For such a model with [pred_window <> 5], at
    least one layer ([N >= 1]) and otherwise consistent sizes, construction
    succeeds and [forward] on inputs of the documented shapes raises a shape
    mismatch inside the masked self-attention of the first decoder layer. *)
Theorem default_mask_mismatch
    (w : world) (experiment : string) (d_model_e d_model_d N heads : nat) (dropout : Q)
    (context_window pred_window pe_window : nat) (x y : tensor R) (batch : nat) :
  valid_rate dropout ->
  pred_window <> 5 -> 0 < N ->
  0 < batch -> 0 < heads -> 0 < d_model_e -> 0 < d_model_d -> 0 < pred_window ->
  context_window <= pe_window -> pred_window <= pe_window ->
  shape x = [batch; context_window; d_model_e] ->
  shape y = [batch; pred_window; d_model_d] ->
  exists mask m,
    Ml4fTransformer.default_first_mask = Ok mask /\
    shape mask = [1; 5; 5] /\
    Ml4fTransformer.init w
      (without_mask experiment d_model_e d_model_d N heads dropout
         context_window pred_window pe_window) = Ok m /\
    (forall layer,
       In layer (Decoder.decoderlayers (Ml4fTransformer.decoder m)) ->
       MultiHeadAttention.mask (DecoderLayer.attn_1 layer) = Some mask) /\
    Ml4fTransformer.forward m x y =
    Raise RuntimeError
      ["decoder"%string; "decoderlayers.0"%string; "attn_1"%string;
       "scaled_dot_product_attention"%string; mismatch_site pred_window].
Proof.
  intros Hp HP5 HN Hb Hh Hde Hdd HP HC HPW Hx Hy.
  set (kw := without_mask experiment d_model_e d_model_d N heads dropout
               context_window pred_window pe_window).
  destruct (ml4f_init_ok w kw Hp) as (m & Hm).
  destruct (ml4f_init_inv w kw m Hm)
    as (m5 & enc & dec & ldrop & mdrop & Hm5 & Henc & Hdec & _ & Edd & EP & Eenc & Edec
        & Elearn & Emap & Emd).
  cbn in Hdec.
  destruct (create_mask_spec 5 5) as (m5' & E5 & S5 & _).
  assert (m5' = m5) by congruence. subst m5'.
  exists m5, m. split; [exact Hm5|]. split; [exact S5|]. split; [exact Hm|]. split.
  - intros layer Hin. rewrite Edec in Hin.
    exact (decoder_layers_mask _ _ _ _ _ _ _ _ _ _ _ layer Hdec Hin).
  - destruct (ml4f_forward_bridge w kw m x y batch Hm Hx HC Hb Hh Hde Hdd HP)
      as (enc_map & Senc & ->).
    rewrite Edec.
    rewrite (decoder_forward_mask_mismatch w _ N pe_window heads d_model_d context_window
               pred_window m5 dropout dec y enc_map batch pred_window 5
               Hdec Hy HPW HN Hb Hh Hdd S5 HP5 ltac:(lia)).
    reflexivity.
Qed.

Lemma default_mask_mismatch_witness :
  exists m,
    Ml4fTransformer.init zero_world (without_mask "return" 5 1 2 4 0.1 15 7 15) = Ok m /\
    Ml4fTransformer.forward m (torch_zeros [4; 15; 5]) (torch_zeros [4; 7; 1]) =
    Raise RuntimeError
      ["decoder"%string; "decoderlayers.0"%string; "attn_1"%string;
       "scaled_dot_product_attention"%string; "masked_fill"%string].
Proof.
  destruct (default_mask_mismatch zero_world "return" 5 1 2 4 0.1 15 7 15
              (torch_zeros [4; 15; 5]) (torch_zeros [4; 7; 1]) 4
              eq_refl ltac:(lia) ltac:(lia) ltac:(lia) ltac:(lia) ltac:(lia) ltac:(lia)
              ltac:(lia) ltac:(lia) ltac:(lia) eq_refl eq_refl)
    as (mask & m & _ & _ & Hm & _ & E).
  exists m. split; [exact Hm | exact E].
Defined.

(** C10, counterexample: two models constructed without [first_mask] and
    with [pred_window <> 5].  With [pred_window = 3] and [N = 0], [forward]
    returns a tensor of shape [[4; 3]]; with [pred_window = 20] and every
    other argument at its default, [forward] raises in the positional
    encoding of the decoder, before any self-attention. *)
Lemma default_mask_mismatch_counterexample :
  (exists m out,
     Ml4fTransformer.init zero_world
       (Ml4fTransformer.mkKwargs None None None (Some 0) None None None None (Some 3) None)
       = Ok m /\
     Ml4fTransformer.forward m (torch_zeros [4; 15; 5]) (torch_zeros [4; 3; 1]) = Ok out /\
     shape out = [4; 3]) /\
  (exists m,
     Ml4fTransformer.init zero_world
       (Ml4fTransformer.mkKwargs None None None None None None None None (Some 20) None)
       = Ok m /\
     Ml4fTransformer.forward m (torch_zeros [4; 15; 5]) (torch_zeros [4; 20; 1]) =
     Raise RuntimeError ["decoder"%string; "pe"%string; "add"%string]).
Proof.
  split.
  - set (kw := Ml4fTransformer.mkKwargs None None None (Some 0) None None None None
                 (Some 3) None).
    destruct (ml4f_init_ok zero_world kw eq_refl) as (m & Hm).
    destruct (ml4f_forward_shape zero_world kw m (torch_zeros [4; 15; 5])
                (torch_zeros [4; 3; 1]) 4 Hm) as (out & E & S);
      cbn; try reflexivity; try lia.
    exists m, out. split; [exact Hm|]. split; [exact E | exact S].
  - set (kw := Ml4fTransformer.mkKwargs None None None None None None None None
                 (Some 20) None).
    destruct (ml4f_init_ok zero_world kw eq_refl) as (m & Hm).
    exists m. split; [exact Hm|].
    destruct (ml4f_forward_bridge zero_world kw m (torch_zeros [4; 15; 5])
                (torch_zeros [4; 20; 1]) 4 Hm eq_refl)
      as (enc_map & Senc & ->); cbn; try lia.
    destruct (ml4f_init_inv zero_world kw m Hm)
      as (m5 & enc & dec & ldrop & mdrop & Hm5 & Henc & Hdec & _ & Edd & EP & Eenc & Edec
          & Elearn & Emap & Emd).
    rewrite Edec.
    rewrite (decoder_forward_pe_too_long zero_world "decoder" 2 15 4 1 15 20
               (Some m5) 0.1 dec (torch_zeros [4; 20; 1]) enc_map 4 20 Hdec eq_refl
               ltac:(lia) ltac:(lia)).
    reflexivity.
Qed.

(** C9: the final mapping block is linear, ReLU, dropout and, for a variant
    other than ["return"], a sigmoid after them.  In exact arithmetic every
    entry of what [forward] returns is therefore nonnegative for the variant
    ["return"] and lies in [[1/2, 1)] for every other variant.  In the
    floating-point arithmetic of the program (single or double precision)
    the layers after the linear one turn an entry [pre] of its result,
    whatever it is, into NaN or a value that is not negative (plus infinity
    included) for the variant ["return"], and into NaN or a value of the
    closed interval [[1/2, 1]] for every other variant: there the bound 1 is
    attained.  An entry that is NaN stays NaN. *)
Theorem output_after_relu
    (w : world) (kw : Ml4fTransformer.kwargs) (m : Ml4fTransformer.t)
    (x y out : tensor R) :
  Ml4fTransformer.init w kw = Ok m ->
  Ml4fTransformer.forward m x y = Ok out ->
  let variant := Ml4fTransformer.or_default (Ml4fTransformer.kw_experiment kw) "return"%string in
  (exists l d,
     Ml4fTransformer.map m =
     if (variant =? "return")%string
     then [Sequential.Linear l; Sequential.ReLU; Sequential.Dropout d]
     else [Sequential.Linear l; Sequential.ReLU; Sequential.Dropout d;
           Sequential.Sigmoid]) /\
  (variant = "return"%string -> forall idx, (0 <= get out idx)%R) /\
  (variant <> "return"%string -> forall idx, (1 / 2 <= get out idx < 1)%R) /\
  (forall (f : IEEE.format) (scale : R) (idx : list nat) (pre : IEEE.t),
     IEEE.valid f -> (0 <= scale)%R ->
     exists o,
       Rounded.forward f scale (tl (Ml4fTransformer.map m)) idx pre = Some o /\
       (variant = "return"%string -> o = IEEE.NaN \/ IEEE.nonnegative o) /\
       (variant <> "return"%string -> o = IEEE.NaN \/ IEEE.in_range (1 / 2) 1 o) /\
       (pre = IEEE.NaN -> o = IEEE.NaN)).
Proof.
  intros Hinit Hfwd variant.
  destruct (ml4f_forward_output w kw m x y out Hinit Hfwd)
    as (dec & t1 & mdrop & _ & Hp & _ & Emap & Eout).
  fold variant in Emap, Eout.
  assert (Hdrop : forall idx,
            (0 <= get (Dropout.forward mdrop (map_tensor Sequential.relu t1)) idx)%R).
  { apply dropout_nonneg; [exact Hp|]. intros idx. apply relu_nonneg. }
  split; [|split; [|split]].
  - eexists. exists mdrop. rewrite Emap. destruct (variant =? "return")%string; reflexivity.
  - intros Hv idx. apply String.eqb_eq in Hv. rewrite Hv in Eout. subst out. apply Hdrop.
  - intros Hv idx. apply String.eqb_neq in Hv. rewrite Hv in Eout. subst out.
    cbn [map_tensor get]. apply sigmoid_bounds. apply Hdrop.
  - exact (map_rounded w kw m Hinit).
Qed.

Lemma output_after_relu_witness :
  exists m out,
    Ml4fTransformer.init zero_world (without_mask "volatility" 5 1 4 4 0.1 15 5 15) = Ok m /\
    Ml4fTransformer.forward m (torch_zeros [4; 15; 5]) (torch_zeros [4; 5; 1]) = Ok out /\
    (1 / 2 <= get out [0%nat; 0%nat] < 1)%R /\
    exists o,
      Rounded.forward IEEE.binary32 1 (tl (Ml4fTransformer.map m)) [0; 0] (IEEE.Inf false)
      = Some o /\
      (o = IEEE.NaN \/ IEEE.in_range (1 / 2) 1 o).
Proof.
  set (kw := without_mask "volatility" 5 1 4 4 0.1 15 5 15).
  destruct (ml4f_init_ok zero_world kw eq_refl) as (m & Hm).
  destruct (ml4f_forward_shape zero_world kw m (torch_zeros [4; 15; 5])
              (torch_zeros [4; 5; 1]) 4 Hm eq_refl eq_refl eq_refl
              ltac:(cbn; lia) ltac:(cbn; lia) ltac:(lia) ltac:(cbn; lia) ltac:(cbn; lia)
              ltac:(cbn; lia)
              ltac:(intros _ m5 M H5 HM; cbn in HM; injection HM as <-;
                    destruct (create_mask_spec 5 5) as (m5' & E5 & S5 & _);
                    replace m5 with m5' by congruence; exact S5))
    as (out & E & _).
  destruct (output_after_relu zero_world kw m _ _ out Hm E) as (_ & _ & Hother & Hfloat).
  exists m, out. split; [exact Hm|]. split; [exact E|]. split.
  - apply Hother. cbn. discriminate.
  - destruct (Hfloat IEEE.binary32 1%R [0; 0] (IEEE.Inf false))
      as (o & Eo & _ & Ho & _).
    + unfold IEEE.valid. cbn. lia.
    + lra.
    + exists o. split; [exact Eo|]. apply Ho. cbn. discriminate.
Defined.

(** C9, the bound that fails: for the variant ["volatility"], with every
    weight of the final linear layer at 0 and its bias at 37, every entry of
    the result of the linear layer is 37, and in double precision the layers
    after it return exactly 1: [exp(-37)] is below half a unit in the last
    place of 1, so that [1 + exp(-37)] is rounded to 1. *)
Lemma output_after_relu_counterexample :
  exists m out l d,
    Ml4fTransformer.init (bias_world 37) (without_mask "volatility" 5 1 4 4 0.1 15 5 15)
      = Ok m /\
    Ml4fTransformer.forward m (torch_zeros [4; 15; 5]) (torch_zeros [4; 5; 1]) = Ok out /\
    Ml4fTransformer.map m =
      [Sequential.Linear l; Sequential.ReLU; Sequential.Dropout d; Sequential.Sigmoid] /\
    (forall j k, Linear.weight l j k = 0%R) /\
    (exists b, Linear.bias l = Some b /\ forall j, b j = 37%R) /\
    forall scale idx,
      Rounded.forward IEEE.binary64 scale (tl (Ml4fTransformer.map m)) idx (IEEE.Fin 37)
      = Some (IEEE.Fin 1).
Proof.
  apply (map_saturated 37 IEEE.binary64); [lra | exact sigmoid64_37].
Qed.

(** C5: for the variant ["return"] the output is unbounded: for every bound
    there are parameters for which every entry of the output exceeds it, on
    the inputs of the specification's scenario.  For every other variant the
    output passes through the sigmoid: in exact arithmetic every entry of
    what [forward] returns lies strictly between 0 and 1; in the
    floating-point arithmetic of the program (single or double precision)
    the layers after the final linear layer turn an entry [pre] of its
    result, whatever it is, into NaN or a value of the closed interval
    [[1/2, 1]], and the bound 1 is attained; an entry that is NaN stays
    NaN. *)
Theorem output_range_by_variant :
  (forall bound : R,
     exists w m out,
       Ml4fTransformer.init w (without_mask "return" 5 1 4 4 0.1 15 5 15) = Ok m /\
       Ml4fTransformer.forward m (torch_zeros [4; 15; 5]) (torch_zeros [4; 5; 1]) = Ok out /\
       shape out = [4; 5] /\
       forall i j, i < 4 -> j < 5 -> (bound < get out [i; j])%R) /\
  (forall (w : world) (kw : Ml4fTransformer.kwargs) (m : Ml4fTransformer.t)
          (x y out : tensor R),
     Ml4fTransformer.or_default (Ml4fTransformer.kw_experiment kw) "return"%string <> "return"%string ->
     Ml4fTransformer.init w kw = Ok m ->
     Ml4fTransformer.forward m x y = Ok out ->
     forall idx, (0 < get out idx < 1)%R) /\
  (forall (w : world) (kw : Ml4fTransformer.kwargs) (m : Ml4fTransformer.t),
     Ml4fTransformer.or_default (Ml4fTransformer.kw_experiment kw) "return"%string <> "return"%string ->
     Ml4fTransformer.init w kw = Ok m ->
     forall (f : IEEE.format) (scale : R) (idx : list nat) (pre : IEEE.t),
       IEEE.valid f -> (0 <= scale)%R ->
       exists o,
         Rounded.forward f scale (tl (Ml4fTransformer.map m)) idx pre = Some o /\
         (o = IEEE.NaN \/ IEEE.in_range (1 / 2) 1 o) /\
         (pre = IEEE.NaN -> o = IEEE.NaN)).
Proof.
  split; [|split].
  - intros bound.
    set (kw := without_mask "return" 5 1 4 4 0.1 15 5 15).
    set (w := bias_world (Rabs bound + 1)).
    destruct (ml4f_init_ok w kw eq_refl) as (m & Hm).
    destruct (ml4f_forward_shape w kw m (torch_zeros [4; 15; 5])
                (torch_zeros [4; 5; 1]) 4 Hm eq_refl eq_refl eq_refl
                ltac:(cbn; lia) ltac:(cbn; lia) ltac:(lia) ltac:(cbn; lia) ltac:(cbn; lia)
                ltac:(cbn; lia)
                ltac:(intros _ m5 M H5 HM; cbn in HM; injection HM as <-;
                      destruct (create_mask_spec 5 5) as (m5' & E5 & S5 & _);
                      replace m5 with m5' by congruence; exact S5))
      as (out & E & S).
    exists w, m, out. split; [exact Hm|]. split; [exact E|]. split; [exact S|].
    intros i j Hi Hj.
    destruct (ml4f_forward_output w kw m _ _ out Hm E)
      as (dec & t1 & mdrop & Emd & _ & Ht1 & _ & Eout).
    cbn in Eout, Ht1, Emd. subst out mdrop.
    unfold Dropout.forward. cbn [Dropout.sample map_tensor get].
    change [i; j] with ([i] ++ [j]).
    rewrite (linear_forward_inv _ _ _ Ht1).
    rewrite sum_n_zero by (intros c Hc; cbn; lra).
    cbn. unfold Sequential.relu.
    assert (Habs := Rabs_pos bound). assert (Hle := Rle_abs bound).
    rewrite Rmax_right by lra. lra.
  - intros w kw m x y out Hv Hinit Hfwd idx.
    destruct (ml4f_forward_output w kw m x y out Hinit Hfwd)
      as (dec & t1 & mdrop & _ & Hp & _ & _ & Eout).
    apply String.eqb_neq in Hv. rewrite Hv in Eout. subst out.
    cbn [map_tensor get].
    assert (H : (1 / 2 <= Sequential.sigmoid
                   (get (Dropout.forward mdrop (map_tensor Sequential.relu t1)) idx) < 1)%R).
    { apply sigmoid_bounds. apply dropout_nonneg; [exact Hp|].
      intros idx'. apply relu_nonneg. }
    lra.
  - intros w kw m Hv Hinit f scale idx pre Hf Hs.
    destruct (map_rounded w kw m Hinit f scale idx pre Hf Hs) as (o & Eo & _ & Ho & Hn).
    exists o. split; [exact Eo|]. split; [exact (Ho Hv) | exact Hn].
Qed.

Lemma output_range_by_variant_witness :
  exists m out,
    Ml4fTransformer.init zero_world (without_mask "volatility" 5 1 4 4 0.1 15 5 15) = Ok m /\
    Ml4fTransformer.forward m (torch_zeros [4; 15; 5]) (torch_zeros [4; 5; 1]) = Ok out /\
    (0 < get out [3%nat; 4%nat] < 1)%R /\
    exists o,
      Rounded.forward IEEE.binary64 1 (tl (Ml4fTransformer.map m)) [3; 4] IEEE.NaN
      = Some o /\
      (o = IEEE.NaN \/ IEEE.in_range (1 / 2) 1 o).
Proof.
  set (kw := without_mask "volatility" 5 1 4 4 0.1 15 5 15).
  destruct (ml4f_init_ok zero_world kw eq_refl) as (m & Hm).
  destruct (ml4f_forward_shape zero_world kw m (torch_zeros [4; 15; 5])
              (torch_zeros [4; 5; 1]) 4 Hm eq_refl eq_refl eq_refl
              ltac:(cbn; lia) ltac:(cbn; lia) ltac:(lia) ltac:(cbn; lia) ltac:(cbn; lia)
              ltac:(cbn; lia)
              ltac:(intros _ m5 M H5 HM; cbn in HM; injection HM as <-;
                    destruct (create_mask_spec 5 5) as (m5' & E5 & S5 & _);
                    replace m5 with m5' by congruence; exact S5))
    as (out & E & _).
  destruct output_range_by_variant as (_ & Hother & Hfloat).
  exists m, out. split; [exact Hm|]. split; [exact E|]. split.
  - apply (Hother zero_world kw m (torch_zeros [4; 15; 5]) (torch_zeros [4; 5; 1]) out);
      [cbn; discriminate | exact Hm | exact E].
  - destruct (Hfloat zero_world kw m ltac:(cbn; discriminate) Hm IEEE.binary64 1%R
                [3; 4] IEEE.NaN) as (o & Eo & Ho & _).
    + unfold IEEE.valid. cbn. lia.
    + lra.
    + exists o. split; [exact Eo | exact Ho].
Defined.

(** C5, the bound that is not strict: for the variant ["volatility"], with
    every weight of the final linear layer at 0 and its bias at 17, every
    entry of the result of the linear layer is 17, and in single precision
    the layers after it return exactly 1: [exp(-17)] is below half a unit
    in the last place of 1, so that [1 + exp(-17)] is rounded to 1. *)
Lemma output_range_by_variant_counterexample :
  exists m out l d,
    Ml4fTransformer.init (bias_world 17) (without_mask "volatility" 5 1 4 4 0.1 15 5 15)
      = Ok m /\
    Ml4fTransformer.forward m (torch_zeros [4; 15; 5]) (torch_zeros [4; 5; 1]) = Ok out /\
    Ml4fTransformer.map m =
      [Sequential.Linear l; Sequential.ReLU; Sequential.Dropout d; Sequential.Sigmoid] /\
    (forall j k, Linear.weight l j k = 0%R) /\
    (exists b, Linear.bias l = Some b /\ forall j, b j = 17%R) /\
    forall scale idx,
      Rounded.forward IEEE.binary32 scale (tl (Ml4fTransformer.map m)) idx (IEEE.Fin 17)
      = Some (IEEE.Fin 1).
Proof.
  apply (map_saturated 17 IEEE.binary32); [lra | exact sigmoid32_17].
Qed.

(** * Further properties of the program *)

(** ** [create_mask] *)

(** X1: in every mask, square or not, row [i] permits exactly the keys
    [j <= i]; hence, as soon as there is one key column, every row permits
    key 0 and no row is masked entirely. *)
Theorem create_mask_rows (x y : nat) :
  exists m,
    create_mask x y = Ok m /\
    (forall i j, i < y -> j < x -> (get m [0; i; j] = 1%Z <-> j <= i)) /\
    (forall i j, i < y -> j < x -> (get m [0; i; j] = 0%Z <-> i < j)) /\
    (0 < x -> forall i, i < y -> get m [0; i; 0] = 1%Z).
Proof.
  destruct (create_mask_spec x y) as (m & E & _ & G).
  exists m. split; [exact E|]. split; [|split].
  - intros i j _ _. rewrite G. destruct (j <=? i) eqn:Eji.
    + apply Nat.leb_le in Eji. split; [intros _; exact Eji | reflexivity].
    + apply Nat.leb_gt in Eji. split; [discriminate | lia].
  - intros i j _ _. rewrite G. destruct (j <=? i) eqn:Eji.
    + apply Nat.leb_le in Eji. split; [discriminate | lia].
    + apply Nat.leb_gt in Eji. split; [intros _; exact Eji | reflexivity].
  - intros _ i _. rewrite G. reflexivity.
Qed.

Lemma create_mask_rows_witness :
  exists m,
    create_mask 3 7 = Ok m /\ get m [0; 6; 0] = 1%Z /\ get m [0; 1; 2] = 0%Z.
Proof.
  destruct (create_mask_rows 3 7) as (m & E & _ & Hz & H0).
  exists m. split; [exact E|]. split; [apply H0; lia | apply Hz; lia].
Defined.

(** ** [PositionalEncoding] *)

Lemma pe_entry_bounds (D pos i : nat) : (-1 <= pe_entry D pos i <= 1)%R.
Proof.
  unfold pe_entry. destruct (Nat.even i); [apply SIN_bound | apply COS_bound].
Qed.

(** X2: every entry of the positional-encoding table lies in [[-1, 1]], and
    the row of position 0 is 0 at the even and 1 at the odd feature
    indices. *)
Theorem positional_encoding_bounded (W D : nat) :
  let m := PositionalEncoding.init W D in
  (forall b pos i, (-1 <= get (PositionalEncoding.pe m) [b; pos; i] <= 1)%R) /\
  (0 < W -> forall i, i < D ->
     get (PositionalEncoding.pe m) [0; 0; i] = if Nat.even i then 0%R else 1%R).
Proof.
  cbv zeta. split.
  - intros b pos i. rewrite pe_table_get.
    destruct ((pos <? W) && (i <? D)); [apply pe_entry_bounds | lra].
  - intros HW i Hi. rewrite pe_table_get.
    apply Nat.ltb_lt in HW, Hi. rewrite HW, Hi. cbn [andb].
    unfold pe_entry. cbn [INR]. unfold Rdiv at 1 3. rewrite !Rmult_0_l.
    destruct (Nat.even i); [apply sin_0 | apply cos_0].
Qed.

Lemma positional_encoding_bounded_witness :
  get (PositionalEncoding.pe (PositionalEncoding.init 15 5)) [0; 0; 3] = 1%R /\
  get (PositionalEncoding.pe (PositionalEncoding.init 15 5)) [0; 0; 4] = 0%R.
Proof.
  destruct (positional_encoding_bounded 15 5) as (_ & H0).
  split; [apply (H0 ltac:(lia) 3); lia | apply (H0 ltac:(lia) 4); lia].
Defined.

(** X3: an input of feature width 1 is accepted whatever the model
    dimension [D] of the table: its single feature is added to every column
    of the table and the result has width [D]. *)
Theorem positional_encoding_width_1 (W D : nat) (x : tensor R) (b L : nat) :
  shape x = [b; L; 1] -> L <= W ->
  exists out,
    PositionalEncoding.forward (PositionalEncoding.init W D) x = Ok out /\
    shape out = [b; L; D] /\
    forall bi l i, bi < b -> l < L -> i < D ->
      get out [bi; l; i] =
      Rplus (get x [bi; l; 0])
            (get (PositionalEncoding.pe (PositionalEncoding.init W D)) [0; l; i]).
Proof.
  intros Hx HL.
  unfold PositionalEncoding.forward, size, getitem, torch_Variable.
  rewrite Hx, pe_table_shape. cbn [nth_error bind List.length Nat.ltb Nat.leb].
  cbn [slice_shape]. unfold slice_len, slice_hi, slice_lo. cbn [all_ upto start stop].
  rewrite slice_bound_nonneg by lia. rewrite Nat2Z.id, !Nat.sub_0_r.
  rewrite Nat.min_l by exact HL.
  unfold add. rewrite Hx. cbn [shape].
  unfold broadcast_shapes. cbn [rev app bcast_rev].
  rewrite bcast_dim_1_l, bcast_dim_same, bcast_dim_1_r. cbn [option_map rev app bind].
  eexists. split; [reflexivity|]. split; [reflexivity|].
  intros bi l i Hbi Hl Hi. cbn [get].
  unfold bcast_index. cbn [rev app bcast_index_rev Nat.eqb].
  rewrite !bcast_component by assumption.
  cbn [slice_index]. reflexivity.
Qed.

Lemma positional_encoding_width_1_witness :
  exists out,
    PositionalEncoding.forward (PositionalEncoding.init 15 5) (torch_zeros [4; 5; 1]) = Ok out /\
    shape out = [4; 5; 5].
Proof.
  destruct (positional_encoding_width_1 15 5 (torch_zeros [4; 5; 1]) 4 5 eq_refl
              ltac:(lia)) as (out & E & S & _).
  exists out. split; [exact E | exact S].
Defined.

(** X4: [forward] raises an [IndexError] exactly on an input of fewer than
    two dimensions (from [x.size(1)]); on any other input the slice of the
    table is taken without an error and the call returns or raises the
    shape mismatch of the addition. *)
Theorem positional_encoding_errors (W D : nat) (x : tensor R) :
  (List.length (shape x) < 2 ->
   PositionalEncoding.forward (PositionalEncoding.init W D) x =
   Raise IndexError ["size"%string]) /\
  (2 <= List.length (shape x) ->
   (exists out, PositionalEncoding.forward (PositionalEncoding.init W D) x = Ok out) \/
   PositionalEncoding.forward (PositionalEncoding.init W D) x =
   Raise RuntimeError ["add"%string]).
Proof.
  unfold PositionalEncoding.forward, size, getitem, torch_Variable.
  rewrite pe_table_shape. cbn [List.length Nat.ltb Nat.leb].
  split.
  - intros Hlen. destruct (shape x) as [|a [|a' s]]; cbn in Hlen; try lia; reflexivity.
  - intros Hlen. destruct (shape x) as [|a [|a' s]] eqn:Es; cbn in Hlen; try lia.
    cbn [nth_error bind]. unfold add.
    destruct (broadcast_shapes _ _); cbn [bind].
    + left. eexists. reflexivity.
    + right. reflexivity.
Qed.

Lemma positional_encoding_errors_witness :
  PositionalEncoding.forward (PositionalEncoding.init 15 5) (torch_zeros [7]) =
  Raise IndexError ["size"%string].
Proof.
  apply (proj1 (positional_encoding_errors 15 5 (torch_zeros [7]))). cbn. lia.
Defined.

(** ** Attention weights *)

Lemma sum_n_mult_r (n : nat) (f : nat -> R) (c : R) :
  sum_n n (fun j => (f j * c)%R) = (sum_n n f * c)%R.
Proof.
  induction n as [|n IH]; cbn; [ring|]. rewrite IH. ring.
Qed.

Lemma sum_n_le (n : nat) (f g : nat -> R) :
  (forall j, j < n -> (f j <= g j)%R) -> (sum_n n f <= sum_n n g)%R.
Proof.
  intros H. induction n as [|n IH]; cbn; [lra|].
  assert (H1 := H n ltac:(lia)).
  assert (H2 : (sum_n n f <= sum_n n g)%R) by (apply IH; intros; apply H; lia).
  lra.
Qed.

Lemma sum_n_const (n : nat) (c : R) : sum_n n (fun _ => c) = (INR n * c)%R.
Proof.
  induction n as [|n IH]; [cbn; ring|].
  cbn [sum_n]. rewrite IH, S_INR. ring.
Qed.

Lemma sum_n_exp_pos (n : nat) (s : nat -> R) :
  0 < n -> (0 < sum_n n (fun j => exp (s j)))%R.
Proof.
  intros Hn. destruct n as [|n]; [lia|]. clear Hn.
  induction n as [|n IH]; cbn [sum_n] in *.
  - assert (H := exp_pos (s 0)). lra.
  - assert (H := exp_pos (s (S n))). lra.
Qed.

(** The softmax weights of a row are nonnegative and sum to 1. *)
Lemma softmax_weights_sum (n : nat) (s : nat -> R) :
  0 < n ->
  sum_n n (fun j => (exp (s j) / sum_n n (fun j' => exp (s j')))%R) = 1%R.
Proof.
  intros Hn. assert (HZ := sum_n_exp_pos n s Hn).
  unfold Rdiv. rewrite sum_n_mult_r. apply Rinv_r. lra.
Qed.

Lemma reference_attention_bounds (mask : option (nat -> nat -> Z))
    (Q K V : nat -> nat -> R) (keys d i t : nat) (lo hi : R) :
  0 < keys ->
  (forall j, j < keys -> (lo <= V j t <= hi)%R) ->
  (lo <= reference_attention mask Q K V keys d i t <= hi)%R.
Proof.
  intros Hk HV. unfold reference_attention.
  set (s := fun j => masked_score mask Q K d i j).
  set (Z := sum_n keys (fun j' => exp (s j'))).
  assert (HZ : (0 < Z)%R) by (apply sum_n_exp_pos; exact Hk).
  assert (Hw : forall j, (0 <= exp (s j) / Z)%R).
  { intros j. apply Rle_mult_inv_pos; [left; apply exp_pos | exact HZ]. }
  assert (Hsum : sum_n keys (fun j => (exp (s j) / Z)%R) = 1%R)
    by (apply softmax_weights_sum; exact Hk).
  split.
  - replace lo with (sum_n keys (fun j => (exp (s j) / Z)%R) * lo)%R by (rewrite Hsum; ring).
    rewrite <- sum_n_mult_r. apply sum_n_le. intros j Hj.
    apply Rmult_le_compat_l; [apply Hw | apply HV; exact Hj].
  - replace hi with (sum_n keys (fun j => (exp (s j) / Z)%R) * hi)%R by (rewrite Hsum; ring).
    rewrite <- sum_n_mult_r. apply sum_n_le. intros j Hj.
    apply Rmult_le_compat_l; [apply Hw | apply HV; exact Hj].
Qed.

(** X5: every entry of the output of the attention function is a convex
    combination of the entries of [v] for the same batch element, head and
    feature: if these lie between [lo] and [hi], so does the output, with
    or without a mask. *)
Theorem attention_output_between_values
    (k q v : tensor R) (mask : option (tensor Z)) (b Sq Sk h d : nat)
    (bi i hi t : nat) (lo up : R) :
  shape q = [b; Sq; h; d] -> shape k = [b; Sk; h; d] -> shape v = [b; Sk; h; d] ->
  0 < b -> 0 < h -> 0 < d -> 0 < Sk ->
  (forall M, mask = Some M -> shape M = [1; Sq; Sk]) ->
  bi < b -> i < Sq -> hi < h -> t < d ->
  (forall j, j < Sk ->
     Rle lo (get v [bi; j; hi; t]) /\ Rle (get v [bi; j; hi; t]) up) ->
  exists out,
    scaled_dot_product_attention k q v mask = Ok out /\
    Rle lo (get out [bi; i; hi * d + t]) /\
    Rle (get out [bi; i; hi * d + t]) up.
Proof.
  intros Hq Hk Hv Hb Hh Hd HSk Hmask Hbi Hi Hhi Ht HV.
  destruct (scaled_dot_product_attention_spec k q v mask b Sq Sk h d
              Hq Hk Hv Hb Hh Hd Hmask) as (out & E & _ & G).
  exists out. split; [exact E|].
  rewrite G by assumption.
  apply reference_attention_bounds; [exact HSk | exact HV].
Qed.

Lemma attention_output_between_values_witness :
  exists out,
    scaled_dot_product_attention (torch_zeros [1; 3; 1; 2]) (torch_zeros [1; 2; 1; 2])
      (torch_zeros [1; 3; 1; 2]) None = Ok out /\
    Rle 0 (get out [0; 1; 1]) /\ Rle (get out [0; 1; 1]) 0.
Proof.
  apply (attention_output_between_values
           (torch_zeros [1; 3; 1; 2]) (torch_zeros [1; 2; 1; 2]) (torch_zeros [1; 3; 1; 2])
           None 1 2 3 1 2 0 1 0 1 0%R 0%R eq_refl eq_refl eq_refl);
    try lia; try discriminate.
  intros j _. cbn. lra.
Defined.

(** X6: a query row whose keys are all masked is not left without keys:
    every score of the row is the same fill value, so the row attends
    uniformly and its output is the average of the value rows. *)
Theorem attention_fully_masked_row
    (k q v : tensor R) (M : tensor Z) (b Sq Sk h d : nat) (bi i hi t : nat) :
  shape q = [b; Sq; h; d] -> shape k = [b; Sk; h; d] -> shape v = [b; Sk; h; d] ->
  0 < b -> 0 < h -> 0 < d -> 0 < Sk ->
  shape M = [1; Sq; Sk] ->
  bi < b -> i < Sq -> hi < h -> t < d ->
  (forall j, j < Sk -> get M [0; i; j] = 0%Z) ->
  exists out,
    scaled_dot_product_attention k q v (Some M) = Ok out /\
    get out [bi; i; hi * d + t] =
    Rdiv (sum_n Sk (fun j => get v [bi; j; hi; t])) (INR Sk).
Proof.
  intros Hq Hk Hv Hb Hh Hd HSk HM Hbi Hi Hhi Ht Hrow.
  destruct (scaled_dot_product_attention_spec k q v (Some M) b Sq Sk h d
              Hq Hk Hv Hb Hh Hd) as (out & E & _ & G).
  { intros M' HM'. injection HM' as <-. exact HM. }
  exists out. split; [exact E|].
  rewrite G by assumption. unfold reference_attention.
  assert (Hs : forall j, j < Sk ->
            masked_score (option_map mask_entry (Some M))
              (fun i c => get q [bi; i; hi; c]) (fun j c => get k [bi; j; hi; c]) d i j
            = (-1e9)%R).
  { intros j Hj. unfold masked_score, mask_entry. cbn [option_map].
    rewrite (Hrow j Hj). reflexivity. }
  rewrite (sum_n_ext Sk _ (fun j => (get v [bi; j; hi; t] * / INR Sk)%R)).
  - rewrite sum_n_mult_r. reflexivity.
  - intros j Hj. rewrite (Hs j Hj).
    rewrite (sum_n_ext Sk _ (fun _ => exp (-1e9)%R))
      by (intros j' Hj'; rewrite (Hs j' Hj'); reflexivity).
    rewrite sum_n_const.
    assert (He := exp_pos (-1e9)%R).
    assert (Hn : (0 < INR Sk)%R) by (apply lt_0_INR; exact HSk).
    field. split; lra.
Qed.

Lemma attention_fully_masked_row_witness :
  exists out,
    scaled_dot_product_attention (torch_zeros [1; 3; 1; 2]) (torch_zeros [1; 2; 1; 2])
      (torch_zeros [1; 3; 1; 2]) (Some (mkTensor [1; 2; 3] (fun _ => 0%Z))) = Ok out /\
    get out [0; 1; 1] = Rdiv (sum_n 3 (fun _ => 0%R)) (INR 3).
Proof.
  apply (attention_fully_masked_row
           (torch_zeros [1; 3; 1; 2]) (torch_zeros [1; 2; 1; 2]) (torch_zeros [1; 3; 1; 2])
           (mkTensor [1; 2; 3] (fun _ => 0%Z)) 1 2 3 1 2 0 1 0 1 eq_refl eq_refl eq_refl);
    try lia; reflexivity.
Defined.

(** ** The layer stacks *)

Lemma mapM_length {A B} (f : A -> result B) (l : list A) (bs : list B) :
  mapM f l = Ok bs -> List.length bs = List.length l.
Proof.
  revert bs. induction l as [|a l IH]; intros bs Hm; cbn [mapM] in Hm.
  - injection Hm as <-. reflexivity.
  - apply bind_Ok_inv in Hm. destruct Hm as (b0 & _ & Hm).
    apply bind_Ok_inv in Hm. destruct Hm as (bs' & Hbs' & Hm).
    injection Hm as <-. cbn. rewrite (IH bs' Hbs'). reflexivity.
Qed.

Lemma get_clones_length {M} (module : string -> result M) (name : string) (N : nat)
    (ms : list M) :
  get_clones module name N = Ok ms -> List.length ms = N.
Proof.
  unfold get_clones. intros H.
  apply bind_Ok_inv in H. destruct H as (_ & _ & H).
  rewrite (mapM_length _ _ _ H). apply length_seq.
Qed.

(** X7: [get_clones(module, N)] returns exactly [N] modules, the [i]-th one
    a copy of the template with parameters of its own, so that indexing the
    list below [N] always succeeds and indexing it at [N] or above raises
    IndexError; the template is constructed even for [N = 0], so a template
    that cannot be constructed makes the call fail for every [N]. *)
Theorem get_clones_copies {M} (module : string -> result M) (name : string) (N : nat) :
  (forall ms, get_clones module name N = Ok ms ->
     List.length ms = N /\
     (exists m0, module name = Ok m0) /\
     (forall i, i < N ->
        exists m, list_getitem ms i = Ok m /\
                  module (sub name (string_of_nat i)) = Ok m) /\
     (forall i, N <= i -> list_getitem ms i = Raise IndexError ["getitem"%string])) /\
  (forall e fr, module name = Raise e fr -> get_clones module name N = Raise e fr).
Proof.
  split.
  - intros ms H. split; [exact (get_clones_length _ _ _ _ H)|]. split; [|split].
    + unfold get_clones in H. apply bind_Ok_inv in H.
      destruct H as (m0 & Hm0 & _). exists m0. exact Hm0.
    + intros i Hi. destruct (get_clones_nth _ _ _ _ i H Hi) as (m & Hn & Hm).
      exists m. unfold list_getitem. rewrite Hn. split; [reflexivity | exact Hm].
    + intros i Hi. unfold list_getitem.
      assert (Hn : nth_error ms i = None).
      { apply nth_error_None. rewrite (get_clones_length _ _ _ _ H). exact Hi. }
      rewrite Hn. reflexivity.
  - intros e fr H. unfold get_clones. rewrite H. reflexivity.
Qed.

Lemma get_clones_copies_witness :
  exists ms,
    get_clones (fun nm => Dropout.init zero_world nm 0.1) "dropout" 3 = Ok ms /\
    List.length ms = 3.
Proof.
  eexists. split; [reflexivity|].
  apply (proj1 (get_clones_copies (fun nm => Dropout.init zero_world nm 0.1) "dropout" 3)).
  reflexivity.
Defined.

Lemma encoder_forward_pe_too_long (w : world) (name : string)
    (N W heads dm cw pw : nat) (p : Q) (m : Encoder.t) (x : tensor R) (b S : nat) :
  Encoder.init w name N W heads dm cw pw p = Ok m ->
  shape x = [b; S; dm] -> W < S -> 2 <= W ->
  Encoder.forward m x = Raise RuntimeError ["pe"%string; "add"%string].
Proof.
  unfold Encoder.init. intros Hinit Hx HS HW.
  apply bind_Ok_inv in Hinit. destruct Hinit as (ls & _ & Hinit).
  injection Hinit as <-.
  unfold Encoder.forward. cbn [Encoder.pe].
  rewrite (pe_forward_too_long W dm x b S Hx HS HW). reflexivity.
Qed.

(** X8: an encoder constructed with [N] layers holds exactly [N] of them; on
    an input of shape [[b; C; d_model]] no longer than the window of the
    positional encoding it returns a tensor of the same shape, for every
    depth [N]; on a longer input (window of 2 or more) it fails in the
    positional encoding, before any layer is run. *)
Theorem encoder_forward_stack (w : world) (name : string)
    (N W heads dm cw pw : nat) (p : Q) (m : Encoder.t) (x : tensor R) (b C : nat) :
  Encoder.init w name N W heads dm cw pw p = Ok m ->
  shape x = [b; C; dm] -> 0 < b -> 0 < heads -> 0 < dm ->
  Encoder.N m = N /\ List.length (Encoder.dynamiclayers m) = N /\
  (C <= W -> exists out, Encoder.forward m x = Ok out /\ shape out = [b; C; dm]) /\
  (W < C -> 2 <= W ->
   Encoder.forward m x = Raise RuntimeError ["pe"%string; "add"%string]).
Proof.
  intros Hinit Hx Hb Hh Hd.
  assert (HN : Encoder.N m = N /\ List.length (Encoder.dynamiclayers m) = N).
  { unfold Encoder.init in Hinit.
    apply bind_Ok_inv in Hinit. destruct Hinit as (ls & Hls & Hinit).
    injection Hinit as <-. cbn. split; [reflexivity|].
    exact (get_clones_length _ _ _ _ Hls). }
  destruct HN as (HN & HL). split; [exact HN|]. split; [exact HL|]. split.
  - intros HC. exact (encoder_forward_shape w name N W heads dm cw pw p m x b C
                        Hinit Hx HC Hb Hh Hd).
  - intros HC HW. exact (encoder_forward_pe_too_long w name N W heads dm cw pw p m x b C
                           Hinit Hx HC HW).
Qed.

Lemma encoder_forward_stack_witness :
  exists m out,
    Encoder.init zero_world "dynamicencode" 4 15 4 5 15 5 0.1 = Ok m /\
    List.length (Encoder.dynamiclayers m) = 4 /\
    Encoder.forward m (torch_zeros [4; 15; 5]) = Ok out /\ shape out = [4; 15; 5].
Proof.
  destruct (encoder_init_ok zero_world "dynamicencode" 4 15 4 5 15 5 0.1 eq_refl)
    as (m & Hm).
  destruct (encoder_forward_stack zero_world "dynamicencode" 4 15 4 5 15 5 0.1 m
              (torch_zeros [4; 15; 5]) 4 15 Hm eq_refl ltac:(lia) ltac:(lia) ltac:(lia))
    as (_ & HL & Hok & _).
  destruct (Hok ltac:(lia)) as (out & E & S).
  exists m, out. repeat split; assumption.
Defined.

Lemma mha_forward_key_mismatch (w : world) (name : string) (heads dm cw pw : nat)
    (first : option bool) (p : Q) (mask : option (tensor Z)) (m : MultiHeadAttention.t)
    (q k v : tensor R) (b Sq : nat) (s : list nat) (d' : nat) :
  MultiHeadAttention.init w name heads dm cw pw first p mask = Ok m ->
  shape q = [b; Sq; dm] -> shape k = s ++ [d'] -> d' <> dm ->
  MultiHeadAttention.forward m q k v =
  Raise RuntimeError ["k_linear"%string; "linear"%string].
Proof.
  intros Hinit Hq Hk Hd.
  destruct (mha_init_inv w name heads dm cw pw first p mask m Hinit)
    as (_ & _ & _ & _ & Ek & _).
  unfold MultiHeadAttention.forward, size. rewrite Hq. cbn [nth_error bind].
  rewrite Ek.
  rewrite (linear_forward_mismatch _ k s d' Hk) by (cbn; congruence).
  reflexivity.
Qed.

(** X9: a decoder layer attends to an encoder output of any length [S]: for
    [x] of shape [[b; P; d_model]] and [enc_out] of shape [[b; S; d_model]]
    it returns a tensor of the shape of [x].  An encoder output of another
    width is only noticed in the second attention, after the masked
    self-attention has been computed: the call fails in the key projection
    of [attn_2]. *)
Theorem decoder_layer_forward_cross (w : world) (name : string) (heads dm cw pw : nat)
    (first_mask : option (tensor Z)) (p : Q) (m : DecoderLayer.t)
    (x enc_out : tensor R) (b P S d' : nat) :
  DecoderLayer.init w name heads dm cw pw first_mask p = Ok m ->
  shape x = [b; P; dm] -> shape enc_out = [b; S; d'] ->
  0 < b -> 0 < heads -> 0 < dm ->
  (forall M, first_mask = Some M -> shape M = [1; P; P]) ->
  (d' = dm ->
   exists out, DecoderLayer.forward m x enc_out = Ok out /\ shape out = [b; P; dm]) /\
  (d' <> dm ->
   DecoderLayer.forward m x enc_out =
   Raise RuntimeError ["attn_2"%string; "k_linear"%string; "linear"%string]).
Proof.
  intros Hinit Hx He Hb Hh Hd Hmask. split.
  - intros ->. exact (decoder_layer_forward_shape w name heads dm cw pw first_mask p m
                        x enc_out b P S Hinit Hx He Hb Hh Hd Hmask).
  - intros Hne. unfold DecoderLayer.init in Hinit.
    apply bind_Ok_inv in Hinit. destruct Hinit as (a1 & Ha1 & Hinit).
    apply bind_Ok_inv in Hinit. destruct Hinit as (a2 & Ha2 & Hinit).
    apply bind_Ok_inv in Hinit. destruct Hinit as (f & Hf & Hinit).
    apply bind_Ok_inv in Hinit. destruct Hinit as (d1 & _ & Hinit).
    apply bind_Ok_inv in Hinit. destruct Hinit as (d2 & _ & Hinit).
    apply bind_Ok_inv in Hinit. destruct Hinit as (d3 & _ & Hinit).
    injection Hinit as <-.
    unfold DecoderLayer.forward.
    cbn [DecoderLayer.norm_1 DecoderLayer.norm_2 DecoderLayer.norm_3
         DecoderLayer.attn_1 DecoderLayer.attn_2 DecoderLayer.ff
         DecoderLayer.dropout_1 DecoderLayer.dropout_2 DecoderLayer.dropout_3].
    run (layer_norm_init_shape w (sub name "norm_1") dm x [b; P] Hx) x2.
    cbn [app] in Sx2.
    destruct (mha_forward_spec w _ heads dm cw pw _ _ _ _ x2 x2 x2 b P P Ha1 Sx2 Sx2 Sx2
                Hb Hh Hd Hmask) as (att & E & Satt & _).
    rewrite E. clear E. cbn [bind within].
    run (add_same_shape x (Dropout.forward d1 att) [b; P; dm] Hx
           ltac:(rewrite dropout_forward_shape; exact Satt)) x'.
    run (layer_norm_init_shape w (sub name "norm_2") dm x' [b; P] Sx') x2'.
    cbn [app] in Sx2'.
    rewrite (mha_forward_key_mismatch w _ heads dm cw pw _ _ _ a2 x2' enc_out enc_out
               b P [b; S] d' Ha2 Sx2' He Hne).
    reflexivity.
Qed.

Lemma decoder_layer_forward_cross_witness :
  exists m,
    DecoderLayer.init zero_world "layer" 4 2 15 5 None 0.1 = Ok m /\
    (exists out,
       DecoderLayer.forward m (torch_zeros [4; 5; 2]) (torch_zeros [4; 9; 2]) = Ok out /\
       shape out = [4; 5; 2]) /\
    DecoderLayer.forward m (torch_zeros [4; 5; 2]) (torch_zeros [4; 9; 3]) =
    Raise RuntimeError ["attn_2"%string; "k_linear"%string; "linear"%string].
Proof.
  destruct (decoder_layer_init_ok zero_world "layer" 4 2 15 5 None 0.1 eq_refl)
    as (m & Hm).
  exists m. split; [exact Hm|]. split.
  - apply (decoder_layer_forward_cross zero_world "layer" 4 2 15 5 None 0.1 m
             (torch_zeros [4; 5; 2]) (torch_zeros [4; 9; 2]) 4 5 9 2 Hm eq_refl eq_refl);
      try lia; try discriminate.
  - apply (decoder_layer_forward_cross zero_world "layer" 4 2 15 5 None 0.1 m
             (torch_zeros [4; 5; 2]) (torch_zeros [4; 9; 3]) 4 5 9 3 Hm eq_refl eq_refl);
      try lia; try discriminate.
Defined.

(** X10: a decoder constructed with [N] layers holds exactly [N] of them,
    and every one of them holds the mask given to the constructor in its
    first attention and no mask in its second; on [x] of shape
    [[b; P; d_model]] and an encoder output of shape [[b; S; d_model]], for
    any [S], it returns a tensor of the shape of [x]. *)
Theorem decoder_forward_stack (w : world) (name : string)
    (N W heads dm cw pw : nat) (first_mask : option (tensor Z)) (p : Q)
    (m : Decoder.t) (x enc_out : tensor R) (b P S : nat) :
  Decoder.init w name N W heads dm cw pw first_mask p = Ok m ->
  shape x = [b; P; dm] -> shape enc_out = [b; S; dm] -> P <= W ->
  0 < b -> 0 < heads -> 0 < dm ->
  (0 < N -> forall M, first_mask = Some M -> shape M = [1; P; P]) ->
  Decoder.N m = N /\ List.length (Decoder.decoderlayers m) = N /\
  (forall layer, In layer (Decoder.decoderlayers m) ->
     MultiHeadAttention.mask (DecoderLayer.attn_1 layer) = first_mask /\
     MultiHeadAttention.mask (DecoderLayer.attn_2 layer) = None) /\
  exists out, Decoder.forward m x enc_out = Ok out /\ shape out = [b; P; dm].
Proof.
  intros Hinit Hx He HP Hb Hh Hd Hmask.
  split; [|split; [|split]].
  - unfold Decoder.init in Hinit.
    apply bind_Ok_inv in Hinit. destruct Hinit as (ls & _ & Hinit).
    injection Hinit as <-. reflexivity.
  - unfold Decoder.init in Hinit.
    apply bind_Ok_inv in Hinit. destruct Hinit as (ls & Hls & Hinit).
    injection Hinit as <-. exact (get_clones_length _ _ _ _ Hls).
  - intros layer Hin. split.
    + exact (decoder_layers_mask w name N W heads dm cw pw first_mask p m layer Hinit Hin).
    + unfold Decoder.init in Hinit.
      apply bind_Ok_inv in Hinit. destruct Hinit as (ls & Hls & Hinit).
      injection Hinit as <-. cbn [Decoder.decoderlayers] in Hin.
      unfold get_clones in Hls.
      apply bind_Ok_inv in Hls. destruct Hls as (_ & _ & Hls).
      destruct (mapM_In _ _ _ layer Hls Hin) as (i & _ & Hl).
      unfold DecoderLayer.init in Hl.
      apply bind_Ok_inv in Hl. destruct Hl as (a1 & _ & Hl).
      apply bind_Ok_inv in Hl. destruct Hl as (a2 & Ha2 & Hl).
      apply bind_Ok_inv in Hl. destruct Hl as (f & _ & Hl).
      apply bind_Ok_inv in Hl. destruct Hl as (d1 & _ & Hl).
      apply bind_Ok_inv in Hl. destruct Hl as (d2 & _ & Hl).
      apply bind_Ok_inv in Hl. destruct Hl as (d3 & _ & Hl).
      injection Hl as <-. cbn [DecoderLayer.attn_2].
      exact (proj1 (proj2 (proj2 (mha_init_inv _ _ _ _ _ _ _ _ _ _ Ha2)))).
  - exact (decoder_forward_shape w name N W heads dm cw pw first_mask p m x enc_out b P S
             Hinit Hx He HP Hb Hh Hd Hmask).
Qed.

Lemma decoder_forward_stack_witness :
  exists m out,
    Decoder.init zero_world "decoder" 4 15 4 1 15 5 None 0.1 = Ok m /\
    List.length (Decoder.decoderlayers m) = 4 /\
    Decoder.forward m (torch_zeros [4; 5; 1]) (torch_zeros [4; 9; 1]) = Ok out /\
    shape out = [4; 5; 1].
Proof.
  destruct (decoder_init_ok zero_world "decoder" 4 15 4 1 15 5 None 0.1 eq_refl)
    as (m & Hm).
  destruct (decoder_forward_stack zero_world "decoder" 4 15 4 1 15 5 None 0.1 m
              (torch_zeros [4; 5; 1]) (torch_zeros [4; 9; 1]) 4 5 9 Hm eq_refl eq_refl
              ltac:(lia) ltac:(lia) ltac:(lia) ltac:(lia) ltac:(discriminate))
    as (_ & HL & _ & out & E & S).
  exists m, out. repeat split; assumption.
Defined.

(** ** The feed-forward block and the residual connections *)

Lemma feed_forward_forward_inv (w : world) (name : string) (dm : nat) (p : Q)
    (m : FeedForward.t) (x out : tensor R) :
  FeedForward.init w name dm p = Ok m ->
  FeedForward.forward m x = Ok out ->
  exists t1,
    Linear.forward (Linear.init w (sub name "linear.0") dm (10 * dm) true) x = Ok t1 /\
    Linear.forward (Linear.init w (sub name "linear.3") (10 * dm) dm true)
      (Dropout.forward (Dropout.mk p (omega w (sub name "linear.2")))
         (map_tensor Sequential.relu t1)) = Ok out.
Proof.
  unfold FeedForward.init. intros Hinit Hfwd.
  apply bind_Ok_inv in Hinit. destruct Hinit as (drop & Hdrop & Hm).
  apply dropout_init_inv in Hdrop. destruct Hdrop as (_ & ->).
  injection Hm as <-.
  unfold FeedForward.forward in Hfwd.
  apply bind_Ok_inv in Hfwd. destruct Hfwd as (o & Ho & Hfwd).
  injection Hfwd as <-.
  apply within_Ok_inv in Ho.
  cbn [FeedForward.linear Sequential.forward Sequential.apply] in Ho.
  apply bind_Ok_inv in Ho. destruct Ho as (t1 & Ht1 & Ho).
  cbn [bind] in Ho.
  apply bind_Ok_inv in Ho. destruct Ho as (o' & Ho' & Ho).
  injection Ho as <-.
  exists t1. split; [exact Ht1 | exact Ho'].
Qed.

Lemma dropout_get_ext (d : Dropout.t) (y y' : tensor R) (idx : list nat) :
  get y idx = get y' idx ->
  get (Dropout.forward d y) idx = get (Dropout.forward d y') idx.
Proof.
  intros H. unfold Dropout.forward. destruct (Dropout.sample d); cbn [get].
  - rewrite H. reflexivity.
  - exact H.
Qed.

Lemma dropout_get_zero (d : Dropout.t) (y : tensor R) (idx : list nat) :
  get y idx = 0%R -> get (Dropout.forward d y) idx = 0%R.
Proof.
  intros H. unfold Dropout.forward. destruct (Dropout.sample d) as [keep|]; cbn [get].
  - rewrite H. destruct (keep idx); [|reflexivity].
    destruct (Qeq_bool (Dropout.p d) 1); [reflexivity|].
    unfold Rdiv. apply Rmult_0_l.
  - exact H.
Qed.

(** X11: the feed-forward block accepts a tensor of any rank whose last
    dimension is [d_model], and returns a tensor of the same shape; on any
    other tensor it fails in its first linear layer. *)
Theorem feed_forward_width (w : world) (name : string) (dm : nat) (p : Q)
    (m : FeedForward.t) (x : tensor R) :
  FeedForward.init w name dm p = Ok m ->
  (forall s, shape x = s ++ [dm] ->
     exists out, FeedForward.forward m x = Ok out /\ shape out = s ++ [dm]) /\
  ((forall s, shape x <> s ++ [dm]) ->
   FeedForward.forward m x = Raise RuntimeError ["linear"%string; "linear"%string]).
Proof.
  intros Hinit. split.
  - intros s Hx. exact (feed_forward_forward_shape w name dm p m x s Hinit Hx).
  - intros Hne. unfold FeedForward.init in Hinit.
    apply bind_Ok_inv in Hinit. destruct Hinit as (drop & _ & Hm).
    injection Hm as <-.
    unfold FeedForward.forward.
    cbn [FeedForward.linear Sequential.forward Sequential.apply].
    match goal with |- context [Linear.forward ?l x] =>
      assert (E : Linear.forward l x = Raise RuntimeError ["linear"%string]) end.
    { unfold Linear.forward. destruct (rev (shape x)) as [|d rs] eqn:Er; [reflexivity|].
      cbn [Linear.in_features Linear.init].
      destruct (d =? dm) eqn:Ed; [|reflexivity].
      apply Nat.eqb_eq in Ed. subst d. exfalso. apply (Hne (rev rs)).
      rewrite <- (rev_involutive (shape x)), Er. reflexivity. }
    rewrite E. reflexivity.
Qed.

Lemma feed_forward_width_witness :
  exists m,
    FeedForward.init zero_world "ff" 5 0.1 = Ok m /\
    exists out, FeedForward.forward m (torch_zeros [2; 3; 4; 5]) = Ok out /\
                shape out = [2; 3; 4; 5].
Proof.
  destruct (feed_forward_init_ok zero_world "ff" 5 0.1 eq_refl) as (m & Hm).
  exists m. split; [exact Hm|].
  apply (proj1 (feed_forward_width zero_world "ff" 5 0.1 m (torch_zeros [2; 3; 4; 5]) Hm)
           [2; 3; 4]).
  reflexivity.
Defined.

(** X12: the feed-forward block works position by position: the output row
    at a position depends only on the input row at that position.  Two
    inputs that agree on the row [idx] give outputs that agree on it (in
    training mode for the same keep-mask). *)
Theorem feed_forward_position_wise (w : world) (name : string) (dm : nat) (p : Q)
    (m : FeedForward.t) (x x' out out' : tensor R) (idx : list nat) :
  FeedForward.init w name dm p = Ok m ->
  FeedForward.forward m x = Ok out ->
  FeedForward.forward m x' = Ok out' ->
  (forall c, c < dm -> get x (idx ++ [c]) = get x' (idx ++ [c])) ->
  forall j, get out (idx ++ [j]) = get out' (idx ++ [j]).
Proof.
  intros Hinit Hf Hf' Hrow j.
  destruct (feed_forward_forward_inv w name dm p m x out Hinit Hf) as (t1 & Ht1 & Ho).
  destruct (feed_forward_forward_inv w name dm p m x' out' Hinit Hf') as (t1' & Ht1' & Ho').
  rewrite (linear_forward_inv _ _ _ Ho idx j), (linear_forward_inv _ _ _ Ho' idx j).
  f_equal. apply sum_n_ext. intros c _. f_equal.
  apply dropout_get_ext. cbn [map_tensor get]. f_equal.
  rewrite (linear_forward_inv _ _ _ Ht1 idx c), (linear_forward_inv _ _ _ Ht1' idx c).
  f_equal. apply sum_n_ext. intros e He. cbn [Linear.in_features Linear.init] in He.
  rewrite (Hrow e He). reflexivity.
Qed.

Lemma feed_forward_position_wise_witness :
  exists m out out',
    FeedForward.init zero_world "ff" 2 0.1 = Ok m /\
    FeedForward.forward m (torch_zeros [3; 2]) = Ok out /\
    FeedForward.forward m
      (mkTensor [3; 2] (fun idx => if list_eq_dec Nat.eq_dec idx [1; 0] then 1%R else 0%R))
      = Ok out' /\
    get out [0; 1] = get out' [0; 1].
Proof.
  destruct (feed_forward_init_ok zero_world "ff" 2 0.1 eq_refl) as (m & Hm).
  set (x' := mkTensor [3; 2]
               (fun idx => if list_eq_dec Nat.eq_dec idx [1; 0] then 1%R else 0%R)).
  destruct (feed_forward_forward_shape zero_world "ff" 2 0.1 m (torch_zeros [3; 2]) [3]
              Hm eq_refl) as (out & E & _).
  destruct (feed_forward_forward_shape zero_world "ff" 2 0.1 m x' [3] Hm eq_refl)
    as (out' & E' & _).
  exists m, out, out'. split; [exact Hm|]. split; [exact E|]. split; [exact E'|].
  apply (feed_forward_position_wise zero_world "ff" 2 0.1 m (torch_zeros [3; 2]) x'
           out out' [0] Hm E E').
  intros c Hc. destruct c as [|[|c]]; [reflexivity | reflexivity | lia].
Defined.

Lemma add_3d (x y : tensor R) (b S d : nat) :
  shape x = [b; S; d] -> shape y = [b; S; d] ->
  exists t', add x y = Ok t' /\ shape t' = [b; S; d] /\
    forall bi i j, bi < b -> i < S -> j < d ->
      get t' [bi; i; j] = (get x [bi; i; j] + get y [bi; i; j])%R.
Proof.
  intros Hx Hy. unfold add. rewrite Hx, Hy, broadcast_shapes_same.
  eexists. split; [reflexivity|]. split; [reflexivity|].
  intros bi i j Hbi Hi Hj. cbn [get]. unfold bcast_index.
  cbn [rev app bcast_index_rev].
  rewrite !bcast_component by assumption. reflexivity.
Qed.

Lemma mha_forward_silent (w : world) (name : string) (heads dm cw pw : nat)
    (first : option bool) (p : Q) (mask : option (tensor Z)) (m : MultiHeadAttention.t)
    (q k v : tensor R) (b Sq Sk : nat) :
  MultiHeadAttention.init w name heads dm cw pw first p mask = Ok m ->
  shape q = [b; Sq; dm] -> shape k = [b; Sk; dm] -> shape v = [b; Sk; dm] ->
  0 < b -> 0 < heads -> 0 < dm ->
  (forall M, mask = Some M -> shape M = [1; Sq; Sk]) ->
  (forall idx, theta w (sub (sub name "unifyheads") "weight") idx = 0%R) ->
  (forall idx, theta w (sub (sub name "unifyheads") "bias") idx = 0%R) ->
  exists out,
    MultiHeadAttention.forward m q k v = Ok out /\
    shape out = [b; Sq; dm] /\
    forall bi i j, bi < b -> i < Sq -> j < dm -> get out [bi; i; j] = 0%R.
Proof.
  intros Hinit Hq Hk Hv Hb Hh Hd Hmask HW HB.
  destruct (mha_forward_spec w name heads dm cw pw first p mask m q k v b Sq Sk
              Hinit Hq Hk Hv Hb Hh Hd Hmask) as (out & E & S & G).
  destruct (mha_init_inv w name heads dm cw pw first p mask m Hinit)
    as (_ & _ & _ & _ & _ & _ & Eu).
  exists out. split; [exact E|]. split; [exact S|].
  intros bi i j Hbi Hi Hj. rewrite (G bi i j Hbi Hi Hj), HB.
  rewrite sum_n_zero; [ring|].
  intros c _. rewrite Eu. cbn [Linear.weight Linear.init]. rewrite HW. ring.
Qed.

Lemma feed_forward_silent (w : world) (name : string) (dm : nat) (p : Q)
    (m : FeedForward.t) (x : tensor R) (s : list nat) :
  FeedForward.init w name dm p = Ok m ->
  shape x = s ++ [dm] ->
  (forall idx, theta w (sub (sub name "linear.3") "weight") idx = 0%R) ->
  (forall idx, theta w (sub (sub name "linear.3") "bias") idx = 0%R) ->
  exists out,
    FeedForward.forward m x = Ok out /\ shape out = s ++ [dm] /\
    forall idx j, get out (idx ++ [j]) = 0%R.
Proof.
  intros Hinit Hx HW HB.
  destruct (feed_forward_forward_shape w name dm p m x s Hinit Hx) as (out & E & S).
  exists out. split; [exact E|]. split; [exact S|].
  intros idx j.
  destruct (feed_forward_forward_inv w name dm p m x out Hinit E) as (t1 & _ & Ho).
  rewrite (linear_forward_inv _ _ _ Ho idx j).
  cbn [Linear.bias Linear.weight Linear.in_features Linear.init]. rewrite HB.
  rewrite sum_n_zero; [ring|].
  intros c _. rewrite HW. ring.
Qed.

(** X13: the two sublayers of an encoder layer are added to its input
    (residual connections).  In exact arithmetic: when the output
    projection of the attention and the last linear layer of the
    feed-forward block have all their parameters at 0, the layer returns an
    input of shape [[b; S; d_model]] unchanged, in evaluation and in
    training mode and for every value of the other parameters.  (A
    floating-point run can differ where an intermediate result overflows:
    0 times infinity or NaN is NaN.) *)
Theorem encoder_layer_residual (w : world) (name : string) (heads dm cw pw : nat)
    (p : Q) (m : EncoderLayer.t) (x : tensor R) (b S : nat) :
  EncoderLayer.init w name heads dm cw pw p = Ok m ->
  shape x = [b; S; dm] -> 0 < b -> 0 < heads -> 0 < dm ->
  (forall idx, theta w (sub (sub (sub name "attn") "unifyheads") "weight") idx = 0%R) ->
  (forall idx, theta w (sub (sub (sub name "attn") "unifyheads") "bias") idx = 0%R) ->
  (forall idx, theta w (sub (sub (sub name "ff") "linear.3") "weight") idx = 0%R) ->
  (forall idx, theta w (sub (sub (sub name "ff") "linear.3") "bias") idx = 0%R) ->
  exists out,
    EncoderLayer.forward m x = Ok out /\ shape out = [b; S; dm] /\
    forall bi i j, bi < b -> i < S -> j < dm -> get out [bi; i; j] = get x [bi; i; j].
Proof.
  unfold EncoderLayer.init. intros Hinit Hx Hb Hh Hd HW1 HB1 HW2 HB2.
  apply bind_Ok_inv in Hinit. destruct Hinit as (a & Ha & Hinit).
  apply bind_Ok_inv in Hinit. destruct Hinit as (f & Hf & Hinit).
  apply bind_Ok_inv in Hinit. destruct Hinit as (d1 & _ & Hinit).
  apply bind_Ok_inv in Hinit. destruct Hinit as (d2 & _ & Hinit).
  injection Hinit as <-.
  unfold EncoderLayer.forward.
  cbn [EncoderLayer.norm_1 EncoderLayer.norm_2 EncoderLayer.attn EncoderLayer.ff
       EncoderLayer.dropout_1 EncoderLayer.dropout_2].
  run (layer_norm_init_shape w (sub name "norm_1") dm x [b; S] Hx) x2.
  cbn [app] in Sx2.
  destruct (mha_forward_silent w _ heads dm cw pw _ _ _ _ x2 x2 x2 b S S Ha Sx2 Sx2 Sx2
              Hb Hh Hd ltac:(discriminate) HW1 HB1) as (att & E & Satt & Gatt).
  rewrite E. clear E. cbn [bind within].
  run (add_3d x (Dropout.forward d1 att) b S dm Hx
         ltac:(rewrite dropout_forward_shape; exact Satt)) x'.
  run (layer_norm_init_shape w (sub name "norm_2") dm x' [b; S] Sx') x2'.
  destruct (feed_forward_silent w _ dm _ f x2' [b; S] Hf Sx2' HW2 HB2)
    as (ffo & E & Sffo & Gffo).
  rewrite E. clear E. cbn [bind within]. cbn [app] in Sffo.
  destruct (add_3d x' (Dropout.forward d2 ffo) b S dm Sx'
              ltac:(rewrite dropout_forward_shape; exact Sffo)) as (out & E & Sout & Gout).
  rewrite E. cbn [bind]. exists out. split; [reflexivity|]. split; [exact Sout|].
  intros bi i j Hbi Hi Hj.
  rewrite (Gout bi i j Hbi Hi Hj), (Gx' bi i j Hbi Hi Hj).
  rewrite (dropout_get_zero d1 att [bi; i; j] (Gatt bi i j Hbi Hi Hj)).
  rewrite (dropout_get_zero d2 ffo [bi; i; j] (Gffo [bi; i] j)).
  ring.
Qed.

Lemma encoder_layer_residual_witness :
  exists m out,
    EncoderLayer.init dropping_world "layer" 4 5 15 5 0.1 = Ok m /\
    EncoderLayer.forward m (mkTensor [4; 15; 5] (fun _ => 2%R)) = Ok out /\
    get out [3; 14; 4] = 2%R.
Proof.
  destruct (encoder_layer_init_ok dropping_world "layer" 4 5 15 5 0.1 eq_refl) as (m & Hm).
  destruct (encoder_layer_residual dropping_world "layer" 4 5 15 5 0.1 m
              (mkTensor [4; 15; 5] (fun _ => 2%R)) 4 15 Hm eq_refl
              ltac:(lia) ltac:(lia) ltac:(lia)
              ltac:(intros; reflexivity) ltac:(intros; reflexivity)
              ltac:(intros; reflexivity) ltac:(intros; reflexivity))
    as (out & E & _ & G).
  exists m, out. split; [exact Hm|]. split; [exact E|].
  rewrite (G 3 14 4 ltac:(lia) ltac:(lia) ltac:(lia)). reflexivity.
Defined.

(** ** Models of width 1 *)

(** A layer normalisation over a single feature returns its bias: the
    feature is its own mean. *)
Lemma layer_norm_width_1 (m : LayerNorm.t) (x out : tensor R) :
  LayerNorm.forward m x = Ok out -> LayerNorm.normalized_shape m = 1 ->
  (exists s, shape out = s ++ [1]) /\
  forall pre, get out (pre ++ [0]) = LayerNorm.bias m 0.
Proof.
  unfold LayerNorm.forward. intros H Hn.
  destruct (rev (shape x)) as [|d rs] eqn:Er; [discriminate|].
  destruct (d =? LayerNorm.normalized_shape m) eqn:Ed; [|discriminate].
  apply Nat.eqb_eq in Ed. rewrite Hn in Ed. subst d.
  injection H as <-. split.
  - exists (rev rs). cbn [shape].
    rewrite <- (rev_involutive (shape x)), Er. reflexivity.
  - intros pre. cbn [get]. rewrite last_last. unfold set_last.
    rewrite removelast_last. cbn [sum_n INR].
    set (v := get x (pre ++ [0])).
    replace ((v - (0 + v) / 1)%R) with 0%R by field.
    unfold Rdiv. rewrite !Rmult_0_l. apply Rplus_0_l.
Qed.

Lemma unravel_last_1 (s : list nat) (off : nat) :
  off < numel (s ++ [1]) -> exists pre, unravel (s ++ [1]) off = pre ++ [0].
Proof.
  revert off. induction s as [|a s IH]; intros off Hoff.
  - cbn in Hoff. exists []. cbn. replace off with 0 by lia. reflexivity.
  - cbn [app unravel].
    assert (Hn : numel (s ++ [1]) <> 0).
    { intros E. cbn [app numel fold_right] in Hoff. fold (numel (s ++ [1])) in Hoff.
      rewrite E in Hoff. lia. }
    destruct (IH (off mod numel (s ++ [1]))) as (pre & Epre).
    { apply Nat.mod_upper_bound. exact Hn. }
    rewrite Epre. exists (off / numel (s ++ [1]) :: pre). reflexivity.
Qed.

Lemma view_2d_inv {A} (t t' : tensor A) (b P : nat) :
  view t [D b; D P] = Ok t' ->
  numel (shape t) = b * P /\
  forall i c, get t' [i; c] = get t (unravel (shape t) (i * P + c)).
Proof.
  unfold view, view_shape. cbn [count_infer filter List.length known_numel fold_right].
  destruct (b * (P * 1) =? numel (shape t)) eqn:E; [|discriminate].
  apply Nat.eqb_eq in E. intros H. injection H as <-. split; [lia|].
  intros i c. cbn [get fill_infer map ravel numel fold_right].
  f_equal. f_equal. lia.
Qed.

Lemma encoder_forward_norm (m : Encoder.t) (x out : tensor R) :
  Encoder.forward m x = Ok out ->
  exists x', LayerNorm.forward (Encoder.norm m) x' = Ok out.
Proof.
  unfold Encoder.forward. intros H.
  apply bind_Ok_inv in H. destruct H as (x1 & _ & H).
  apply bind_Ok_inv in H. destruct H as (x2 & _ & H).
  apply within_Ok_inv in H. exists x2. exact H.
Qed.

Lemma decoder_forward_norm (m : Decoder.t) (x enc_out out : tensor R) :
  Decoder.forward m x enc_out = Ok out ->
  exists x', LayerNorm.forward (Decoder.norm m) x' = Ok out.
Proof.
  unfold Decoder.forward. intros H.
  apply bind_Ok_inv in H. destruct H as (x1 & _ & H).
  apply bind_Ok_inv in H. destruct H as (x2 & _ & H).
  apply within_Ok_inv in H. exists x2. exact H.
Qed.

Lemma decoder_forward_width_1 (w : world) (name : string) (N W heads cw pw : nat)
    (first_mask : option (tensor Z)) (p : Q) (m : Decoder.t) (x enc_out out : tensor R) :
  Decoder.init w name N W heads 1 cw pw first_mask p = Ok m ->
  Decoder.forward m x enc_out = Ok out ->
  (exists s, shape out = s ++ [1]) /\
  forall pre, get out (pre ++ [0]) = theta w (sub (sub name "norm") "bias") [0].
Proof.
  intros Hinit Hf.
  destruct (decoder_forward_norm m x enc_out out Hf) as (x' & Hn).
  unfold Decoder.init in Hinit.
  apply bind_Ok_inv in Hinit. destruct Hinit as (ls & _ & Hinit).
  injection Hinit as <-. cbn [Decoder.norm] in Hn.
  exact (layer_norm_width_1 _ x' out Hn eq_refl).
Qed.

Lemma encoder_forward_width_1 (w : world) (name : string) (N W heads cw pw : nat)
    (p : Q) (m : Encoder.t) (x out : tensor R) :
  Encoder.init w name N W heads 1 cw pw p = Ok m ->
  Encoder.forward m x = Ok out ->
  (exists s, shape out = s ++ [1]) /\
  forall pre, get out (pre ++ [0]) = theta w (sub (sub name "norm") "bias") [0].
Proof.
  intros Hinit Hf.
  destruct (encoder_forward_norm m x out Hf) as (x' & Hn).
  unfold Encoder.init in Hinit.
  apply bind_Ok_inv in Hinit. destruct Hinit as (ls & _ & Hinit).
  injection Hinit as <-. cbn [Encoder.norm] in Hn.
  exact (layer_norm_width_1 _ x' out Hn eq_refl).
Qed.

(** X14: an encoder or decoder of width 1 ([d_model = 1], the default width
    of the decoder) ends with a layer normalisation over a single feature,
    which subtracts the feature from itself.  In exact arithmetic: whatever
    the inputs, the depth and the other parameters, every entry of an
    output that [forward] returns is the bias of the final [norm].  (A
    floating-point run can differ where an intermediate result of the
    normalisation overflows.) *)
Theorem stack_output_width_1 (w : world) (name : string) (N W heads cw pw : nat)
    (first_mask : option (tensor Z)) (p : Q) :
  (forall (m : Encoder.t) (x out : tensor R),
     Encoder.init w name N W heads 1 cw pw p = Ok m ->
     Encoder.forward m x = Ok out ->
     forall pre, get out (pre ++ [0]) = theta w (sub (sub name "norm") "bias") [0]) /\
  (forall (m : Decoder.t) (x enc_out out : tensor R),
     Decoder.init w name N W heads 1 cw pw first_mask p = Ok m ->
     Decoder.forward m x enc_out = Ok out ->
     forall pre, get out (pre ++ [0]) = theta w (sub (sub name "norm") "bias") [0]).
Proof.
  split.
  - intros m x out Hinit Hf.
    exact (proj2 (encoder_forward_width_1 w name N W heads cw pw p m x out Hinit Hf)).
  - intros m x enc_out out Hinit Hf.
    exact (proj2 (decoder_forward_width_1 w name N W heads cw pw first_mask p m x enc_out
                    out Hinit Hf)).
Qed.

Lemma stack_output_width_1_witness :
  exists m out,
    Decoder.init (bias_world 3) "decoder" 2 15 4 1 15 5 None 0.1 = Ok m /\
    Decoder.forward m (mkTensor [4; 5; 1] (fun _ => 7%R)) (torch_zeros [4; 15; 1]) = Ok out /\
    get out [3; 4; 0] = 0%R.
Proof.
  destruct (decoder_init_ok (bias_world 3) "decoder" 2 15 4 1 15 5 None 0.1 eq_refl)
    as (m & Hm).
  destruct (decoder_forward_shape (bias_world 3) "decoder" 2 15 4 1 15 5 None 0.1 m
              (mkTensor [4; 5; 1] (fun _ => 7%R)) (torch_zeros [4; 15; 1]) 4 5 15
              Hm eq_refl eq_refl ltac:(lia) ltac:(lia) ltac:(lia) ltac:(lia)
              ltac:(discriminate)) as (out & E & _).
  exists m, out. split; [exact Hm|]. split; [exact E|].
  exact (proj2 (stack_output_width_1 (bias_world 3) "decoder" 2 15 4 15 5 None 0.1)
           m _ _ out Hm E [3; 4]).
Defined.

Lemma ml4f_forward_inv (m : Ml4fTransformer.t) (x y out : tensor R) :
  Ml4fTransformer.forward m x y = Ok out ->
  exists b enc_map dec_out dec,
    size x 0 = Ok b /\
    Decoder.forward (Ml4fTransformer.decoder m) y enc_map = Ok dec_out /\
    view dec_out [D b; D (Ml4fTransformer.pred_window m)] = Ok dec /\
    Sequential.forward (Ml4fTransformer.map m) dec = Ok out.
Proof.
  unfold Ml4fTransformer.forward. intros H.
  apply bind_Ok_inv in H. destruct H as (b & Hb & H).
  apply bind_Ok_inv in H. destruct H as (e1 & _ & H).
  apply bind_Ok_inv in H. destruct H as (e2 & _ & H).
  apply bind_Ok_inv in H. destruct H as (e3 & _ & H).
  apply bind_Ok_inv in H. destruct H as (e4 & _ & H).
  apply bind_Ok_inv in H. destruct H as (d1 & Hd1 & H).
  apply bind_Ok_inv in H. destruct H as (d2 & Hd2 & H).
  apply bind_Ok_inv in H. destruct H as (final & Hmap & H).
  injection H as <-.
  apply within_Ok_inv in Hd1. apply within_Ok_inv in Hmap.
  exists b, e4, d1, d2. repeat split; assumption.
Qed.

(** With a decoder of width 1, the linear layer of the final mapping block
    reads a tensor whose entries are all the bias of the decoder's last
    normalisation. *)
Lemma ml4f_forward_width_1 (w : world) (kw : Ml4fTransformer.kwargs)
    (m : Ml4fTransformer.t) (x y out : tensor R) (b : nat) :
  Ml4fTransformer.init w kw = Ok m ->
  Ml4fTransformer.or_default (Ml4fTransformer.kw_d_model_d kw) 1 = 1 ->
  Ml4fTransformer.forward m x y = Ok out ->
  size x 0 = Ok b ->
  exists t1,
    out =
      (if (Ml4fTransformer.or_default (Ml4fTransformer.kw_experiment kw) "return"
           =? "return")%string
       then Dropout.forward
              (Dropout.mk (Ml4fTransformer.or_default (Ml4fTransformer.kw_dropout kw) 0.1%Q)
                          (omega w "map.2"))
              (map_tensor Sequential.relu t1)
       else map_tensor Sequential.sigmoid
              (Dropout.forward
                 (Dropout.mk (Ml4fTransformer.or_default (Ml4fTransformer.kw_dropout kw) 0.1%Q)
                             (omega w "map.2"))
                 (map_tensor Sequential.relu t1))) /\
    forall i j, i < b ->
      get t1 [i; j] =
      Rplus
        (sum_n (Ml4fTransformer.or_default (Ml4fTransformer.kw_pred_window kw) 5)
           (fun c => Rmult (theta w "decoder.norm.bias" [0])
                           (theta w "map.0.weight" [j; c])))
        (theta w "map.0.bias" [j]).
Proof.
  intros Hinit Hd Hf Hb.
  destruct (ml4f_init_inv w kw m Hinit)
    as (m5 & enc & dec & ldrop & mdrop & Hm5 & Henc & Hdec & Hp & Edd & EP & Eenc & Edec
        & Elearn & Emap & Emd).
  destruct (ml4f_forward_inv m x y out Hf) as (b' & enc_map & dec_out & dv & Hb' & Hdo & Hv & Hs).
  assert (b' = b) by congruence. subst b'.
  rewrite Edec in Hdo. rewrite EP in Hv. rewrite Hd in Hdec.
  destruct (decoder_forward_width_1 w "decoder" _ _ _ _ _ _ _ dec y enc_map dec_out Hdec Hdo)
    as ((s & Hshape) & Hval).
  destruct (view_2d_inv dec_out dv b _ Hv) as (Hnum & Hget).
  assert (Hdv : forall i c, i < b ->
            c < Ml4fTransformer.or_default (Ml4fTransformer.kw_pred_window kw) 5 ->
            get dv [i; c] = theta w "decoder.norm.bias" [0]).
  { intros i c Hi Hc. rewrite Hget.
    destruct (unravel_last_1 s
                (i * Ml4fTransformer.or_default (Ml4fTransformer.kw_pred_window kw) 5 + c))
      as (pre & Epre).
    { rewrite <- Hshape, Hnum. nia. }
    rewrite Hshape, Epre. apply Hval. }
  rewrite Emap in Hs.
  destruct (Ml4fTransformer.or_default (Ml4fTransformer.kw_experiment kw) "return"
            =? "return")%string;
    cbn [Sequential.forward Sequential.apply] in Hs;
    apply bind_Ok_inv in Hs; destruct Hs as (t1 & Ht1 & Hs);
    cbn [bind] in Hs; injection Hs as <-;
    exists t1; (split; [rewrite Emd; reflexivity|]);
    intros i j Hi;
    pose proof (linear_forward_inv _ _ _ Ht1 [i] j) as G;
    cbn [Linear.in_features Linear.weight Linear.bias Linear.init app] in G;
    rewrite G; f_equal;
    apply sum_n_ext; intros c Hc; rewrite (Hdv i c Hi Hc); reflexivity.
Qed.

Lemma ml4f_outputs_agree
    (w w' : world) (kw : Ml4fTransformer.kwargs) (m m' : Ml4fTransformer.t)
    (x y x' y' out out' : tensor R) (b b' : nat) :
  Ml4fTransformer.or_default (Ml4fTransformer.kw_d_model_d kw) 1 = 1 ->
  Ml4fTransformer.init w kw = Ok m ->
  Ml4fTransformer.init w' kw = Ok m' ->
  theta w "decoder.norm.bias" [0] = theta w' "decoder.norm.bias" [0] ->
  (forall idx, theta w "map.0.weight" idx = theta w' "map.0.weight" idx) ->
  (forall idx, theta w "map.0.bias" idx = theta w' "map.0.bias" idx) ->
  omega w "map.2" = omega w' "map.2" ->
  Ml4fTransformer.forward m x y = Ok out -> size x 0 = Ok b ->
  Ml4fTransformer.forward m' x' y' = Ok out' -> size x' 0 = Ok b' ->
  forall i j, i < b -> i < b' -> get out [i; j] = get out' [i; j].
Proof.
  intros Hd Hinit Hinit' Hbeta HW HB Hom Hf Hb Hf' Hb' i j Hi Hi'.
  destruct (ml4f_forward_width_1 w kw m x y out b Hinit Hd Hf Hb) as (t1 & -> & G).
  destruct (ml4f_forward_width_1 w' kw m' x' y' out' b' Hinit' Hd Hf' Hb') as (t1' & -> & G').
  assert (E : get t1 [i; j] = get t1' [i; j]).
  { rewrite (G i j Hi), (G' i j Hi'), Hbeta, HB. f_equal.
    apply sum_n_ext. intros c _. rewrite HW. reflexivity. }
  assert (E' : forall d, get (Dropout.forward d (map_tensor Sequential.relu t1)) [i; j] =
                         get (Dropout.forward d (map_tensor Sequential.relu t1')) [i; j]).
  { intros d. apply dropout_get_ext. cbn [map_tensor get]. rewrite E. reflexivity. }
  rewrite Hom.
  destruct (Ml4fTransformer.or_default (Ml4fTransformer.kw_experiment kw) "return"
            =? "return")%string.
  - apply E'.
  - cbn [map_tensor get]. f_equal. apply E'.
Qed.

(** X15: in exact arithmetic, with a decoder of width 1 (the default), the
    output of the model does not depend on its inputs at all: it is
    determined by the bias of the decoder's last normalisation, the
    parameters of the final linear layer and the keep-mask of the final
    dropout.  Two models constructed with the same arguments that agree on
    these return the same entries for any two pairs of inputs on which
    [forward] returns, whatever their other parameters.  (A floating-point
    run can differ where an intermediate result overflows.) *)
Theorem transformer_output_ignores_input
    (w w' : world) (kw : Ml4fTransformer.kwargs) (m m' : Ml4fTransformer.t)
    (x y x' y' out out' : tensor R) (b b' : nat) :
  Ml4fTransformer.or_default (Ml4fTransformer.kw_d_model_d kw) 1 = 1 ->
  Ml4fTransformer.init w kw = Ok m ->
  Ml4fTransformer.init w' kw = Ok m' ->
  theta w "decoder.norm.bias" [0] = theta w' "decoder.norm.bias" [0] ->
  (forall idx, theta w "map.0.weight" idx = theta w' "map.0.weight" idx) ->
  (forall idx, theta w "map.0.bias" idx = theta w' "map.0.bias" idx) ->
  omega w "map.2" = omega w' "map.2" ->
  Ml4fTransformer.forward m x y = Ok out -> size x 0 = Ok b ->
  Ml4fTransformer.forward m' x' y' = Ok out' -> size x' 0 = Ok b' ->
  forall i j, i < b -> i < b' -> get out [i; j] = get out' [i; j].
Proof.
  exact (ml4f_outputs_agree w w' kw m m' x y x' y' out out' b b').
Qed.

Lemma transformer_output_ignores_input_witness :
  exists m out out',
    Ml4fTransformer.init zero_world (without_mask "return" 5 1 4 4 0.1 15 5 15) = Ok m /\
    Ml4fTransformer.forward m (torch_zeros [4; 15; 5]) (torch_zeros [4; 5; 1]) = Ok out /\
    Ml4fTransformer.forward m (mkTensor [4; 15; 5] (fun _ => 1%R))
      (mkTensor [4; 5; 1] (fun _ => 2%R)) = Ok out' /\
    get out [3; 4] = get out' [3; 4].
Proof.
  set (kw := without_mask "return" 5 1 4 4 0.1 15 5 15).
  destruct (ml4f_init_ok zero_world kw eq_refl) as (m & Hm).
  assert (Hmask : 0 < Ml4fTransformer.or_default (Ml4fTransformer.kw_N kw) 2 ->
            forall m5 M, create_mask 5 5 = Ok m5 ->
            Ml4fTransformer.or_default (Ml4fTransformer.kw_first_mask kw) (Some m5) = Some M ->
            shape M = [1; Ml4fTransformer.or_default (Ml4fTransformer.kw_pred_window kw) 5;
                       Ml4fTransformer.or_default (Ml4fTransformer.kw_pred_window kw) 5]).
  { intros _ m5 M H5 HM. cbn in HM. injection HM as <-.
    destruct (create_mask_spec 5 5) as (m5' & E5 & S5 & _).
    replace m5 with m5' by congruence. exact S5. }
  destruct (ml4f_forward_shape zero_world kw m (torch_zeros [4; 15; 5])
              (torch_zeros [4; 5; 1]) 4 Hm eq_refl eq_refl eq_refl
              ltac:(cbn; lia) ltac:(cbn; lia) ltac:(lia) ltac:(cbn; lia) ltac:(cbn; lia)
              ltac:(cbn; lia) Hmask) as (out & E & _).
  destruct (ml4f_forward_shape zero_world kw m (mkTensor [4; 15; 5] (fun _ => 1%R))
              (mkTensor [4; 5; 1] (fun _ => 2%R)) 4 Hm eq_refl eq_refl eq_refl
              ltac:(cbn; lia) ltac:(cbn; lia) ltac:(lia) ltac:(cbn; lia) ltac:(cbn; lia)
              ltac:(cbn; lia) Hmask) as (out' & E' & _).
  exists m, out, out'. split; [exact Hm|]. split; [exact E|]. split; [exact E'|].
  apply (transformer_output_ignores_input zero_world zero_world kw m m _ _ _ _ out out' 4 4
           eq_refl Hm Hm eq_refl ltac:(reflexivity) ltac:(reflexivity) eq_refl
           E eq_refl E' eq_refl); lia.
Defined.

(** ** The model and the script *)

(** X16: the bridge between encoder and decoder fixes the length of the
    input: an input whose length differs from [context_window] (and fits
    the positional encoding) passes through the whole encoder and is only
    rejected by the linear layer of [learn]. *)
Theorem transformer_wrong_context
    (w : world) (kw : Ml4fTransformer.kwargs) (m : Ml4fTransformer.t)
    (x y : tensor R) (b L : nat) :
  Ml4fTransformer.init w kw = Ok m ->
  shape x = [b; L; Ml4fTransformer.or_default (Ml4fTransformer.kw_d_model_e kw) 5] ->
  L <= Ml4fTransformer.or_default (Ml4fTransformer.kw_pe_window kw) 15 ->
  L <> Ml4fTransformer.or_default (Ml4fTransformer.kw_context_window kw) 15 ->
  0 < b ->
  0 < Ml4fTransformer.or_default (Ml4fTransformer.kw_heads kw) 4 ->
  0 < Ml4fTransformer.or_default (Ml4fTransformer.kw_d_model_e kw) 5 ->
  Ml4fTransformer.forward m x y =
  Raise RuntimeError ["learn"%string; "linear"%string].
Proof.
  intros Hinit Hx HL Hne Hb Hh Hde.
  destruct (ml4f_init_inv w kw m Hinit)
    as (m5 & enc & dec & ldrop & mdrop & Hm5 & Henc & Hdec & Hp & Edd & EP & Eenc & Edec
        & Elearn & Emap & Emd).
  unfold Ml4fTransformer.forward, size. rewrite Hx. cbn [nth_error bind].
  rewrite Eenc, Elearn.
  run (encoder_forward_shape w _ _ _ _ _ _ _ _ enc x b L Henc Hx HL Hb Hh Hde) e1.
  rewrite (view_infer e1 [D b; Infer]
             (L * Ml4fTransformer.or_default (Ml4fTransformer.kw_d_model_e kw) 5));
    [ | reflexivity | cbn; lia | rewrite Se1; cbn; ring ].
  cbn [bind fill_infer List.map].
  cbn [Sequential.forward Sequential.apply].
  match goal with |- context [Linear.forward ?l ?t] =>
    rewrite (linear_forward_mismatch l t [b]
               (L * Ml4fTransformer.or_default (Ml4fTransformer.kw_d_model_e kw) 5)
               eq_refl)
  end.
  - reflexivity.
  - cbn [Linear.in_features Linear.init]. nia.
Qed.

Lemma transformer_wrong_context_witness :
  exists m,
    Ml4fTransformer.init zero_world (without_mask "return" 5 1 4 4 0.1 15 5 15) = Ok m /\
    Ml4fTransformer.forward m (torch_zeros [4; 14; 5]) (torch_zeros [4; 5; 1]) =
    Raise RuntimeError ["learn"%string; "linear"%string].
Proof.
  set (kw := without_mask "return" 5 1 4 4 0.1 15 5 15).
  destruct (ml4f_init_ok zero_world kw eq_refl) as (m & Hm).
  exists m. split; [exact Hm|].
  apply (transformer_wrong_context zero_world kw m (torch_zeros [4; 14; 5])
           (torch_zeros [4; 5; 1]) 4 14 Hm eq_refl); cbn; lia.
Defined.

Lemma dropout_init_invalid (w : world) (name : string) (p : Q) :
  ~ valid_rate p -> Dropout.init w name p = Raise ValueError ["Dropout"%string].
Proof.
  unfold valid_rate, Dropout.init. intros H.
  destruct (Qle_bool 0 p && Qle_bool p 1); [exfalso; apply H; reflexivity | reflexivity].
Qed.

(** X17: the constructor of the model returns exactly when the dropout
    rate lies in [[0, 1]], for every value of the other arguments.  With a
    rate outside, it fails with the ValueError of the first [nn.Dropout] it
    constructs, also for a model without any layer ([N = 0]), since the
    template layer is constructed before it is cloned. *)
Theorem transformer_init_rate (w : world) (kw : Ml4fTransformer.kwargs) :
  (valid_rate (Ml4fTransformer.or_default (Ml4fTransformer.kw_dropout kw) 0.1%Q) ->
   exists m, Ml4fTransformer.init w kw = Ok m) /\
  (~ valid_rate (Ml4fTransformer.or_default (Ml4fTransformer.kw_dropout kw) 0.1%Q) ->
   Ml4fTransformer.init w kw = Raise ValueError ["Dropout"%string]).
Proof.
  split.
  - apply ml4f_init_ok.
  - intros Hp. unfold Ml4fTransformer.init, Ml4fTransformer.default_first_mask.
    destruct (create_mask_spec 5 5) as (m5 & -> & _). cbn [bind].
    unfold Encoder.init, get_clones, EncoderLayer.init, MultiHeadAttention.init.
    rewrite (dropout_init_invalid w _ _ Hp). reflexivity.
Qed.

Lemma transformer_init_rate_witness :
  (exists m, Ml4fTransformer.init zero_world
               (without_mask "return" 5 1 0 4 1 15 5 15) = Ok m) /\
  Ml4fTransformer.init zero_world (without_mask "return" 5 1 0 4 1.5 15 5 15) =
  Raise ValueError ["Dropout"%string].
Proof.
  split.
  - apply (proj1 (transformer_init_rate zero_world
                    (without_mask "return" 5 1 0 4 1 15 5 15))).
    reflexivity.
  - apply (proj2 (transformer_init_rate zero_world
                    (without_mask "return" 5 1 0 4 1.5 15 5 15))).
    discriminate.
Defined.



(** ** Further properties of the attention modules and the decoder layer *)

(** X19: the attention function needs a batch, a head and a feature: when
    the batch size, the number of heads or the width of [k] is 0, the first
    [view(b * h, -1, d)] cannot infer its free dimension and the call fails
    there, whatever [q], [v] and the mask are. *)
Theorem attention_empty (k q v : tensor R) (mask : option (tensor Z)) (b Sk h d : nat) :
  shape k = [b; Sk; h; d] -> b = 0 \/ h = 0 \/ d = 0 ->
  scaled_dot_product_attention k q v mask = Raise RuntimeError ["view"%string].
Proof.
  intros Hk H0. unfold scaled_dot_product_attention. rewrite Hk.
  destruct (transpose12_4d k b Sk h d Hk) as (k' & -> & Sk' & _). cbn [bind].
  unfold contiguous, view, view_shape.
  cbn [count_infer filter List.length known_numel fold_right].
  assert (E : (b * h * (d * 1) =? 0) = true) by (apply Nat.eqb_eq; nia).
  rewrite E. reflexivity.
Qed.

Lemma attention_empty_witness :
  scaled_dot_product_attention (torch_zeros [0; 3; 4; 5]) (torch_zeros [0; 3; 4; 5])
    (torch_zeros [0; 3; 4; 5]) None = Raise RuntimeError ["view"%string].
Proof.
  apply (attention_empty (torch_zeros [0; 3; 4; 5]) (torch_zeros [0; 3; 4; 5])
           (torch_zeros [0; 3; 4; 5]) None 0 3 4 5 eq_refl).
  left. reflexivity.
Defined.

(** X20: [MultiHeadAttention] stores the arguments [context_window],
    [pred_window] and [first] but its forward pass never reads them: two
    modules that differ only in these behave alike on every input, failures
    included. *)
Theorem multi_head_attention_unused_arguments
    (w : world) (name : string) (heads dm cw pw cw' pw' : nat)
    (first first' : option bool) (p : Q) (mask : option (tensor Z))
    (m m' : MultiHeadAttention.t) (q k v : tensor R) :
  MultiHeadAttention.init w name heads dm cw pw first p mask = Ok m ->
  MultiHeadAttention.init w name heads dm cw' pw' first' p mask = Ok m' ->
  MultiHeadAttention.forward m q k v = MultiHeadAttention.forward m' q k v.
Proof.
  intros Hm Hm'.
  destruct (mha_init_inv w name heads dm cw pw first p mask m Hm)
    as (Eh & Ed & Em & Eq & Ek & Ev & Eu).
  destruct (mha_init_inv w name heads dm cw' pw' first' p mask m' Hm')
    as (Eh' & Ed' & Em' & Eq' & Ek' & Ev' & Eu').
  unfold MultiHeadAttention.forward.
  rewrite Eh, Ed, Em, Eq, Ek, Ev, Eu, Eh', Ed', Em', Eq', Ek', Ev', Eu'.
  reflexivity.
Qed.

Lemma multi_head_attention_unused_arguments_witness :
  exists m m',
    MultiHeadAttention.init zero_world "attn" 4 5 15 5 None 0.1 None = Ok m /\
    MultiHeadAttention.init zero_world "attn" 4 5 3 7 (Some false) 0.1 None = Ok m' /\
    MultiHeadAttention.forward m (torch_zeros [4; 15; 5]) (torch_zeros [4; 15; 5])
      (torch_zeros [4; 15; 5]) =
    MultiHeadAttention.forward m' (torch_zeros [4; 15; 5]) (torch_zeros [4; 15; 5])
      (torch_zeros [4; 15; 5]).
Proof.
  destruct (mha_init_ok zero_world "attn" 4 5 15 5 None 0.1 None eq_refl) as (m & Hm).
  destruct (mha_init_ok zero_world "attn" 4 5 3 7 (Some false) 0.1 None eq_refl)
    as (m' & Hm').
  exists m, m'. split; [exact Hm|]. split; [exact Hm'|].
  exact (multi_head_attention_unused_arguments zero_world "attn" 4 5 15 5 3 7 None
           (Some false) 0.1 None m m' _ _ _ Hm Hm').
Defined.

(** X21: the three sublayers of a decoder layer are added to its input
    (residual connections).  In exact arithmetic: when the output
    projections of both attentions and the last linear layer of the
    feed-forward block have all their parameters at 0, the layer returns
    [x] of shape [[b; P; d_model]] unchanged, for every encoder output of
    shape [[b; S; d_model]], every mask that is [None] or of shape
    [[1; P; P]] and every value of the other parameters.  (A floating-point
    run can differ where an intermediate result overflows: 0 times infinity
    or NaN is NaN.) *)
Theorem decoder_layer_residual (w : world) (name : string) (heads dm cw pw : nat)
    (first_mask : option (tensor Z)) (p : Q) (m : DecoderLayer.t)
    (x enc_out : tensor R) (b P S : nat) :
  DecoderLayer.init w name heads dm cw pw first_mask p = Ok m ->
  shape x = [b; P; dm] -> shape enc_out = [b; S; dm] ->
  0 < b -> 0 < heads -> 0 < dm ->
  (forall M, first_mask = Some M -> shape M = [1; P; P]) ->
  (forall idx, theta w (sub (sub (sub name "attn_1") "unifyheads") "weight") idx = 0%R) ->
  (forall idx, theta w (sub (sub (sub name "attn_1") "unifyheads") "bias") idx = 0%R) ->
  (forall idx, theta w (sub (sub (sub name "attn_2") "unifyheads") "weight") idx = 0%R) ->
  (forall idx, theta w (sub (sub (sub name "attn_2") "unifyheads") "bias") idx = 0%R) ->
  (forall idx, theta w (sub (sub (sub name "ff") "linear.3") "weight") idx = 0%R) ->
  (forall idx, theta w (sub (sub (sub name "ff") "linear.3") "bias") idx = 0%R) ->
  exists out,
    DecoderLayer.forward m x enc_out = Ok out /\ shape out = [b; P; dm] /\
    forall bi i j, bi < b -> i < P -> j < dm -> get out [bi; i; j] = get x [bi; i; j].
Proof.
  unfold DecoderLayer.init.
  intros Hinit Hx He Hb Hh Hd Hmask HW1 HB1 HW2 HB2 HW3 HB3.
  apply bind_Ok_inv in Hinit. destruct Hinit as (a1 & Ha1 & Hinit).
  apply bind_Ok_inv in Hinit. destruct Hinit as (a2 & Ha2 & Hinit).
  apply bind_Ok_inv in Hinit. destruct Hinit as (f & Hf & Hinit).
  apply bind_Ok_inv in Hinit. destruct Hinit as (d1 & _ & Hinit).
  apply bind_Ok_inv in Hinit. destruct Hinit as (d2 & _ & Hinit).
  apply bind_Ok_inv in Hinit. destruct Hinit as (d3 & _ & Hinit).
  injection Hinit as <-.
  unfold DecoderLayer.forward.
  cbn [DecoderLayer.norm_1 DecoderLayer.norm_2 DecoderLayer.norm_3
       DecoderLayer.attn_1 DecoderLayer.attn_2 DecoderLayer.ff
       DecoderLayer.dropout_1 DecoderLayer.dropout_2 DecoderLayer.dropout_3].
  run (layer_norm_init_shape w (sub name "norm_1") dm x [b; P] Hx) x2.
  cbn [app] in Sx2.
  destruct (mha_forward_silent w _ heads dm cw pw _ _ _ _ x2 x2 x2 b P P Ha1 Sx2 Sx2 Sx2
              Hb Hh Hd Hmask HW1 HB1) as (att & E & Satt & Gatt).
  rewrite E. clear E. cbn [bind within].
  run (add_3d x (Dropout.forward d1 att) b P dm Hx
         ltac:(rewrite dropout_forward_shape; exact Satt)) x'.
  run (layer_norm_init_shape w (sub name "norm_2") dm x' [b; P] Sx') x2'.
  cbn [app] in Sx2'.
  destruct (mha_forward_silent w _ heads dm cw pw _ _ _ _ x2' enc_out enc_out b P S
              Ha2 Sx2' He He Hb Hh Hd ltac:(discriminate) HW2 HB2)
    as (att2 & E & Satt2 & Gatt2).
  rewrite E. clear E. cbn [bind within].
  run (add_3d x' (Dropout.forward d2 att2) b P dm Sx'
         ltac:(rewrite dropout_forward_shape; exact Satt2)) x''.
  run (layer_norm_init_shape w (sub name "norm_3") dm x'' [b; P] Sx'') x2''.
  destruct (feed_forward_silent w _ dm _ f x2'' [b; P] Hf Sx2'' HW3 HB3)
    as (ffo & E & Sffo & Gffo).
  rewrite E. clear E. cbn [bind within]. cbn [app] in Sffo.
  destruct (add_3d x'' (Dropout.forward d3 ffo) b P dm Sx''
              ltac:(rewrite dropout_forward_shape; exact Sffo)) as (out & E & Sout & Gout).
  rewrite E. cbn [bind]. exists out. split; [reflexivity|]. split; [exact Sout|].
  intros bi i j Hbi Hi Hj.
  rewrite (Gout bi i j Hbi Hi Hj), (Gx'' bi i j Hbi Hi Hj), (Gx' bi i j Hbi Hi Hj).
  rewrite (dropout_get_zero d1 att [bi; i; j] (Gatt bi i j Hbi Hi Hj)).
  rewrite (dropout_get_zero d2 att2 [bi; i; j] (Gatt2 bi i j Hbi Hi Hj)).
  rewrite (dropout_get_zero d3 ffo [bi; i; j] (Gffo [bi; i] j)).
  ring.
Qed.

Lemma decoder_layer_residual_witness :
  exists mask m out,
    create_mask 5 5 = Ok mask /\
    DecoderLayer.init dropping_world "layer" 4 1 15 5 (Some mask) 0.1 = Ok m /\
    DecoderLayer.forward m (mkTensor [4; 5; 1] (fun _ => 2%R)) (torch_zeros [4; 15; 1])
      = Ok out /\
    get out [3; 4; 0] = 2%R.
Proof.
  destruct (create_mask_spec 5 5) as (mask & Emask & Smask & _).
  destruct (decoder_layer_init_ok dropping_world "layer" 4 1 15 5 (Some mask) 0.1 eq_refl)
    as (m & Hm).
  destruct (decoder_layer_residual dropping_world "layer" 4 1 15 5 (Some mask) 0.1 m
              (mkTensor [4; 5; 1] (fun _ => 2%R)) (torch_zeros [4; 15; 1]) 4 5 15
              Hm eq_refl eq_refl ltac:(lia) ltac:(lia) ltac:(lia)
              ltac:(intros M HM; injection HM as <-; exact Smask)
              ltac:(intros; reflexivity) ltac:(intros; reflexivity)
              ltac:(intros; reflexivity) ltac:(intros; reflexivity)
              ltac:(intros; reflexivity) ltac:(intros; reflexivity))
    as (out & E & _ & G).
  exists mask, m, out. split; [exact Emask|]. split; [exact Hm|]. split; [exact E|].
  rewrite (G 3 4 0 ltac:(lia) ltac:(lia) ltac:(lia)). reflexivity.
Defined.
